(** * splat-time-toggle: navigation collision arbitration and time toggle

    A shallow embedding of the JavaScript sources

    - wall-system.js        (src/unnamed/part_000): 2D segment intersection
      and the virtual walls, with the functions that edit them,
    - collision-system.js   (src/unnamed/part_001): mesh collision through
      the physics raycast, and its readiness handshake,
    - time-toggle-system.js (src/unnamed/part_002): loading of and switching
      between time states,
    - the entry script      (src/vite.config.js): the per-frame movement
      handler and the loading of the wall configuration,

    together with the properties stated about them.

    JavaScript numbers are IEEE 754 binary64 values and are modelled by
    Rocq's primitive floats, so every comparison below is the comparison the
    program performs.  Objects used as maps are finite maps; callbacks,
    promises and timers are explicit queues, and one step of the model is one
    turn of the browser's event loop.  The PlayCanvas engine and the physics
    backend are outside the repository: their vectors are modelled by the
    arithmetic they document, the raycast and the asset loader by the
    answers they may give. *)

From Stdlib Require Import PrimFloat.
From Stdlib Require Import ZArith SpecFloat FloatOps FloatAxioms.
From stdpp Require Import gmap strings list pretty.

Set Warnings "-inexact-float".
Set Default Proof Using "Type".

(** ** Numbers and vectors *)

Module Num.

(** JavaScript's [a >= b] and [a > b] on numbers. *)
Definition geb (a b : float) : bool := PrimFloat.leb b a.
Definition gtb (a b : float) : bool := PrimFloat.ltb b a.

(** [Math.min(a, b)]: NaN when either argument is NaN. *)
Definition min (a b : float) : float :=
  if PrimFloat.is_nan a then a
  else if PrimFloat.is_nan b then b
  else if PrimFloat.ltb b a then b
  else if PrimFloat.ltb a b then a
  else if PrimFloat.eqb a 0 && PrimFloat.ltb (PrimFloat.div 1 b) 0 then b
  else a.

End Num.

(** [pc.Vec3] of the PlayCanvas engine: three numbers and the arithmetic the
    sources call on them. *)
Record Vec3 := mkVec3 { vx : float; vy : float; vz : float }.

Module V.

Definition add (a b : Vec3) : Vec3 :=
  mkVec3 (vx a + vx b) (vy a + vy b) (vz a + vz b).

Definition sub (a b : Vec3) : Vec3 :=
  mkVec3 (vx a - vx b) (vy a - vy b) (vz a - vz b).

(** [this.sub2(lhs, rhs)] stores [lhs - rhs]. *)
Definition sub2 (lhs rhs : Vec3) : Vec3 := sub lhs rhs.

Definition mulScalar (a : Vec3) (k : float) : Vec3 :=
  mkVec3 (vx a * k) (vy a * k) (vz a * k).

Definition lengthSq (a : Vec3) : float :=
  vx a * vx a + vy a * vy a + vz a * vz a.

Definition length (a : Vec3) : float := PrimFloat.sqrt (lengthSq a).

(** [a.distance(b)]: the length of [a - b]. *)
Definition distance (a b : Vec3) : float := length (sub a b).

(** [a.normalize()] leaves a vector of zero squared length as it is. *)
Definition normalize (a : Vec3) : Vec3 :=
  if Num.gtb (lengthSq a) 0
  then mulScalar a (1 / PrimFloat.sqrt (lengthSq a))
  else a.

End V.

(** ** wall-system.js *)

Record Point2 := mkPoint2 { px : float; pz : float }.

Record Segment := mkSegment {
  seg_name : string;
  seg_start : Point2;
  seg_end : Point2;
  seg_color : N
}.

Module WallSystem.

(** The denominator and the two parametric positions computed by
    [lineSegmentsIntersect]. *)
Definition denom (x1 y1 x2 y2 x3 y3 x4 y4 : float) : float :=
  (x1 - x2) * (y3 - y4) - (y1 - y2) * (x3 - x4).

Definition param_t (x1 y1 x2 y2 x3 y3 x4 y4 : float) : float :=
  ((x1 - x3) * (y3 - y4) - (y1 - y3) * (x3 - x4))
  / denom x1 y1 x2 y2 x3 y3 x4 y4.

Definition param_u (x1 y1 x2 y2 x3 y3 x4 y4 : float) : float :=
  - ((x1 - x2) * (y1 - y3) - (y1 - y2) * (x1 - x3))
  / denom x1 y1 x2 y2 x3 y3 x4 y4.

Definition lineSegmentsIntersect (x1 y1 x2 y2 x3 y3 x4 y4 : float) : bool :=
  let denom := denom x1 y1 x2 y2 x3 y3 x4 y4 in
  if PrimFloat.ltb (PrimFloat.abs denom) 0.0001 then false
  else
    let t := param_t x1 y1 x2 y2 x3 y3 x4 y4 in
    let u := param_u x1 y1 x2 y2 x3 y3 x4 y4 in
    Num.geb t 0 && PrimFloat.leb t 1 && Num.geb u 0 && PrimFloat.leb u 1.

Definition crosses (oldPos newPos : Vec3) (segment : Segment) : bool :=
  lineSegmentsIntersect
    (vx oldPos) (vz oldPos) (vx newPos) (vz newPos)
    (px (seg_start segment)) (pz (seg_start segment))
    (px (seg_end segment)) (pz (seg_end segment)).

(** [checkWallCollision]: the loop over [WALL_SEGMENTS] returns at the first
    segment the movement crosses. *)
Fixpoint checkWallCollision (walls : list Segment) (oldPos newPos : Vec3) : bool :=
  match walls with
  | [] => false
  | segment :: rest =>
      if crosses oldPos newPos segment then true
      else checkWallCollision rest oldPos newPos
  end.

(** [getWallCollisionInfo]: the same scan, returning the segment. *)
Fixpoint getWallCollisionInfo (walls : list Segment) (oldPos newPos : Vec3)
  : option (string * Point2 * Point2) :=
  match walls with
  | [] => None
  | segment :: rest =>
      if crosses oldPos newPos segment
      then Some (seg_name segment, seg_start segment, seg_end segment)
      else getWallCollisionInfo rest oldPos newPos
  end.

(** [removeWallSegment]: [findIndex] then [splice(index, 1)]. *)
Fixpoint removeWallSegment (walls : list Segment) (name : string)
  : bool * list Segment :=
  match walls with
  | [] => (false, [])
  | s :: rest =>
      if bool_decide (seg_name s = name) then (true, rest)
      else let '(found, rest') := removeWallSegment rest name in
           (found, s :: rest')
  end.

Definition getWallSegment (walls : list Segment) (name : string) : option Segment :=
  List.find (fun s => bool_decide (seg_name s = name)) walls.

Definition clearAllWalls (walls : list Segment) : list Segment := [].

(** The segments [WALL_SEGMENTS] holds when the module is loaded. *)
Definition WALL_SEGMENTS : list Segment :=
  [mkSegment "wall_0" (mkPoint2 (-0.5768624544143677) 154.2949676513672)
             (mkPoint2 (-2.19569993019104) 165.52789306640625) 65280;
   mkSegment "wall_1" (mkPoint2 (-1.189516305923462) 165.15744018554688)
             (mkPoint2 (-12.322547912597656) 163.4005889892578) 65280;
   mkSegment "wall_2" (mkPoint2 (-12.319146156311035) 163.25062561035156)
             (mkPoint2 (-11.748414993286133) 154.12403869628906) 65280].

(** [addWallSegment(start, end, name, color = 0x00ff00)]: the name, when
    missing or empty, is [wall_<n>] with [n] the number of segments so far;
    the colour, when missing, is green. *)
Definition addWallSegment (walls : list Segment) (start end_ : Point2)
    (name : option string) (color : option N) : list Segment :=
  walls ++ [mkSegment
              match name with
              | Some n => if bool_decide (n = "") then "wall_" +:+ pretty (length walls) else n
              | None => "wall_" +:+ pretty (length walls)
              end
              (mkPoint2 (px start) (pz start)) (mkPoint2 (px end_) (pz end_))
              (default 65280%N color)].

End WallSystem.

(** ** collision-system.js *)

(** Scene-graph entities are referred to by handle. *)
Definition Ent := nat.

(** What [rigidbody.raycastFirst] gives back: a result carrying the entity
    that was hit and the hit point, [null], or an exception. *)
Record RaycastResult := mkRaycastResult {
  rr_entity : option Ent;
  rr_point : Vec3
}.

Inductive RaycastOutcome :=
| RayReturns (result : option RaycastResult)
| RayThrows (err : string).

(** [app.systems.rigidbody], when the physics system exists. *)
Record RigidBodySystem := mkRigidBodySystem {
  dynamicsWorld : bool;
  raycastFirst : Vec3 -> Vec3 -> RaycastOutcome
}.

(** [app.systems]: the rigidbody system may be absent. *)
Record Physics := mkPhysics { rigidbody : option RigidBodySystem }.

Inductive CollisionLog :=
| WarnNotReady
| WarnNoDynamicsWorld
| WarnRaycastTestFailed (err : string)
| ErrRaycast (err : string).

Record CollisionSystem := mkCollisionSystem {
  collisionMesh : option Ent;
  collisionEnabled : bool;
  debugVisible : bool;
  physicsReady : bool;
  collisionRadius : float;
  _direction : Vec3
}.

Module CollisionSystem.

Definition constructor : CollisionSystem :=
  {| collisionMesh := None;
     collisionEnabled := false;
     debugVisible := false;
     physicsReady := false;
     collisionRadius := 0.3;
     _direction := mkVec3 0 0 0 |}.

Definition set_direction (d : Vec3) (cs : CollisionSystem) : CollisionSystem :=
  {| collisionMesh := collisionMesh cs;
     collisionEnabled := collisionEnabled cs;
     debugVisible := debugVisible cs;
     physicsReady := physicsReady cs;
     collisionRadius := collisionRadius cs;
     _direction := d |}.

Definition set_ready (ready enabled : bool) (cs : CollisionSystem) : CollisionSystem :=
  {| collisionMesh := collisionMesh cs;
     collisionEnabled := enabled;
     debugVisible := debugVisible cs;
     physicsReady := ready;
     collisionRadius := collisionRadius cs;
     _direction := _direction cs |}.

Definition set_mesh (model : Ent) (cs : CollisionSystem) : CollisionSystem :=
  {| collisionMesh := Some model;
     collisionEnabled := collisionEnabled cs;
     debugVisible := debugVisible cs;
     physicsReady := physicsReady cs;
     collisionRadius := collisionRadius cs;
     _direction := _direction cs |}.

(** [toggleCollision] *)
Definition toggleCollision (cs : CollisionSystem) : CollisionSystem :=
  {| collisionMesh := collisionMesh cs;
     collisionEnabled := negb (collisionEnabled cs);
     debugVisible := debugVisible cs;
     physicsReady := physicsReady cs;
     collisionRadius := collisionRadius cs;
     _direction := _direction cs |}.

(** [app.systems.rigidbody.raycastFirst(a, b)]; reading [raycastFirst] off a
    missing rigidbody system is a [TypeError]. *)
Definition callRaycastFirst (env : Physics) (a b : Vec3) : RaycastOutcome :=
  match rigidbody env with
  | None => RayThrows "TypeError"
  | Some rb => raycastFirst rb a b
  end.

(** The outcome of one call of [checkCollision]: the verdict, the system
    afterwards (its scratch vector is overwritten) and what was logged. *)
Record Checked := mkChecked {
  blocked : bool;
  after : CollisionSystem;
  logged : list CollisionLog
}.

Definition checkCollision (env : Physics) (cs : CollisionSystem)
    (currentPos newPos : Vec3) : Checked :=
  if negb (collisionEnabled cs) || negb (bool_decide (is_Some (collisionMesh cs)))
     || negb (physicsReady cs)
  then mkChecked false cs []
  else
    let d := V.sub2 newPos currentPos in
    let distance := V.length d in
    if PrimFloat.eqb distance 0 then mkChecked false (set_direction d cs) []
    else
      let cs' := set_direction (V.normalize d) cs in
      match callRaycastFirst env currentPos newPos with
      | RayThrows err => mkChecked false cs' [ErrRaycast err]
      | RayReturns None => mkChecked false cs' []
      | RayReturns (Some result) =>
          match rr_entity result with
          | None => mkChecked false cs' []
          | Some _ =>
              let hitDistance := V.distance (rr_point result) currentPos in
              if PrimFloat.ltb hitDistance (collisionRadius cs)
              then mkChecked true cs' []
              else mkChecked false cs' []
          end
      end.

(** *** The readiness handshake *)

(** One call of [_testPhysicsReady]: the system afterwards, the delays of
    the timeouts it set, its log, and the number of probe raycasts issued. *)
Record Probed := mkProbed {
  p_system : CollisionSystem;
  p_timeouts : list nat;
  p_logged : list CollisionLog;
  p_raycasts : nat
}.

Definition _testPhysicsReady (env : Physics) (cs : CollisionSystem) : Probed :=
  if physicsReady cs then mkProbed cs [] [] 0
  else
    match rigidbody env, collisionMesh cs with
    | Some rb, Some _ =>
        if negb (dynamicsWorld rb)
        then mkProbed cs [100] [WarnNoDynamicsWorld] 0
        else
          match raycastFirst rb (mkVec3 0 1 0) (mkVec3 0 0 0) with
          | RayReturns _ => mkProbed (set_ready true true cs) [] [] 1
          | RayThrows err =>
              mkProbed (set_ready false (collisionEnabled cs) cs) []
                       [WarnRaycastTestFailed err] 1
          end
    | _, _ => mkProbed cs [] [WarnNotReady] 0
    end.

(** [_setupCollisionMesh]: the instantiated model becomes the collision
    mesh and three readiness tests are scheduled. *)
Definition _setupCollisionMesh (model : Ent) (cs : CollisionSystem)
  : CollisionSystem * list nat :=
  (set_mesh model cs, [100; 500; 1000]).

(** The timer queue of the handshake.  A pending timeout is kept with the
    time at which it falls due; [calls] and [raycasts] count the calls of
    [_testPhysicsReady] and the probe raycasts made so far. *)
Record Handshake := mkHandshake {
  h_system : CollisionSystem;
  h_now : nat;
  h_timers : list nat;
  h_calls : nat;
  h_raycasts : nat;
  h_log : list CollisionLog
}.

Definition schedule (now : nat) (delays : list nat) : list nat :=
  (fun d => now + d) <$> delays.

Definition setup (model : Ent) (now : nat) (cs : CollisionSystem) : Handshake :=
  let '(cs', delays) := _setupCollisionMesh model cs in
  mkHandshake cs' now (schedule now delays) 0 0 [].

(** Firing the [i]-th pending timeout while the physics subsystem is in
    state [env]; [None] when there is no such timeout. *)
Definition fire (i : nat) (env : Physics) (h : Handshake) : option Handshake :=
  match h_timers h !! i with
  | None => None
  | Some due =>
      let now := Nat.max (h_now h) due in
      let r := _testPhysicsReady env (h_system h) in
      Some (mkHandshake (p_system r) now
              (delete i (h_timers h) ++ schedule now (p_timeouts r))
              (S (h_calls h))
              (h_raycasts h + p_raycasts r)
              (h_log h ++ p_logged r))
  end.

Fixpoint run (evs : list (nat * Physics)) (h : Handshake) : option Handshake :=
  match evs with
  | [] => Some h
  | (i, env) :: rest =>
      match fire i env h with
      | None => None
      | Some h' => run rest h'
      end
  end.

End CollisionSystem.

(** ** The entry script: the movement handler of [app.on('update')] *)

(** portal-system.js is an external collaborator of the handler: it is used
    through three methods only, which are taken here as an interface over an
    arbitrary portal state [P]. *)
Record PortalOps (P : Type) := mkPortalOps {
  checkMovementBlocked : P -> Vec3 -> Vec3 -> bool * P;
  portal_update : float -> P -> P;
  portal_checkCollision : Vec3 -> P -> P
}.
Arguments mkPortalOps {P}.
Arguments checkMovementBlocked {P}.
Arguments portal_update {P}.
Arguments portal_checkCollision {P}.

Record Movement := mkMovement {
  m_forward : float;
  m_right : float;
  m_up : bool;
  m_down : bool
}.

Record Smooth := mkSmooth { sm_forward : float; sm_right : float }.

Record Camera := mkCamera {
  cam_position : Vec3;
  cam_forward : Vec3;
  cam_right : Vec3
}.

(** The variables of the entry script the handler reads and writes. *)
Record Nav (P : Type) := mkNav {
  keys : gmap string bool;
  movement : Movement;
  smoothMovement : Smooth;
  camera : Camera;
  flyMode : bool;
  wallCollisionEnabled : bool;
  moveSpeed : float;
  maxMoveSpeed : float;
  maxY : float;
  collisionSystem : CollisionSystem;
  WALL_SEGMENTS : list Segment;
  portalSystem : option P
}.
Arguments mkNav {P}.
Arguments keys {P}.
Arguments movement {P}.
Arguments smoothMovement {P}.
Arguments camera {P}.
Arguments flyMode {P}.
Arguments wallCollisionEnabled {P}.
Arguments moveSpeed {P}.
Arguments maxMoveSpeed {P}.
Arguments maxY {P}.
Arguments collisionSystem {P}.
Arguments WALL_SEGMENTS {P}.
Arguments portalSystem {P}.

(** The calls the handler makes on its collaborators, in program order. *)
Inductive Call :=
| MeshCheck (currentPos newPos : Vec3)
| WallCheck (currentPos newPos : Vec3)
| PortalBlockedCheck (currentPos newPos : Vec3)
| SetPosition (p : Vec3)
| PortalUpdate (dt : float)
| PortalCheckCollision (p : Vec3).

Inductive Arbiter := Mesh | Wall | Portal.

Module Main.

Section Handler.
Context {P : Type} (ops : PortalOps P).

(** [keys[code]]: a key never pressed reads [undefined], which is falsy. *)
Definition key (n : Nav P) (code : string) : bool :=
  default false (keys n !! code).

Definition moveSpeedDt (dt : float) (n : Nav P) : float :=
  (if key n "ShiftLeft" then maxMoveSpeed n else moveSpeed n) * dt * 60.

(** [v.y = 0; v.normalize()] *)
Definition flatten (v : Vec3) : Vec3 := V.normalize (mkVec3 (vx v) 0 (vz v)).

Definition forward (n : Nav P) : Vec3 :=
  if flyMode n then cam_forward (camera n) else flatten (cam_forward (camera n)).

Definition right (n : Nav P) : Vec3 :=
  if flyMode n then cam_right (camera n) else flatten (cam_right (camera n)).

Definition set_y (v : Vec3) (y : float) : Vec3 := mkVec3 (vx v) y (vz v).

(** The candidate position computed from the keyboard, the joystick and the
    vertical controls. *)
Definition candidate (dt : float) (n : Nav P) : Vec3 :=
  let msd := moveSpeedDt dt n in
  let fwd := forward n in
  let rgt := right n in
  let p := cam_position (camera n) in
  let p := if key n "KeyW" then V.add p (V.mulScalar fwd msd) else p in
  let p := if key n "KeyS" then V.sub p (V.mulScalar fwd msd) else p in
  let p := if key n "KeyA" then V.sub p (V.mulScalar rgt msd) else p in
  let p := if key n "KeyD" then V.add p (V.mulScalar rgt msd) else p in
  let p :=
    if negb (PrimFloat.eqb (m_forward (movement n)) 0)
       || negb (PrimFloat.eqb (m_right (movement n)) 0)
    then V.add (V.add p (V.mulScalar fwd (msd * m_forward (movement n))))
               (V.mulScalar rgt (msd * m_right (movement n)))
    else p in
  if flyMode n then
    let p := if key n "KeyQ" then set_y p (Num.min (vy p + msd) (maxY n)) else p in
    if key n "KeyE" then set_y p (vy p - msd) else p
  else
    let p := if key n "KeyQ" || m_up (movement n)
             then set_y p (Num.min (vy p + msd * 0.5) (maxY n)) else p in
    if key n "KeyE" || m_down (movement n) then set_y p (vy p - msd * 0.5) else p.

Definition with_collision (cs : CollisionSystem) (n : Nav P) : Nav P :=
  mkNav (keys n) (movement n) (smoothMovement n) (camera n) (flyMode n)
        (wallCollisionEnabled n) (moveSpeed n) (maxMoveSpeed n) (maxY n)
        cs (WALL_SEGMENTS n) (portalSystem n).

Definition with_portal (ps : option P) (n : Nav P) : Nav P :=
  mkNav (keys n) (movement n) (smoothMovement n) (camera n) (flyMode n)
        (wallCollisionEnabled n) (moveSpeed n) (maxMoveSpeed n) (maxY n)
        (collisionSystem n) (WALL_SEGMENTS n) ps.

(** [smoothMovement.forward = 0; smoothMovement.right = 0] *)
Definition reset_smooth (n : Nav P) : Nav P :=
  mkNav (keys n) (movement n) (mkSmooth 0 0) (camera n) (flyMode n)
        (wallCollisionEnabled n) (moveSpeed n) (maxMoveSpeed n) (maxY n)
        (collisionSystem n) (WALL_SEGMENTS n) (portalSystem n).

(** [camera.setPosition(p)]: the position handed to the engine.  The
    engine keeps the transform of an entity in single precision, so that
    what [camera.getPosition()] reports afterwards is [p] rounded; the
    rounding is not modelled, and [cam_position] after the call stands for
    the position reported. *)
Definition setPosition (p : Vec3) (n : Nav P) : Nav P :=
  mkNav (keys n) (movement n) (smoothMovement n)
        (mkCamera p (cam_forward (camera n)) (cam_right (camera n)))
        (flyMode n)
        (wallCollisionEnabled n) (moveSpeed n) (maxMoveSpeed n) (maxY n)
        (collisionSystem n) (WALL_SEGMENTS n) (portalSystem n).

(** What one frame leaves behind: the variables afterwards, the calls made
    on the collaborators, and the console output of the mesh arbiter. *)
Record Frame := mkFrame {
  f_nav : Nav P;
  f_calls : list Call;
  f_log : list CollisionLog
}.

(** The tail of the handler, reached only when no arbiter returned early:
    commit the position, then update the portal system. *)
Definition commit (dt : float) (newPos : Vec3) (n : Nav P)
    (calls : list Call) (log : list CollisionLog) : Frame :=
  let n := setPosition newPos n in
  match portalSystem n with
  | None => mkFrame n (calls ++ [SetPosition newPos]) log
  | Some ps =>
      let ps := portal_update ops dt ps in
      let ps := portal_checkCollision ops (cam_position (camera n)) ps in
      mkFrame (with_portal (Some ps) n)
              (calls ++ [SetPosition newPos; PortalUpdate dt;
                         PortalCheckCollision (cam_position (camera n))])
              log
  end.

Definition update (env : Physics) (dt : float) (n : Nav P) : Frame :=
  let currentPos := cam_position (camera n) in
  let newPos := candidate dt n in
  if flyMode n then commit dt newPos n [] []
  else
    (* 1. Physics Collision (Mesh) *)
    let c := CollisionSystem.checkCollision env (collisionSystem n) currentPos newPos in
    let n := with_collision (CollisionSystem.after c) n in
    let calls := [MeshCheck currentPos newPos] in
    let log := CollisionSystem.logged c in
    if CollisionSystem.blocked c then mkFrame (reset_smooth n) calls log
    else
      (* 2. Virtual Wall Boundary Collision *)
      let wall :=
        if wallCollisionEnabled n
        then Some (WallSystem.checkWallCollision (WALL_SEGMENTS n) currentPos newPos)
        else None in
      let calls := calls ++ match wall with
                            | Some _ => [WallCheck currentPos newPos]
                            | None => []
                            end in
      if default false wall then mkFrame (reset_smooth n) calls log
      else
        (* 3. Portal Collision *)
        match portalSystem n with
        | None => commit dt newPos n calls log
        | Some ps =>
            let '(b, ps) := checkMovementBlocked ops ps currentPos newPos in
            let n := with_portal (Some ps) n in
            let calls := calls ++ [PortalBlockedCheck currentPos newPos] in
            if b then mkFrame (reset_smooth n) calls log
            else commit dt newPos n calls log
        end.

(** The arbiters a frame consulted, in the order of the calls. *)
Definition arbiter_of (c : Call) : option Arbiter :=
  match c with
  | MeshCheck _ _ => Some Mesh
  | WallCheck _ _ => Some Wall
  | PortalBlockedCheck _ _ => Some Portal
  | _ => None
  end.

Definition consulted (f : Frame) : list Arbiter := omap arbiter_of (f_calls f).

(** The position [camera.setPosition] was called with, if it was called. *)
Definition committed (f : Frame) : option Vec3 :=
  last (omap (fun c => match c with SetPosition p => Some p | _ => None end)
             (f_calls f)).

Definition is_portal_update (c : Call) : bool :=
  match c with
  | PortalUpdate _ | PortalCheckCollision _ => true
  | _ => false
  end.

Definition portal_updates (f : Frame) : list Call :=
  List.filter is_portal_update (f_calls f).

End Handler.

(** *** [loadWalls] *)

(** A segment of wall_config.json; reading [x] off a missing [start] or
    [end] throws. *)
Record JsonSegment := mkJsonSegment {
  js_start : option Point2;
  js_end : option Point2;
  js_name : option string;
  js_color : option N
}.

(** The parsed body: [segments] is an array when it is there; a body that
    is a number, a string or a boolean has none. *)
Record WallConfig := mkWallConfig { segments : option (list JsonSegment) }.

(** What [fetch('./wall_config.json')] comes to: a rejection, or a response
    with its [ok] flag and its body, [None] when the body does not parse or
    is [null]. *)
Inductive Fetched :=
| FetchRejects (err : string)
| Responds (ok : bool) (json : option WallConfig).

Inductive WallLog :=
| LogLoadedWalls (n : nat)
| UpdateWallList
| WarnWallConfig.

(** [data.segments.forEach(segment => addWallSegment(...))]: the walls added
    so far, and whether a segment threw. *)
Fixpoint add_segments (walls : list Segment) (segs : list JsonSegment)
  : list Segment * bool :=
  match segs with
  | [] => (walls, false)
  | segment :: rest =>
      match js_start segment, js_end segment with
      | Some start, Some end_ =>
          add_segments
            (WallSystem.addWallSegment walls start end_ (js_name segment) (js_color segment))
            rest
      | _, _ => (walls, true)
      end
  end.

(** [loadWalls()]: the walls afterwards and what was logged;
    [UpdateWallList] stands for the call of the wall editor, which is
    outside the sources. *)
Definition loadWalls (response : Fetched) (walls : list Segment)
  : list Segment * list WallLog :=
  match response with
  | FetchRejects _ => (walls, [WarnWallConfig])
  | Responds false _ => (walls, [WarnWallConfig])
  | Responds true None => (walls, [WarnWallConfig])
  | Responds true (Some data) =>
      match segments data with
      | None => (walls, [])
      | Some segs =>
          let '(walls, threw) := add_segments (WallSystem.clearAllWalls walls) segs in
          if threw then (walls, [WarnWallConfig])
          else (walls, [LogLoadedWalls (length segs); UpdateWallList])
      end
  end.

End Main.

(** ** time-toggle-system.js *)

Module TimeToggle.

(** Handles of loader assets and of promises. *)
Definition AssetId := nat.
Definition PromiseId := nat.

(** [config.timeToggle]: the declared time states, the default one, and the
    alignment matrices (a [null] entry is an absent key). *)
Record TimeConfig := mkTime { t_id : string; t_label : string; t_path : string }.

Record ToggleConfig := mkToggleConfig {
  defaultTime : string;
  times : list TimeConfig;
  transforms : gmap string (list float)
}.

(** [loadingStates[timeId]]; a state never loaded has no entry. *)
Inductive LoadState := Loading | Loaded | LoadError.

Global Instance LoadState_eq_dec : EqDecision LoadState.
Proof. solve_decision. Defined.

(** How a splat entity is placed when its asset is ready: the fixed
    Z-up to Y-up rotation alone, or that rotation times the alignment
    matrix of the time state.  The decomposition of the product into
    position, rotation and scale is the engine's, and is not modelled, nor
    are the LOD distances and the styling of the button. *)
Inductive Placement :=
| ZUpToYUp
| ZUpToYUpTimes (alignment : list float).

Record Entity := mkEntity {
  e_name : string;
  e_enabled : bool;
  e_placement : Placement
}.

Inductive AssetStatus := AssetRequested | AssetLoaded | AssetFailed.

(** A [pc.Asset] created by [loadTimeState], with the promise its [ready]
    and [error] handlers settle. *)
Record Asset := mkAsset {
  a_timeId : string;
  a_url : string;
  a_promise : PromiseId;
  a_status : AssetStatus
}.

(** Who holds the [resolve] and [reject] functions of a pending promise:
    the handlers of an asset, the poll of [loadTimeState], or the second
    animation-frame callback of [switchToTime]. *)
Inductive Resolver :=
| ByAsset (a : AssetId)
| ByInterval
| ByFrames.

Inductive PromiseState :=
| PPending (resolver : Resolver)
| PResolved (v : option Ent)
| PRejected (cause : string).

(** The suspended async functions: [switchToTime] at its awaited load and at
    its awaited pair of frames, [initialize] at its awaited load, and a
    caller from outside awaiting [loadTimeState]. *)
Inductive Cont :=
| KSwitchLoad (timeId : string)
| KSwitchFrames (timeId : string)
| KInitialize
| KCaller (tag : nat).

(** The callbacks handed to [requestAnimationFrame] by [switchToTime]. *)
Inductive Raf :=
| RafOuter (fromEntity : Ent) (p : PromiseId)
| RafInner (fromEntity : Ent) (p : PromiseId).

Inductive LogMsg :=
| ErrUnknownTimeState (timeId : string)
| LogAlreadyLoaded (timeId : string)
| LogAlreadyLoading (timeId : string)
| LogLoading (timeId : string)
| LogAppliedTransform (timeId : string)
| LogLoaded (timeId : string)
| ErrLoading (timeId cause : string)
| LogUICreated
| LogSingleSceneMode
| LogSwitchLocked
| LogSwitching (from to : string)
| ErrMissingEntities
| LogSwitched (timeId : string).

(** What a step lets the outside observe: console output, the change
    notification, and the settlement of the promises of async calls. *)
Inductive Output :=
| Console (m : LogMsg)
| TimeChange (timeId previousTime : string)
| Returned (k : Cont) (v : option Ent)
| Rejected (k : Cont) (cause : string)
| Uncaught (cause : string).

(** The content of the toggle button: nothing yet, the active label and the
    other label, or a loading notice. *)
Inductive Label :=
| LabelBlank
| LabelTimes (active other : string)
| LabelLoading.

(** [splatEntities], [splatAssets] and [loadingStates] are object literals
    used as dictionaries, and are read below as finite maps.  A finite map
    is such an object for every key but the names the object inherits from
    [Object.prototype]: a lookup of one of those finds the inherited member
    where the map finds nothing, and an assignment to [__proto__] adds no
    entry (a string is ignored, an object becomes the prototype).  A key is
    plain when it is none of these names; through a run that uses plain
    keys only, the maps and the objects are the same. *)
Definition prototype_members : list string :=
  ["__defineGetter__"; "__defineSetter__"; "__lookupGetter__"; "__lookupSetter__";
   "__proto__"; "constructor"; "hasOwnProperty"; "isPrototypeOf";
   "propertyIsEnumerable"; "toLocaleString"; "toString"; "valueOf"].

Definition plain (key : string) : bool := bool_decide (key ∉ prototype_members).

Record Sys := mkSys {
  activeTimeId : string;
  splatEntities : gmap string Ent;
  splatAssets : gmap string AssetId;
  loadingStates : gmap string LoadState;
  switchLock : bool;
  toggleBtn : option Label;
  onTimeChange : bool;
  entities : gmap Ent Entity;
  assets : gmap AssetId Asset;
  loadRequests : list (AssetId * string);
  promises : gmap PromiseId PromiseState;
  waiters : list (PromiseId * Cont);
  intervals : list (PromiseId * string);
  rafQueue : list Raf;
  timeouts : list nat;
  next : nat
}.

Definition set_activeTimeId (v : string) (s : Sys) : Sys :=
  mkSys v (splatEntities s) (splatAssets s) (loadingStates s) (switchLock s)
    (toggleBtn s) (onTimeChange s) (entities s) (assets s) (loadRequests s)
    (promises s) (waiters s) (intervals s) (rafQueue s) (timeouts s) (next s).

Definition set_splatEntities (v : gmap string Ent) (s : Sys) : Sys :=
  mkSys (activeTimeId s) v (splatAssets s) (loadingStates s) (switchLock s)
    (toggleBtn s) (onTimeChange s) (entities s) (assets s) (loadRequests s)
    (promises s) (waiters s) (intervals s) (rafQueue s) (timeouts s) (next s).

Definition set_splatAssets (v : gmap string AssetId) (s : Sys) : Sys :=
  mkSys (activeTimeId s) (splatEntities s) v (loadingStates s) (switchLock s)
    (toggleBtn s) (onTimeChange s) (entities s) (assets s) (loadRequests s)
    (promises s) (waiters s) (intervals s) (rafQueue s) (timeouts s) (next s).

Definition set_loadingStates (v : gmap string LoadState) (s : Sys) : Sys :=
  mkSys (activeTimeId s) (splatEntities s) (splatAssets s) v (switchLock s)
    (toggleBtn s) (onTimeChange s) (entities s) (assets s) (loadRequests s)
    (promises s) (waiters s) (intervals s) (rafQueue s) (timeouts s) (next s).

Definition set_switchLock (v : bool) (s : Sys) : Sys :=
  mkSys (activeTimeId s) (splatEntities s) (splatAssets s) (loadingStates s) v
    (toggleBtn s) (onTimeChange s) (entities s) (assets s) (loadRequests s)
    (promises s) (waiters s) (intervals s) (rafQueue s) (timeouts s) (next s).

Definition set_toggleBtn (v : option Label) (s : Sys) : Sys :=
  mkSys (activeTimeId s) (splatEntities s) (splatAssets s) (loadingStates s)
    (switchLock s) v (onTimeChange s) (entities s) (assets s) (loadRequests s)
    (promises s) (waiters s) (intervals s) (rafQueue s) (timeouts s) (next s).

Definition set_onTimeChange (v : bool) (s : Sys) : Sys :=
  mkSys (activeTimeId s) (splatEntities s) (splatAssets s) (loadingStates s)
    (switchLock s) (toggleBtn s) v (entities s) (assets s) (loadRequests s)
    (promises s) (waiters s) (intervals s) (rafQueue s) (timeouts s) (next s).

Definition set_entities (v : gmap Ent Entity) (s : Sys) : Sys :=
  mkSys (activeTimeId s) (splatEntities s) (splatAssets s) (loadingStates s)
    (switchLock s) (toggleBtn s) (onTimeChange s) v (assets s)
    (loadRequests s) (promises s) (waiters s) (intervals s) (rafQueue s)
    (timeouts s) (next s).

Definition set_assets (v : gmap AssetId Asset) (s : Sys) : Sys :=
  mkSys (activeTimeId s) (splatEntities s) (splatAssets s) (loadingStates s)
    (switchLock s) (toggleBtn s) (onTimeChange s) (entities s) v
    (loadRequests s) (promises s) (waiters s) (intervals s) (rafQueue s)
    (timeouts s) (next s).

Definition set_loadRequests (v : list (AssetId * string)) (s : Sys) : Sys :=
  mkSys (activeTimeId s) (splatEntities s) (splatAssets s) (loadingStates s)
    (switchLock s) (toggleBtn s) (onTimeChange s) (entities s) (assets s) v
    (promises s) (waiters s) (intervals s) (rafQueue s) (timeouts s) (next s).

Definition set_promises (v : gmap PromiseId PromiseState) (s : Sys) : Sys :=
  mkSys (activeTimeId s) (splatEntities s) (splatAssets s) (loadingStates s)
    (switchLock s) (toggleBtn s) (onTimeChange s) (entities s) (assets s)
    (loadRequests s) v (waiters s) (intervals s) (rafQueue s) (timeouts s)
    (next s).

Definition set_waiters (v : list (PromiseId * Cont)) (s : Sys) : Sys :=
  mkSys (activeTimeId s) (splatEntities s) (splatAssets s) (loadingStates s)
    (switchLock s) (toggleBtn s) (onTimeChange s) (entities s) (assets s)
    (loadRequests s) (promises s) v (intervals s) (rafQueue s) (timeouts s)
    (next s).

Definition set_intervals (v : list (PromiseId * string)) (s : Sys) : Sys :=
  mkSys (activeTimeId s) (splatEntities s) (splatAssets s) (loadingStates s)
    (switchLock s) (toggleBtn s) (onTimeChange s) (entities s) (assets s)
    (loadRequests s) (promises s) (waiters s) v (rafQueue s) (timeouts s)
    (next s).

Definition set_rafQueue (v : list Raf) (s : Sys) : Sys :=
  mkSys (activeTimeId s) (splatEntities s) (splatAssets s) (loadingStates s)
    (switchLock s) (toggleBtn s) (onTimeChange s) (entities s) (assets s)
    (loadRequests s) (promises s) (waiters s) (intervals s) v (timeouts s)
    (next s).

Definition set_timeouts (v : list nat) (s : Sys) : Sys :=
  mkSys (activeTimeId s) (splatEntities s) (splatAssets s) (loadingStates s)
    (switchLock s) (toggleBtn s) (onTimeChange s) (entities s) (assets s)
    (loadRequests s) (promises s) (waiters s) (intervals s) (rafQueue s) v
    (next s).

Definition set_next (v : nat) (s : Sys) : Sys :=
  mkSys (activeTimeId s) (splatEntities s) (splatAssets s) (loadingStates s)
    (switchLock s) (toggleBtn s) (onTimeChange s) (entities s) (assets s)
    (loadRequests s) (promises s) (waiters s) (intervals s) (rafQueue s)
    (timeouts s) v.

(** The events that drive the system: the calls made on it from outside,
    the signals of the asset loader, and the turns of the browser's event
    loop (interval ticks, microtasks, animation frames, timeouts). *)
Inductive Event :=
| Initialize
| SwitchToTime (timeId : string)
| Toggle
| HandleKeyboard (keyCode : string)
| LoadTimeState (timeId : string) (tag : nat)
| SetOnTimeChange (registered : bool)
| AssetReady (a : AssetId)
| AssetError (a : AssetId) (cause : string)
| IntervalTick (p : PromiseId)
| Microtask (p : PromiseId)
| AnimationFrame
| Timeout (i : nat).

(** [switchCooldown], in milliseconds. *)
Definition switchCooldown : nat := 300.

Definition is_switch (k : Cont) : bool :=
  match k with
  | KSwitchLoad _ | KSwitchFrames _ => true
  | _ => false
  end.

(** The first continuation waiting on promise [p], and the other waiters. *)
Fixpoint take_waiter (p : PromiseId) (ws : list (PromiseId * Cont))
  : option (Cont * list (PromiseId * Cont)) :=
  match ws with
  | [] => None
  | (q, k) :: rest =>
      if bool_decide (q = p) then Some (k, rest)
      else match take_waiter p rest with
           | Some (k', rest') => Some (k', (q, k) :: rest')
           | None => None
           end
  end.

(** [times.findIndex(pred)], [-1] when nothing matches. *)
Fixpoint findIndex {A} (pred : A -> bool) (l : list A) : Z :=
  match l with
  | [] => (-1)%Z
  | x :: rest =>
      if pred x then 0%Z
      else let i := findIndex pred rest in
           if (i <? 0)%Z then (-1)%Z else (i + 1)%Z
  end.

(** [a || b] on strings: the empty string is falsy. *)
Definition or_else (a : option string) (b : string) : string :=
  match a with
  | Some x => if bool_decide (x = "") then b else x
  | None => b
  end.

Definition set_enabled (b : bool) (e : Entity) : Entity :=
  mkEntity (e_name e) b (e_placement e).

Definition set_status (st : AssetStatus) (a : Asset) : Asset :=
  mkAsset (a_timeId a) (a_url a) (a_promise a) st.

(** [getActiveSplatEntity()] and [getActiveTimeId()] *)
Definition getActiveSplatEntity (s : Sys) : option Ent :=
  splatEntities s !! activeTimeId s.

Definition getActiveTimeId (s : Sys) : string := activeTimeId s.

Section Model.
Context (cfg : ToggleConfig).

Definition has_id (timeId : string) (t : TimeConfig) : bool :=
  bool_decide (t_id t = timeId).

(** The constructor reads [times[0].id], which throws on an empty list. *)
Definition constructor : option Sys :=
  match times cfg with
  | [] => None
  | _ :: _ =>
      Some (mkSys (defaultTime cfg) ∅ ∅ ∅ false None false ∅ ∅ [] ∅ [] [] [] [] 0)
  end.

(** [entity.enabled = b] *)
Definition enable (e : Ent) (b : bool) (s : Sys) : Sys :=
  set_entities (alter (set_enabled b) e (entities s)) s.

Definition new_promise (st : PromiseState) (s : Sys) : PromiseId * Sys :=
  (next s, set_next (S (next s)) (set_promises (<[next s := st]> (promises s)) s)).

(** [resolve(v)] and [reject(cause)]: only a pending promise is settled. *)
Definition settle (p : PromiseId) (st : PromiseState) (s : Sys) : Sys :=
  set_promises
    match promises s !! p with
    | Some (PPending _) => <[p := st]> (promises s)
    | _ => promises s
    end s.

(** [await p] inside the async function whose remainder is [k]. *)
Definition await (p : PromiseId) (k : Cont) (s : Sys) : Sys :=
  set_waiters (waiters s ++ [(p, k)]) s.

Definition updateButtonLabel (s : Sys) : Sys :=
  set_toggleBtn
    match toggleBtn s with
    | None => None
    | Some _ =>
        let activeTime := List.find (has_id (activeTimeId s)) (times cfg) in
        let otherTime :=
          List.find (fun t => negb (has_id (activeTimeId s) t)) (times cfg) in
        Some (LabelTimes (or_else (t_label <$> activeTime) (activeTimeId s))
                         (or_else (t_label <$> otherTime) ""))
    end s.

(** [loadTimeState(timeId)], up to the promise it returns; [timeId] is a
    key of the registries, read as maps (exact when it is [plain]). *)
Definition loadTimeState (timeId : string) (s : Sys)
  : PromiseId * Sys * list Output :=
  match List.find (has_id timeId) (times cfg) with
  | None =>
      let '(p, s) := new_promise (PResolved None) s in
      (p, s, [Console (ErrUnknownTimeState timeId)])
  | Some timeConfig =>
      match loadingStates s !! timeId with
      | Some Loaded =>
          let '(p, s) := new_promise (PResolved (splatEntities s !! timeId)) s in
          (p, s, [Console (LogAlreadyLoaded timeId)])
      | Some Loading =>
          let '(p, s) := new_promise (PPending ByInterval) s in
          (p, set_intervals (intervals s ++ [(p, timeId)]) s,
           [Console (LogAlreadyLoading timeId)])
      | _ =>
          let s := set_loadingStates (<[timeId := Loading]> (loadingStates s)) s in
          let '(p, s) := new_promise (PPending (ByAsset (S (next s)))) s in
          let a := next s in
          let s := set_next (S a) s in
          let asset :=
            mkAsset timeId (t_path timeConfig +:+ "lod-meta.json") p AssetRequested in
          let s := set_assets (<[a := asset]> (assets s)) s in
          let s := set_splatAssets (<[timeId := a]> (splatAssets s)) s in
          let s := set_loadRequests (loadRequests s ++ [(a, timeId)]) s in
          (p, s, [Console (LogLoading timeId)])
      end
  end.

(** The [ready] handler of asset [a]; the entity and the state are entered
    under the identifier of the time state, a key of the registries read as
    maps (exact when it is [plain]). *)
Definition assetReady (a : AssetId) (s : Sys) : option (Sys * list Output) :=
  match assets s !! a with
  | Some asset =>
      match a_status asset with
      | AssetRequested =>
          let timeId := a_timeId asset in
          let e := next s in
          let s := set_next (S e) s in
          let aligned :=
            match transforms cfg !! timeId with
            | Some m => if bool_decide (length m = 16) then Some m else None
            | None => None
            end in
          let placement :=
            match aligned with
            | Some m => ZUpToYUpTimes m
            | None => ZUpToYUp
            end in
          let enabled := bool_decide (timeId = activeTimeId s) in
          let entity := mkEntity ("splat_" +:+ timeId) enabled placement in
          let s := set_entities (<[e := entity]> (entities s)) s in
          let s := set_splatEntities (<[timeId := e]> (splatEntities s)) s in
          let s := set_loadingStates (<[timeId := Loaded]> (loadingStates s)) s in
          let s := set_assets (<[a := set_status AssetLoaded asset]> (assets s)) s in
          let s := settle (a_promise asset) (PResolved (Some e)) s in
          Some (s, match aligned with
                   | Some _ => [Console (LogAppliedTransform timeId)]
                   | None => []
                   end ++ [Console (LogLoaded timeId)])
      | _ => None
      end
  | None => None
  end.

(** The [error] handler of asset [a]; the state is entered under the
    identifier of the time state (exact when it is [plain]). *)
Definition assetError (a : AssetId) (cause : string) (s : Sys)
  : option (Sys * list Output) :=
  match assets s !! a with
  | Some asset =>
      match a_status asset with
      | AssetRequested =>
          let timeId := a_timeId asset in
          let s := set_loadingStates (<[timeId := LoadError]> (loadingStates s)) s in
          let s := set_assets (<[a := set_status AssetFailed asset]> (assets s)) s in
          let s := settle (a_promise asset) (PRejected cause) s in
          Some (s, [Console (ErrLoading timeId cause)])
      | _ => None
      end
  | None => None
  end.

(** One tick of the [setInterval] poll behind promise [p]. *)
Definition intervalTick (p : PromiseId) (s : Sys) : option (Sys * list Output) :=
  match List.find (fun pt => bool_decide (fst pt = p)) (intervals s) with
  | Some (_, timeId) =>
      if bool_decide (loadingStates s !! timeId = Some Loaded) then
        let s :=
          set_intervals
            (List.filter (fun pt => negb (bool_decide (fst pt = p))) (intervals s)) s in
        Some (settle p (PResolved (splatEntities s !! timeId)) s, [])
      else Some (s, [])
  | None => None
  end.

(** [switchToTime] from the lookup of the two entities to the awaited pair
    of animation frames; the two identifiers are keys of [splatEntities],
    read as a map (exact when they are [plain]). *)
Definition switch_loaded (timeId : string) (s : Sys) : Sys * list Output :=
  match splatEntities s !! activeTimeId s, splatEntities s !! timeId with
  | Some fromEntity, Some toEntity =>
      let s := enable toEntity true s in
      let '(q, s) := new_promise (PPending ByFrames) s in
      let s := set_rafQueue (rafQueue s ++ [RafOuter fromEntity q]) s in
      (await q (KSwitchFrames timeId) s, [])
  | _, _ => (set_switchLock false s, [Console ErrMissingEntities])
  end.

(** [switchToTime] after the two frames. *)
Definition switch_finish (timeId : string) (s : Sys) : Sys * list Output :=
  let previousTime := activeTimeId s in
  let s := set_activeTimeId timeId s in
  let s := updateButtonLabel s in
  let s := set_timeouts (timeouts s ++ [switchCooldown]) s in
  (s, [Console (LogSwitched timeId)]
      ++ (if onTimeChange s then [TimeChange timeId previousTime] else [])).

(** [switchToTime(timeId)], up to its first suspension. *)
Definition switchToTime (timeId : string) (s : Sys) : Sys * list Output :=
  if bool_decide (timeId = activeTimeId s) then (s, [])
  else if switchLock s then (s, [Console LogSwitchLocked])
  else
    let s := set_switchLock true s in
    let out := [Console (LogSwitching (activeTimeId s) timeId)] in
    if negb (bool_decide (loadingStates s !! timeId = Some Loaded)) then
      let s := set_toggleBtn match toggleBtn s with
                             | Some _ => Some LabelLoading
                             | None => None
                             end s in
      let '(p, s, o) := loadTimeState timeId s in
      (await p (KSwitchLoad timeId) s, out ++ o)
    else
      let '(s, o) := switch_loaded timeId s in
      (s, out ++ o).

(** [toggle()] *)
Definition toggle (s : Sys) : Sys * list Output :=
  match List.find (fun t => negb (has_id (activeTimeId s) t)) (times cfg) with
  | Some t => if bool_decide (t_id t = "") then (s, []) else switchToTime (t_id t) s
  | None => (s, [])
  end.

(** [handleKeyboard(keyCode)] *)
Definition handleKeyboard (keyCode : string) (s : Sys) : Sys * list Output :=
  let currentIndex := findIndex (has_id (activeTimeId s)) (times cfg) in
  let go (newIndex : Z) :=
    if bool_decide (newIndex = currentIndex) then (s, [])
    else match times cfg !! Z.to_nat newIndex with
         | Some t => switchToTime (t_id t) s
         | None => (s, [Uncaught "TypeError"])
         end in
  if bool_decide (keyCode = "BracketLeft") then
    go (Z.max 0 (currentIndex - 1))
  else if bool_decide (keyCode = "BracketRight") then
    go (Z.min (Z.of_nat (length (times cfg)) - 1) (currentIndex + 1))
  else (s, []).

(** [initialize()], up to its awaited load. *)
Definition initialize (s : Sys) : Sys * list Output :=
  let s := updateButtonLabel (set_toggleBtn (Some LabelBlank) s) in
  let '(p, s, o) := loadTimeState (activeTimeId s) s in
  (await p KInitialize s, [Console LogUICreated] ++ o).

(** One animation-frame callback. *)
Definition run_raf (s : Sys) (cb : Raf) : Sys :=
  match cb with
  | RafOuter fromEntity p =>
      set_rafQueue (rafQueue s ++ [RafInner fromEntity p]) s
  | RafInner fromEntity p =>
      settle p (PResolved None) (enable fromEntity false s)
  end.

(** A rendered frame runs the callbacks requested before it; a callback
    requested meanwhile waits for the next frame. *)
Definition animationFrame (s : Sys) : Sys :=
  foldl run_raf (set_rafQueue [] s) (rafQueue s).

(** The remainder [k] of an async function, resumed with the value [v];
    [initialize] returns the lookup of the active identifier, read as in a
    map (exact when it is [plain]). *)
Definition resume (k : Cont) (v : option Ent) (s : Sys) : Sys * list Output :=
  match k with
  | KSwitchLoad timeId => switch_loaded timeId s
  | KSwitchFrames timeId => switch_finish timeId s
  | KInitialize =>
      (s, [Console LogSingleSceneMode;
           Returned KInitialize (splatEntities s !! activeTimeId s)])
  | KCaller tag => (s, [Returned (KCaller tag) v])
  end.

(** The microtask that continues the function waiting on promise [p]: a
    resolved promise resumes it, a rejected one makes it throw, which
    rejects its own promise. *)
Definition microtask (p : PromiseId) (s : Sys) : option (Sys * list Output) :=
  match take_waiter p (waiters s), promises s !! p with
  | Some (k, rest), Some (PResolved v) => Some (resume k v (set_waiters rest s))
  | Some (k, rest), Some (PRejected cause) =>
      Some (set_waiters rest s, [Rejected k cause])
  | _, _ => None
  end.

(** The [i]-th pending cooldown timeout fires. *)
Definition timeout (i : nat) (s : Sys) : option (Sys * list Output) :=
  match timeouts s !! i with
  | Some _ => Some (set_switchLock false (set_timeouts (delete i (timeouts s)) s), [])
  | None => None
  end.

Definition step (ev : Event) (s : Sys) : option (Sys * list Output) :=
  match ev with
  | Initialize => Some (initialize s)
  | SwitchToTime timeId => Some (switchToTime timeId s)
  | Toggle => Some (toggle s)
  | HandleKeyboard keyCode => Some (handleKeyboard keyCode s)
  | LoadTimeState timeId tag =>
      let '(p, s, o) := loadTimeState timeId s in
      Some (await p (KCaller tag) s, o)
  | SetOnTimeChange registered => Some (set_onTimeChange registered s, [])
  | AssetReady a => assetReady a s
  | AssetError a cause => assetError a cause s
  | IntervalTick p => intervalTick p s
  | Microtask p => microtask p s
  | AnimationFrame => Some (animationFrame s, [])
  | Timeout i => timeout i s
  end.

(** A run: the events in order, with the output they produce. *)
Fixpoint run (evs : list Event) (s : Sys) : option (Sys * list Output) :=
  match evs with
  | [] => Some (s, [])
  | ev :: rest =>
      match step ev s with
      | Some (s', o) =>
          match run rest s' with
          | Some (s'', o') => Some (s'', o ++ o')
          | None => None
          end
      | None => None
      end
  end.

End Model.

End TimeToggle.

(** * Statements: auxiliary definitions *)

(** ** Arbitration as the specification words it *)

Module NavSpec.

(** Consult the arbiters in the order given and stop at the first one that
    rejects: the arbiters consulted, and whether the move was rejected. *)
Fixpoint arbitrate (verdicts : list (Arbiter * bool)) : list Arbiter * bool :=
  match verdicts with
  | [] => ([], false)
  | (a, rejects) :: rest =>
      if rejects then ([a], true)
      else let '(consulted, rejected) := arbitrate rest in
           (a :: consulted, rejected)
  end.

(** No movement input: no movement key is down, the joystick is centred
    and neither vertical button is held. *)
Definition idle {P : Type} (n : Nav P) : bool :=
  negb (Main.key n "KeyW") && negb (Main.key n "KeyS")
  && negb (Main.key n "KeyA") && negb (Main.key n "KeyD")
  && negb (Main.key n "KeyQ") && negb (Main.key n "KeyE")
  && PrimFloat.eqb (m_forward (movement n)) 0 && PrimFloat.eqb (m_right (movement n)) 0
  && negb (m_up (movement n)) && negb (m_down (movement n)).

Section Verdicts.
Context {P : Type} (ops : PortalOps P).

(** The verdict each arbiter in force gives on the frame's candidate move:
    mesh collision, then the walls while wall collision is switched on,
    then the portal system once it exists. *)
Definition verdicts (env : Physics) (dt : float) (n : Nav P) : list (Arbiter * bool) :=
  let currentPos := cam_position (camera n) in
  let newPos := Main.candidate dt n in
  [(Mesh, CollisionSystem.blocked
            (CollisionSystem.checkCollision env (collisionSystem n) currentPos newPos))]
  ++ (if wallCollisionEnabled n
      then [(Wall, WallSystem.checkWallCollision (WALL_SEGMENTS n) currentPos newPos)]
      else [])
  ++ match portalSystem n with
     | Some ps => [(Portal, fst (checkMovementBlocked ops ps currentPos newPos))]
     | None => []
     end.

(** A frame's move is rejected when the handler is in walk mode and one of
    the arbiters in force rejects it. *)
Definition rejected (env : Physics) (dt : float) (n : Nav P) : bool :=
  negb (flyMode n) && snd (arbitrate (verdicts env dt n)).

End Verdicts.

End NavSpec.

(** The handler in walk mode, case by case on the three verdicts. *)
Ltac walk_cases ops env dt n :=
  unfold Main.update, NavSpec.rejected, NavSpec.verdicts;
  destruct (flyMode n) eqn:Hfly; simpl;
  [| destruct (CollisionSystem.blocked
                 (CollisionSystem.checkCollision env (collisionSystem n)
                    (cam_position (camera n)) (Main.candidate dt n))) eqn:Hmesh; simpl;
     [| destruct (wallCollisionEnabled n) eqn:Hwe; simpl;
        [ destruct (WallSystem.checkWallCollision (WALL_SEGMENTS n)
                      (cam_position (camera n)) (Main.candidate dt n)) eqn:Hwall; simpl |];
        try (destruct (portalSystem n) as [ps|] eqn:Hps; simpl;
             [ destruct (checkMovementBlocked ops ps (cam_position (camera n))
                           (Main.candidate dt n)) as [b ps'] eqn:Hportal; simpl;
               destruct b; simpl |]) ] ].

(** ** Sample inputs *)

Module Sample.

(** A portal system that only counts the calls of [update]. *)
Definition counting_portal : PortalOps nat :=
  mkPortalOps (fun ps _ _ => (false, ps)) (fun _ ps => S ps) (fun _ ps => ps).

(** A rigidbody system whose raycast reports entity 7 hit at (0, 1.6, 4.9). *)
Definition hit_near : Physics :=
  mkPhysics (Some (mkRigidBodySystem true
    (fun _ _ => RayReturns (Some (mkRaycastResult (Some 7) (mkVec3 0 1.6 4.9)))))).

(** A rigidbody system whose raycast hits nothing. *)
Definition open_space : Physics :=
  mkPhysics (Some (mkRigidBodySystem true (fun _ _ => RayReturns None))).

(** A rigidbody system whose dynamics world is never initialised. *)
Definition stalled : Physics :=
  mkPhysics (Some (mkRigidBodySystem false (fun _ _ => RayReturns None))).

(** A collision system after a successful handshake on mesh 1. *)
Definition ready_system : CollisionSystem :=
  mkCollisionSystem (Some 1) true false true 0.3 (mkVec3 0 0 0).

Definition here : Vec3 := mkVec3 0 1.6 5.
Definition ahead : Vec3 := mkVec3 0 1.6 4.9375.

(** Walk mode at the default spawn point, looking down -Z, with W pressed,
    a wall across the way 3 cm ahead, and a portal system in place. *)
Definition walking_into_wall : Nav nat :=
  mkNav {[ "KeyW" := true ]} (mkMovement 0 0 false false) (mkSmooth 0 0)
        (mkCamera here (mkVec3 0 0 (-1)) (mkVec3 1 0 0))
        false true 0.0625 0.125 10
        ready_system
        [mkSegment "wall_0" (mkPoint2 (-1) 4.97) (mkPoint2 1 4.97) 65280]
        (Some 0).

(** One sixtieth of a second. *)
Definition dt60 : float := 0.016666666666666666.

(** A frame in the open, with no wall, from a position and over a step of
    one sixty-fourth of a second for which every coordinate involved is a
    single-precision number: the position committed is reported by the
    engine as it was given. *)
Definition here_exact : Vec3 := mkVec3 0 1.5 5.
Definition ahead_exact : Vec3 := mkVec3 0 1.5 4.94140625.
Definition dt64 : float := 0.015625.

Definition walking_exact : Nav nat :=
  mkNav {[ "KeyW" := true ]} (mkMovement 0 0 false false) (mkSmooth 0 0)
        (mkCamera here_exact (mkVec3 0 0 (-1)) (mkVec3 1 0 0))
        false true 0.0625 0.125 10
        ready_system [] (Some 0).

(** No rigidbody system at all. *)
Definition no_physics : Physics := mkPhysics None.

(** Walk mode at the default spawn point with nothing pressed, the walls
    of the module in place and no portal system. *)
Definition standing : Nav nat :=
  mkNav ∅ (mkMovement 0 0 false false) (mkSmooth 0 0)
        (mkCamera here (mkVec3 0 0 (-1)) (mkVec3 1 0 0))
        false true 0.0625 0.125 10
        ready_system WallSystem.WALL_SEGMENTS None.

(** A wall configuration whose second segment lacks its end point. *)
Definition broken_config : list Main.JsonSegment :=
  [Main.mkJsonSegment (Some (mkPoint2 0 0)) (Some (mkPoint2 1 0)) None None;
   Main.mkJsonSegment (Some (mkPoint2 1 0)) None (Some "east") None;
   Main.mkJsonSegment (Some (mkPoint2 1 1)) (Some (mkPoint2 0 1)) None None].

End Sample.

(** ** The handshake on the clock *)

Module HandshakeClock.
Import CollisionSystem.

(** The index of the timeout that falls due first (the earlier request
    among equals). *)
Fixpoint earliest (timers : list nat) : nat :=
  match timers with
  | [] => 0
  | due :: rest =>
      match rest with
      | [] => 0
      | _ => if due <=? default 0 (rest !! earliest rest) then 0 else S (earliest rest)
      end
  end.

(** The event loop fires the timeout that falls due first. *)
Definition tick (env : Physics) (h : Handshake) : option Handshake :=
  fire (earliest (h_timers h)) env h.

Fixpoint ticks (n : nat) (env : Physics) (h : Handshake) : option Handshake :=
  match n with
  | 0 => Some h
  | S n' => match tick env h with
            | Some h' => ticks n' env h'
            | None => None
            end
  end.

(** The handshake started at time 0 on mesh 1. *)
Definition started : Handshake := setup 1 0 constructor.

End HandshakeClock.

(** ** The time toggle: what the statements count and require *)

Module ToggleSpec.
Import TimeToggle.

(** The switch protocols in flight: the suspended calls of [switchToTime]. *)
Definition switch_count (ws : list (PromiseId * Cont)) : nat :=
  length (List.filter (fun w => is_switch (snd w)) ws).

Definition in_flight (s : Sys) : nat := switch_count (waiters s).

(** A protocol in flight or a pending cooldown timeout holds the lock, and
    there is never more than one of them. *)
Definition lock_inv (s : Sys) : Prop :=
  in_flight s + length (timeouts s) <= (if switchLock s then 1 else 0).

(** The lock is held and nothing is left that would release it. *)
Definition stuck (s : Sys) : Prop :=
  switchLock s = true /\ in_flight s = 0 /\ timeouts s = [].

Definition is_switched (o : Output) : bool :=
  match o with
  | Console (LogSwitched _) => true
  | _ => false
  end.

(** The transitions completed in a run, read off its console output. *)
Definition transitions (out : list Output) : nat :=
  length (List.filter is_switched out).

Definition is_timeout (ev : Event) : bool :=
  match ev with
  | Timeout _ => true
  | _ => false
  end.

(** The calls of [app.assets.load] made for a time state. *)
Definition requests_for (timeId : string) (s : Sys) : nat :=
  length (List.filter (fun r => bool_decide (snd r = timeId)) (loadRequests s)).

Definition is_failure_of (timeId : string) (o : Output) : bool :=
  match o with
  | Console (ErrLoading t _) => bool_decide (t = timeId)
  | _ => false
  end.

(** The load failures of a time state reported in a run. *)
Definition failures_of (timeId : string) (out : list Output) : nat :=
  length (List.filter (is_failure_of timeId) out).

(** 1 while the time state is loading or loaded, 0 otherwise. *)
Definition held (timeId : string) (s : Sys) : nat :=
  match loadingStates s !! timeId with
  | Some Loading | Some Loaded => 1
  | _ => 0
  end.

(** The fields that the lock discipline is about. *)
Definition lock_view (s : Sys) : bool * list (PromiseId * Cont) * list nat * string :=
  (switchLock s, waiters s, timeouts s, activeTimeId s).

(** What a step does to the lock, the protocols in flight and the pending
    cooldown timeouts. *)
Inductive lock_effect (ev : Event) (s s' : Sys) (o : list Output) : Prop :=
| Untouched :
    activeTimeId s' = activeTimeId s ->
    switchLock s' = switchLock s -> in_flight s' = in_flight s ->
    timeouts s' = timeouts s -> transitions o = 0 ->
    lock_effect ev s s' o
| Acquired :
    activeTimeId s' = activeTimeId s ->
    switchLock s = false -> switchLock s' = true ->
    in_flight s' = S (in_flight s) -> timeouts s' = timeouts s ->
    transitions o = 0 ->
    lock_effect ev s s' o
| MissingEntities p timeId rest :
    ev = Microtask p ->
    take_waiter p (waiters s) = Some (KSwitchLoad timeId, rest) ->
    splatEntities s !! activeTimeId s = None \/ splatEntities s !! timeId = None ->
    activeTimeId s' = activeTimeId s ->
    switchLock s' = false -> in_flight s = S (in_flight s') ->
    timeouts s' = timeouts s -> transitions o = 0 ->
    lock_effect ev s s' o
| Finished p timeId rest :
    ev = Microtask p ->
    take_waiter p (waiters s) = Some (KSwitchFrames timeId, rest) ->
    activeTimeId s' = timeId ->
    switchLock s' = switchLock s -> in_flight s = S (in_flight s') ->
    timeouts s' = timeouts s ++ [switchCooldown] -> transitions o = 1 ->
    lock_effect ev s s' o
| Abandoned p k rest cause :
    ev = Microtask p ->
    take_waiter p (waiters s) = Some (k, rest) -> is_switch k = true ->
    promises s !! p = Some (PRejected cause) ->
    activeTimeId s' = activeTimeId s ->
    switchLock s' = switchLock s -> in_flight s = S (in_flight s') ->
    timeouts s' = timeouts s -> transitions o = 0 ->
    lock_effect ev s s' o
| CooledDown i :
    ev = Timeout i ->
    activeTimeId s' = activeTimeId s ->
    switchLock s' = false -> in_flight s' = in_flight s ->
    S (length (timeouts s')) = length (timeouts s) -> transitions o = 0 ->
    lock_effect ev s s' o.

Definition raf_promise (cb : Raf) : PromiseId :=
  match cb with
  | RafOuter _ p | RafInner _ p => p
  end.

(** A promise that no asset handler and no poll will settle. *)
Definition frames_or_settled (st : PromiseState) : Prop :=
  match st with
  | PPending ByFrames | PResolved _ | PRejected _ => True
  | _ => False
  end.

(** The fields the load accounting is about. *)
Definition load_view (s : Sys) :=
  (loadRequests s, loadingStates s, splatEntities s).

(** The load account of a time state over a stretch of a run: the requests
    made grow by the failures reported, plus one when a load came to be
    held, minus one when it ceased to be. *)
Definition balanced (timeId : string) (s s' : Sys) (o : list Output) : Prop :=
  requests_for timeId s' + held timeId s
  = requests_for timeId s + failures_of timeId o + held timeId s'.

(** A loaded time state and its handle. *)
Definition loaded_as (timeId : string) (e : Ent) (s : Sys) : Prop :=
  loadingStates s !! timeId = Some Loaded /\ splatEntities s !! timeId = Some e.

(** The active time state is loaded. *)
Definition initialised (s : Sys) : Prop :=
  loadingStates s !! activeTimeId s = Some Loaded.

(** ** Visibility *)

(** A time state is shown when it has an entity and the entity is enabled. *)
Definition shown (s : Sys) (timeId : string) : bool :=
  match splatEntities s !! timeId with
  | Some e =>
      match entities s !! e with
      | Some entity => e_enabled entity
      | None => false
      end
  | None => false
  end.

Definition has_entity (s : Sys) (timeId : string) : bool :=
  bool_decide (is_Some (splatEntities s !! timeId)).

Definition is_frames (w : PromiseId * Cont) : bool :=
  match w.2 with
  | KSwitchFrames _ => true
  | _ => false
  end.

(** The switches waiting for their two frames. *)
Definition frames_waiters (s : Sys) : list (PromiseId * Cont) :=
  List.filter is_frames (waiters s).

(** The stages of the visibility handoff.  With no switch waiting for its
    frames, the active time state is the one shown and no frame callback is
    queued.  A switch waiting for its frames has a target other than the
    active time state; until the second frame its promise is pending, one
    callback is queued that will disable the entity of the active time
    state, and both are shown; after it the promise is resolved, the queue
    is empty, and the target alone is shown. *)
Definition handoff_stage (s : Sys) : Prop :=
  match frames_waiters s with
  | [] =>
      rafQueue s = []
      /\ forall timeId,
           shown s timeId = bool_decide (timeId = activeTimeId s) && has_entity s timeId
  | [(q, KSwitchFrames target)] =>
      target <> activeTimeId s
      /\ exists eA,
           splatEntities s !! activeTimeId s = Some eA
           /\ (promises s !! q = Some (PPending ByFrames)
               /\ (rafQueue s = [RafOuter eA q] \/ rafQueue s = [RafInner eA q])
               /\ (forall timeId,
                     shown s timeId
                     = (bool_decide (timeId = activeTimeId s)
                        || bool_decide (timeId = target))
                       && has_entity s timeId)
               \/ promises s !! q = Some (PResolved None)
                  /\ rafQueue s = []
                  /\ (forall timeId,
                        shown s timeId
                        = bool_decide (timeId = target) && has_entity s timeId))
  | _ => False
  end.

(** Entities are not shared between time states, a switch still loading
    its target aims at another time state than the active one, and the
    handoff is in one of its stages. *)
Record vis (s : Sys) : Prop := mkVis {
  vis_inj : forall id1 id2 e,
    splatEntities s !! id1 = Some e -> splatEntities s !! id2 = Some e -> id1 = id2;
  vis_target : forall p timeId,
    (p, KSwitchLoad timeId) ∈ waiters s -> timeId <> activeTimeId s;
  vis_stage : handoff_stage s
}.

(** The fields visibility is about. *)
Definition vis_view (s : Sys) :=
  (splatEntities s, entities s, waiters s, rafQueue s, activeTimeId s, promises s).

(** What a load that fails is to leave alone: the active time state and
    the entities with their visibility, and the functions suspended or
    scheduled. *)
Definition scene_view (s : Sys) := (activeTimeId s, splatEntities s, entities s).

Definition pending_view (s : Sys) :=
  (onTimeChange s, waiters s, intervals s, rafQueue s, timeouts s).

(** The identifiers a call from outside hands over, and those of the
    configuration, are plain keys: on such runs the registries are the
    finite maps of the model. *)
Definition plain_event (ev : Event) : bool :=
  match ev with
  | SwitchToTime timeId | LoadTimeState timeId _ => plain timeId
  | _ => true
  end.

Definition plain_config (cfg : ToggleConfig) : bool :=
  plain (defaultTime cfg) && forallb (fun t => plain (t_id t)) (times cfg).

(** Every suspended function waits on a promise of its own, created
    before. *)
Definition awaited_once (s : Sys) : Prop :=
  NoDup (waiters s).*1 /\ forall p, p ∈ (waiters s).*1 -> p < next s.

(** The events at which a promise in state [st] may be settled: the signals
    of the loader for the promise of a load, the tick of its poll for the
    promise of a poll, a frame for the promise of a handoff; none once it
    is settled. *)
Definition settles (p : PromiseId) (st : PromiseState) (ev : Event) : Prop :=
  match st with
  | PPending (ByAsset a) => ev = AssetReady a \/ exists cause, ev = AssetError a cause
  | PPending ByInterval => ev = IntervalTick p
  | PPending ByFrames => ev = AnimationFrame
  | _ => False
  end.

(** A caller polling for a load in flight: its promise is pending while its
    poll is registered, or resolved with the entity of the loaded time
    state. *)
Definition polling (p : PromiseId) (timeId : string) (s : Sys) : Prop :=
  promises s !! p = Some (PPending ByInterval) /\ (p, timeId) ∈ intervals s
  \/ exists e, promises s !! p = Some (PResolved (Some e)) /\ loaded_as timeId e s.



Section Reach.
Context (cfg : ToggleConfig).

(** The placement an entity is given for a time state: the alignment matrix
    of the time state when it has sixteen entries. *)
Definition placement_for (timeId : string) : Placement :=
  match transforms cfg !! timeId with
  | Some m => if bool_decide (length m = 16) then ZUpToYUpTimes m else ZUpToYUp
  | None => ZUpToYUp
  end.

(** The console line that goes with an alignment. *)
Definition aligned_log (timeId : string) : list Output :=
  match transforms cfg !! timeId with
  | Some m => if bool_decide (length m = 16) then [Console (LogAppliedTransform timeId)] else []
  | None => []
  end.

(** Every entity in the scene is the entity of a time state, named after it
    and placed by its alignment. *)
Definition registered (s : Sys) : Prop :=
  forall e x, entities s !! e = Some x ->
    exists timeId,
      splatEntities s !! timeId = Some e
      /\ e_name x = "splat_" +:+ timeId
      /\ e_placement x = placement_for timeId.

(** A time state declared in the configuration. *)
Definition configured (timeId : string) : Prop :=
  is_Some (List.find (has_id timeId) (times cfg)).

(** Well-formedness of the bookkeeping: handles are fresh; an asset awaited
    from the loader belongs to a configured time state that is loading, is
    the asset recorded for it, and holds a pending promise; polls and frame
    callbacks hold promises of their own, one per poll; a time state has an
    entity
    exactly when it is loaded; a switch waiting for its frames has its
    target entity. *)
Record wf (s : Sys) : Prop := mkWf {
  wf_promises : forall p st, promises s !! p = Some st -> p < next s;
  wf_assets : forall a x, assets s !! a = Some x -> a < next s;
  wf_entities : forall e x, entities s !! e = Some x -> e < next s;
  wf_requested : forall a x,
    assets s !! a = Some x -> a_status x = AssetRequested ->
    loadingStates s !! a_timeId x = Some Loading
    /\ splatAssets s !! a_timeId x = Some a
    /\ promises s !! a_promise x = Some (PPending (ByAsset a))
    /\ configured (a_timeId x);
  wf_intervals : forall p timeId,
    (p, timeId) ∈ intervals s -> promises s !! p = Some (PPending ByInterval);
  wf_raf : forall cb,
    cb ∈ rafQueue s ->
    exists st, promises s !! raf_promise cb = Some st /\ frames_or_settled st;
  wf_handles : forall timeId e,
    splatEntities s !! timeId = Some e ->
    loadingStates s !! timeId = Some Loaded
    /\ is_Some (entities s !! e)
    /\ configured timeId;
  wf_loaded : forall timeId,
    loadingStates s !! timeId = Some Loaded -> is_Some (splatEntities s !! timeId);
  wf_frames : forall p timeId,
    (p, KSwitchFrames timeId) ∈ waiters s -> is_Some (splatEntities s !! timeId);
  wf_polls : NoDup (intervals s).*1
}.

(** The fields well-formedness is about. *)
Definition wf_view (s : Sys) :=
  (promises s, assets s, entities s, next s, loadingStates s, splatAssets s,
   intervals s, rafQueue s, splatEntities s, waiters s).

(** The states the system can be in: those a run leads to from the
    constructed system. *)
Definition reachable (s : Sys) : Prop :=
  exists s0 evs out, constructor cfg = Some s0 /\ run cfg evs s0 = Some (s, out).

(** The states a run on plain keys leads to, under a configuration whose
    identifiers are plain. *)
Definition plain_reachable (s : Sys) : Prop :=
  plain_config cfg = true
  /\ exists s0 evs out,
       constructor cfg = Some s0
       /\ forallb plain_event evs = true
       /\ run cfg evs s0 = Some (s, out).

End Reach.

End ToggleSpec.

(** ** Sample configuration and runs *)

Module ToggleSample.
Import TimeToggle.

(** The configuration shipped in config.js: two time states, the second
    with an alignment matrix. *)
Definition cfg : ToggleConfig :=
  mkToggleConfig "primary"
    [mkTime "primary" "Before" "./splats/primary/";
     mkTime "secondary" "After" "./splats/secondary/"]
    {[ "secondary" := [1; 0; 0; 0; 0; 1; 0; 0; 0; 0; 1; 0; 0; 0; 0; 1]%float ]}.

Definition blank : Sys :=
  mkSys "" ∅ ∅ ∅ false None false ∅ ∅ [] ∅ [] [] [] [] 0.

(** The state and the output a run from the constructed system ends with. *)
Definition final (c : ToggleConfig) (evs : list Event) : option (Sys * list Output) :=
  match constructor c with
  | Some s0 => run c evs s0
  | None => None
  end.

Definition state_after (evs : list Event) : Sys :=
  match final cfg evs with
  | Some (s, _) => s
  | None => blank
  end.

Definition output_of (evs : list Event) : list Output :=
  match final cfg evs with
  | Some (_, o) => o
  | None => []
  end.

(** Initialisation: the default time state is requested (promise 0, asset
    1), the loader answers, [initialize] resumes. *)
Definition boot : list Event := [Initialize; AssetReady 1; Microtask 0].

(** The second time state is asked for twice while its load is pending; the
    load completes, the two frames pass, the switch finishes; it is asked
    for once more, and the toggle button is pressed, inside the cooldown. *)
Definition double_switch : list Event :=
  boot ++ [SwitchToTime "secondary"; SwitchToTime "secondary";
           AssetReady 4; Microtask 3; AnimationFrame; AnimationFrame; Microtask 6;
           SwitchToTime "secondary"; Toggle].

(** The load of the second time state fails while [switchToTime] awaits it. *)
Definition failed_switch : list Event :=
  boot ++ [SwitchToTime "secondary"; AssetError 4 "404"].

(** After that failure [switchToTime] is rejected; then the toggle button
    is pressed, the second time state is asked for again, and the keyboard
    shortcut is used. *)
Definition dead_button : list Event :=
  failed_switch ++ [Microtask 3; Toggle; SwitchToTime "secondary";
                    HandleKeyboard "BracketRight"].

(** Two callers ask for the second time state before its load completes. *)
Definition double_load : list Event :=
  boot ++ [LoadTimeState "secondary" 1; LoadTimeState "secondary" 2].

(** The load then completes; the first caller resumes, the poll of the
    second ticks, the second caller resumes. *)
Definition double_load_done : list Event :=
  double_load ++ [AssetReady 4; Microtask 3; IntervalTick 5; Microtask 5].

(** The switch to the second time state, up to the middle of its handoff:
    the target is enabled, the two frames have not passed yet. *)
Definition mid_handoff : list Event :=
  boot ++ [SwitchToTime "secondary"; AssetReady 4; Microtask 3; AnimationFrame].

(** The second time state is loaded ahead of any switch by a caller from
    outside. *)
Definition preloaded : list Event :=
  boot ++ [LoadTimeState "secondary" 1; AssetReady 4; Microtask 3].

(** Two callers ask for the second time state, its load fails, the first
    caller is told, and the poll of the second ticks. *)
Definition failed_poll : list Event :=
  double_load ++ [AssetError 4 "404"; Microtask 3; IntervalTick 5].

(** A configuration whose default time state is not among its time
    states. *)
Definition misconfigured : ToggleConfig :=
  mkToggleConfig "tertiary" (times cfg) (transforms cfg).

End ToggleSample.

(** Reduction of the fields of a state through its setters. *)
Ltac sys_simpl :=
  cbn [TimeToggle.activeTimeId TimeToggle.splatEntities TimeToggle.splatAssets
       TimeToggle.loadingStates TimeToggle.switchLock TimeToggle.toggleBtn
       TimeToggle.onTimeChange TimeToggle.entities TimeToggle.assets
       TimeToggle.loadRequests TimeToggle.promises TimeToggle.waiters
       TimeToggle.intervals TimeToggle.rafQueue TimeToggle.timeouts TimeToggle.next
       TimeToggle.set_activeTimeId TimeToggle.set_splatEntities
       TimeToggle.set_splatAssets TimeToggle.set_loadingStates
       TimeToggle.set_switchLock TimeToggle.set_toggleBtn
       TimeToggle.set_onTimeChange TimeToggle.set_entities TimeToggle.set_assets
       TimeToggle.set_loadRequests TimeToggle.set_promises TimeToggle.set_waiters
       TimeToggle.set_intervals TimeToggle.set_rafQueue TimeToggle.set_timeouts
       TimeToggle.set_next TimeToggle.await TimeToggle.enable TimeToggle.new_promise
       fst snd].

(** The end of a run computed by hand: the state is the one computed, the
    outputs agree up to the grouping of the lists. *)
Ltac finish_run :=
  match goal with
  | |- Some (?a, _) = Some (?b, _) => unify a b; apply f_equal, f_equal
  end;
  repeat case_match; simplify_eq; cbn [app]; rewrite ?app_nil_r; reflexivity.
(** ** Numbers, walls and frames: what the further statements require *)

Module NumSpec.

(** A number that is a zero of either sign, or NaN. *)
Definition zero_or_nan (f : float) : Prop :=
  (exists sg, Prim2SF f = S754_zero sg) \/ Prim2SF f = S754_nan.

(** A position all of whose coordinates are finite numbers. *)
Definition finite_position (p : Vec3) : bool :=
  PrimFloat.is_finite (vx p) && PrimFloat.is_finite (vy p) && PrimFloat.is_finite (vz p).

End NumSpec.

Module WallSpec.
Import Main.

(** A segment of the configuration that has both its end points. *)
Definition complete (segment : JsonSegment) : bool :=
  bool_decide (is_Some (js_start segment)) && bool_decide (is_Some (js_end segment)).

(** The wall a complete segment becomes when it is the [i]-th one added to
    an empty list. *)
Definition wall_of (i : nat) (segment : JsonSegment) : Segment :=
  mkSegment
    match js_name segment with
    | Some n => if bool_decide (n = "") then "wall_" +:+ pretty i else n
    | None => "wall_" +:+ pretty i
    end
    (default (mkPoint2 0 0) (js_start segment))
    (default (mkPoint2 0 0) (js_end segment))
    (default 65280%N (js_color segment)).

(** The segments before the first incomplete one. *)
Fixpoint complete_prefix (segs : list JsonSegment) : list JsonSegment :=
  match segs with
  | [] => []
  | segment :: rest => if complete segment then segment :: complete_prefix rest else []
  end.

(** The names of the walls. *)
Definition names (walls : list Segment) : list string := seg_name <$> walls.

End WallSpec.

(** * Properties *)

(** ** The 2D segment intersection test *)

Section Intersection.
Import WallSystem.

Lemma lineSegmentsIntersect_parallel x1 y1 x2 y2 x3 y3 x4 y4 :
  PrimFloat.ltb (PrimFloat.abs (denom x1 y1 x2 y2 x3 y3 x4 y4)) 0.0001 = true ->
  lineSegmentsIntersect x1 y1 x2 y2 x3 y3 x4 y4 = false.
Proof. intros H. unfold lineSegmentsIntersect. cbv zeta. now rewrite H. Qed.

Lemma lineSegmentsIntersect_params x1 y1 x2 y2 x3 y3 x4 y4 :
  PrimFloat.ltb (PrimFloat.abs (denom x1 y1 x2 y2 x3 y3 x4 y4)) 0.0001 = false ->
  lineSegmentsIntersect x1 y1 x2 y2 x3 y3 x4 y4 = true <->
  PrimFloat.leb 0 (param_t x1 y1 x2 y2 x3 y3 x4 y4) = true
  /\ PrimFloat.leb (param_t x1 y1 x2 y2 x3 y3 x4 y4) 1 = true
  /\ PrimFloat.leb 0 (param_u x1 y1 x2 y2 x3 y3 x4 y4) = true
  /\ PrimFloat.leb (param_u x1 y1 x2 y2 x3 y3 x4 y4) 1 = true.
Proof.
  intros H. unfold lineSegmentsIntersect, Num.geb. cbv zeta. rewrite H.
  rewrite !andb_true_iff. tauto.
Qed.

(** C5.  [lineSegmentsIntersect] answers [false] whenever the absolute value
    of the denominator d = (x1-x2)(y3-y4) - (y1-y2)(x3-x4) is below 1e-4,
    collinear overlapping segments included; otherwise it answers [true]
    exactly when t = ((x1-x3)(y3-y4) - (y1-y3)(x3-x4)) / d and
    u = -((x1-x2)(y1-y3) - (y1-y2)(x1-x3)) / d both lie in [0,1], the
    bounds included.  The segments (0,0)-(10,0) and (5,-5)-(5,5) intersect,
    (0,0)-(10,0) and (5,1)-(5,5) do not (u = -1/4), and the collinear
    overlapping segments (0,0)-(10,0) and (5,0)-(15,0) do not; nor do
    (0,0)-(1,0) and (5,-5)-(5,5), where t = 5, (6,0)-(10,0) and
    (5,-5)-(5,5), where t = -1/4, and (0,0)-(10,0) and (5,-5)-(5,-1),
    where u = 5/4; the segments (0,0)-(5,0) and (5,-5)-(5,5), which touch
    at t = 1, do. *)
Theorem lineSegmentsIntersect_contract :
  forall x1 y1 x2 y2 x3 y3 x4 y4 : float,
    let d := ((x1 - x2) * (y3 - y4) - (y1 - y2) * (x3 - x4))%float in
    let t := (((x1 - x3) * (y3 - y4) - (y1 - y3) * (x3 - x4)) / d)%float in
    let u := ((- ((x1 - x2) * (y1 - y3) - (y1 - y2) * (x1 - x3))) / d)%float in
    (PrimFloat.ltb (PrimFloat.abs d) 0.0001 = true ->
     lineSegmentsIntersect x1 y1 x2 y2 x3 y3 x4 y4 = false)
    /\ (PrimFloat.ltb (PrimFloat.abs d) 0.0001 = false ->
        (lineSegmentsIntersect x1 y1 x2 y2 x3 y3 x4 y4 = true <->
         PrimFloat.leb 0 t = true /\ PrimFloat.leb t 1 = true
         /\ PrimFloat.leb 0 u = true /\ PrimFloat.leb u 1 = true))
    /\ lineSegmentsIntersect 0 0 10 0 5 (-5) 5 5 = true
    /\ lineSegmentsIntersect 0 0 10 0 5 1 5 5 = false
    /\ lineSegmentsIntersect 0 0 10 0 5 0 15 0 = false
    /\ lineSegmentsIntersect 0 0 1 0 5 (-5) 5 5 = false
    /\ lineSegmentsIntersect 6 0 10 0 5 (-5) 5 5 = false
    /\ lineSegmentsIntersect 0 0 10 0 5 (-5) 5 (-1) = false
    /\ lineSegmentsIntersect 0 0 5 0 5 (-5) 5 5 = true.
Proof.
  intros. subst d t u.
  split; [apply lineSegmentsIntersect_parallel|].
  split; [apply lineSegmentsIntersect_params|].
  repeat split; vm_compute; reflexivity.
Qed.

(** The contract at (0,0)-(1,0) and (5,-5)-(5,5): the denominator is 10, u
    is 1/2 and t is 5, and it is t alone that keeps the segments apart. *)
Lemma lineSegmentsIntersect_contract_witness :
  PrimFloat.leb (((0 - 5) * (-5 - 5) - (0 - (-5)) * (5 - 5))
                 / ((0 - 1) * (-5 - 5) - (0 - 0) * (5 - 5))) 1 = false
  /\ lineSegmentsIntersect 0 0 1 0 5 (-5) 5 5 = false.
Proof.
  split; [vm_compute; reflexivity|].
  destruct (lineSegmentsIntersect 0 0 1 0 5 (-5) 5 5) eqn:E; [|reflexivity].
  apply (proj1 (proj2 (lineSegmentsIntersect_contract 0 0 1 0 5 (-5) 5 5))) in E.
  - destruct E as (_ & Ht & _). vm_compute in Ht. discriminate.
  - vm_compute; reflexivity.
Defined.

End Intersection.

(** ** The mesh arbiter *)

Section MeshArbiter.
Import CollisionSystem.

Lemma checkCollision_gate env cs currentPos newPos :
  collisionEnabled cs = false \/ collisionMesh cs = None \/ physicsReady cs = false ->
  checkCollision env cs currentPos newPos = mkChecked false cs [].
Proof.
  unfold checkCollision. intros [H | [H | H]]; rewrite H; simpl.
  - reflexivity.
  - destruct (collisionEnabled cs); reflexivity.
  - rewrite orb_true_r. reflexivity.
Qed.

Lemma checkCollision_open env cs currentPos newPos :
  collisionEnabled cs = true -> is_Some (collisionMesh cs) -> physicsReady cs = true ->
  blocked (checkCollision env cs currentPos newPos) =
  negb (PrimFloat.eqb (V.length (V.sub2 newPos currentPos)) 0)
  && match callRaycastFirst env currentPos newPos with
     | RayReturns (Some (mkRaycastResult (Some _) point)) =>
         PrimFloat.ltb (V.distance point currentPos) (collisionRadius cs)
     | _ => false
     end.
Proof.
  intros He Hm Hr. unfold checkCollision. rewrite He, Hr.
  rewrite (bool_decide_eq_true_2 _ Hm). simpl.
  destruct (PrimFloat.eqb _ 0); simpl; [reflexivity|].
  destruct (callRaycastFirst env currentPos newPos) as [[[[e|] point]|]|err];
    simpl; try reflexivity.
  destruct (PrimFloat.ltb _ _); reflexivity.
Qed.

(** C3.  [checkCollision] blocks a movement exactly when collision is
    enabled, the mesh is loaded, physics is confirmed ready, the movement
    vector has nonzero length, the raycast from the old to the new position
    returns a hit on an entity without throwing, and the hit point lies
    closer to the old position than the clearance radius; in every other
    case it answers [false].  The radius is 0.3 by default, and a disabled
    system never blocks whatever the raycast would say. *)
Theorem checkCollision_contract :
  forall (env : Physics) (cs : CollisionSystem) (currentPos newPos : Vec3),
    (blocked (checkCollision env cs currentPos newPos) = true <->
     collisionEnabled cs = true
     /\ is_Some (collisionMesh cs)
     /\ physicsReady cs = true
     /\ PrimFloat.eqb (V.length (V.sub2 newPos currentPos)) 0 = false
     /\ exists e point,
          callRaycastFirst env currentPos newPos
          = RayReturns (Some (mkRaycastResult (Some e) point))
          /\ PrimFloat.ltb (V.distance point currentPos) (collisionRadius cs) = true)
    /\ (blocked (checkCollision env cs currentPos newPos) = false <->
        ~ (collisionEnabled cs = true
           /\ is_Some (collisionMesh cs)
           /\ physicsReady cs = true
           /\ PrimFloat.eqb (V.length (V.sub2 newPos currentPos)) 0 = false
           /\ exists e point,
                callRaycastFirst env currentPos newPos
                = RayReturns (Some (mkRaycastResult (Some e) point))
                /\ PrimFloat.ltb (V.distance point currentPos) (collisionRadius cs) = true))
    /\ (collisionEnabled cs = false ->
        blocked (checkCollision env cs currentPos newPos) = false)
    /\ collisionRadius constructor = 0.3%float.
Proof.
  intros env cs currentPos newPos.
  assert (Hiff : blocked (checkCollision env cs currentPos newPos) = true <->
     collisionEnabled cs = true
     /\ is_Some (collisionMesh cs)
     /\ physicsReady cs = true
     /\ PrimFloat.eqb (V.length (V.sub2 newPos currentPos)) 0 = false
     /\ exists e point,
          callRaycastFirst env currentPos newPos
          = RayReturns (Some (mkRaycastResult (Some e) point))
          /\ PrimFloat.ltb (V.distance point currentPos) (collisionRadius cs) = true).
  { split.
    - intros Hb.
      destruct (collisionEnabled cs) eqn:He;
        [|rewrite checkCollision_gate in Hb by auto; discriminate].
      destruct (collisionMesh cs) as [m|] eqn:Hm;
        [|rewrite checkCollision_gate in Hb by auto; discriminate].
      destruct (physicsReady cs) eqn:Hr;
        [|rewrite checkCollision_gate in Hb by auto; discriminate].
      rewrite checkCollision_open in Hb by (rewrite ?Hm; eauto).
      apply andb_true_iff in Hb as [Hlen Hray].
      apply negb_true_iff in Hlen.
      repeat split; eauto.
      destruct (callRaycastFirst env currentPos newPos) as [[[[e|] point]|]|err];
        try discriminate.
      eauto.
    - intros (He & Hm & Hr & Hlen & e & point & Hray & Hd).
      rewrite checkCollision_open by assumption.
      rewrite Hlen, Hray. exact Hd. }
  split; [exact Hiff|]. split; [|split].
  - rewrite <- Hiff. destruct (blocked _); split; congruence.
  - intros He. rewrite checkCollision_gate by auto. reflexivity.
  - reflexivity.
Qed.

(** The contract at a concrete movement: a ready system, a step of 6.25 cm
    towards a hit reported 10 cm away, is blocked. *)
Lemma checkCollision_contract_witness :
  blocked (checkCollision Sample.hit_near Sample.ready_system Sample.here Sample.ahead)
  = true.
Proof.
  apply (proj1 (checkCollision_contract
                  Sample.hit_near Sample.ready_system Sample.here Sample.ahead)).
  repeat split; try reflexivity.
  - exists 1. reflexivity.
  - exists 7, (mkVec3 0 1.6 4.9). split; vm_compute; reflexivity.
Defined.

End MeshArbiter.

(** ** The movement handler *)

Section Arbitration.
Context {P : Type} (ops : PortalOps P).
Import Main.

Lemma commit_calls dt newPos (n : Nav P) calls log :
  f_calls (commit ops dt newPos n calls log) =
  calls ++ SetPosition newPos ::
    match portalSystem n with
    | Some _ => [PortalUpdate dt; PortalCheckCollision newPos]
    | None => []
    end.
Proof. unfold commit, setPosition, with_portal. cbn. destruct (portalSystem n); reflexivity. Qed.

Lemma commit_camera dt newPos (n : Nav P) calls log :
  camera (f_nav (commit ops dt newPos n calls log)) =
  mkCamera newPos (cam_forward (camera n)) (cam_right (camera n)).
Proof. unfold commit, setPosition, with_portal. cbn. destruct (portalSystem n); reflexivity. Qed.

Lemma commit_portal dt newPos (n : Nav P) calls log :
  portalSystem (f_nav (commit ops dt newPos n calls log)) =
  (fun ps => portal_checkCollision ops newPos (portal_update ops dt ps))
    <$> portalSystem n.
Proof. unfold commit, setPosition, with_portal. cbn. destruct (portalSystem n); reflexivity. Qed.

Lemma omap_arbiter_commit dt newPos (n : Nav P) calls log :
  omap arbiter_of (f_calls (commit ops dt newPos n calls log)) =
  omap arbiter_of calls.
Proof.
  rewrite commit_calls, omap_app. simpl.
  destruct (portalSystem n); simpl; apply app_nil_r.
Qed.

Lemma committed_commit dt newPos (n : Nav P) calls log :
  committed (commit ops dt newPos n calls log) = Some newPos.
Proof.
  unfold committed. rewrite commit_calls, omap_app. simpl.
  destruct (portalSystem n); simpl; apply last_snoc.
Qed.

(** C4.  In walk mode the handler consults mesh collision, then the walls
    while wall collision is switched on, then the portal system once it
    exists, stopping at the first arbiter that rejects the candidate move;
    a rejected move is dropped whole, the camera staying exactly where it
    was, with no call of [setPosition]; an accepted one is committed by one
    call of [setPosition] with the candidate position; in fly mode no
    arbiter is consulted, the collision system is not touched, and the
    candidate position is committed. *)
Theorem update_arbitration :
  forall (env : Physics) (dt : float) (n : Nav P),
    let f := update ops env dt n in
    (flyMode n = true ->
       consulted f = []
       /\ collisionSystem (f_nav f) = collisionSystem n
       /\ committed f = Some (candidate dt n))
    /\ (flyMode n = false ->
          consulted f = fst (NavSpec.arbitrate (NavSpec.verdicts ops env dt n))
          /\ (snd (NavSpec.arbitrate (NavSpec.verdicts ops env dt n)) = true ->
                camera (f_nav f) = camera n /\ committed f = None)
          /\ (snd (NavSpec.arbitrate (NavSpec.verdicts ops env dt n)) = false ->
                committed f = Some (candidate dt n))).
Proof.
  intros env dt n f. subst f. split; intros Hmode.
  - unfold update. rewrite Hmode.
    unfold consulted.
    rewrite omap_arbiter_commit, committed_commit.
    repeat split. unfold commit, setPosition, with_portal.
    destruct (portalSystem n); reflexivity.
  - walk_cases ops env dt n; try discriminate;
      unfold consulted;
      rewrite ?omap_arbiter_commit, ?committed_commit;
      simpl;
      (split; [reflexivity | split; intros Hrej; try discriminate Hrej; auto]).
Qed.

(** The calls a committing frame ends with: [setPosition], then, when the
    portal system exists, its [update] and its [checkCollision] with the
    position the camera reports by then. *)
Lemma commit_tail dt newPos (n : Nav P) calls log :
  f_calls (commit ops dt newPos n calls log) =
  calls ++ SetPosition newPos ::
    match portalSystem n with
    | Some _ =>
        [PortalUpdate dt;
         PortalCheckCollision
           (cam_position (camera (f_nav (commit ops dt newPos n calls log))))]
    | None => []
    end.
Proof. unfold commit, setPosition, with_portal. cbn. destruct (portalSystem n); reflexivity. Qed.

(** A frame whose move is not rejected is the tail of the handler run
    after the checks of the arbiters consulted. *)
Lemma update_accepted env dt (n : Nav P) :
  NavSpec.rejected ops env dt n = false ->
  exists n' calls log,
    update ops env dt n = commit ops dt (candidate dt n) n' calls log
    /\ Forall (fun c => is_Some (arbiter_of c)) calls
    /\ camera n' = camera n
    /\ portalSystem n'
       = (if flyMode n then portalSystem n
          else (fun ps => snd (checkMovementBlocked ops ps (cam_position (camera n))
                                 (candidate dt n)))
               <$> portalSystem n).
Proof.
  unfold NavSpec.rejected, NavSpec.verdicts, update.
  destruct (flyMode n); cbn [negb andb].
  { intros _. exists n, [], []. repeat split. constructor. }
  destruct (CollisionSystem.blocked _) eqn:Hmesh; cbn -[commit candidate]; [discriminate|].
  destruct (wallCollisionEnabled n) eqn:Hwe; cbn -[commit candidate].
  - destruct (WallSystem.checkWallCollision _ _ _) eqn:Hwall; cbn -[commit candidate]; [discriminate|].
    destruct (portalSystem n) as [ps|] eqn:Hps; cbn -[commit candidate].
    + destruct (checkMovementBlocked ops ps _ _) as [b ps'] eqn:Hportal; cbn -[commit candidate].
      destruct b; cbn -[commit candidate]; [discriminate|]. intros _.
      eexists _, _, _. split; [reflexivity|].
      split; [repeat econstructor|].
      split; reflexivity.
    + intros _. eexists _, _, _. split; [reflexivity|].
      split; [repeat econstructor|].
      split; [reflexivity|]. cbn. now rewrite Hps.
  - destruct (portalSystem n) as [ps|] eqn:Hps; cbn -[commit candidate].
    + destruct (checkMovementBlocked ops ps _ _) as [b ps'] eqn:Hportal; cbn -[commit candidate].
      destruct b; cbn -[commit candidate]; [discriminate|]. intros _.
      eexists _, _, _. split; [reflexivity|].
      split; [repeat econstructor|].
      split; reflexivity.
    + intros _. eexists _, _, _. split; [reflexivity|].
      split; [repeat econstructor|].
      split; [reflexivity|]. cbn. now rewrite Hps.
Qed.

(** C7, as the handler has it.  A frame whose move is not rejected (fly
    mode, or every arbiter in force accepts) calls [setPosition] with the
    candidate position and then, when the portal system exists, its
    [update] and its [checkCollision], the latter with the position the
    camera reports after the commit: these three calls end the frame, after
    the checks of the arbiters, and the portal system is left as the two
    calls leave it.  A frame whose move is rejected makes no call on
    [setPosition], returns before either portal call, and leaves the camera
    where it was. *)
Theorem portal_update_on_commit :
  forall (env : Physics) (dt : float) (n : Nav P) (ps : P),
    portalSystem n = Some ps ->
    let f := update ops env dt n in
    (NavSpec.rejected ops env dt n = false ->
       committed f = Some (candidate dt n)
       /\ (exists checks,
             f_calls f
             = checks ++ [SetPosition (candidate dt n); PortalUpdate dt;
                          PortalCheckCollision (cam_position (camera (f_nav f)))]
             /\ Forall (fun c => is_Some (arbiter_of c)) checks)
       /\ portal_updates f
          = [PortalUpdate dt; PortalCheckCollision (cam_position (camera (f_nav f)))]
       /\ portalSystem (f_nav f) =
          Some (portal_checkCollision ops (cam_position (camera (f_nav f)))
                  (portal_update ops dt
                     (if flyMode n then ps
                      else snd (checkMovementBlocked ops ps
                                  (cam_position (camera n)) (candidate dt n))))))
    /\ (NavSpec.rejected ops env dt n = true ->
          committed f = None /\ portal_updates f = [] /\ camera (f_nav f) = camera n).
Proof.
  intros env dt n ps0 Hps0 f. subst f. split; intros Hrej.
  - destruct (update_accepted env dt n Hrej) as (n' & calls & log & -> & Hcalls & Hcam & Hps).
    assert (Hps' : portalSystem n'
                   = Some (if flyMode n then ps0
                           else snd (checkMovementBlocked ops ps0
                                       (cam_position (camera n)) (candidate dt n)))).
    { rewrite Hps, Hps0. now destruct (flyMode n). }
    split; [apply committed_commit|].
    split; [exists calls; split; [now rewrite commit_tail, Hps' | exact Hcalls]|].
    split.
    + unfold portal_updates. rewrite commit_tail, Hps', List.filter_app.
      replace (List.filter is_portal_update calls) with (@nil Call); [reflexivity|].
      clear -Hcalls. induction Hcalls as [|c l [a Hc] _ IH]; [reflexivity|].
      cbn. destruct c; cbn in *; try discriminate; exact IH.
    + now rewrite commit_camera, commit_portal, Hps'.
  - revert Hrej.
    walk_cases ops env dt n; try congruence;
      rewrite ?Hps0 in *; simplify_eq;
      rewrite ?Hportal; simpl;
      intros Hrej; try discriminate Hrej; repeat split; reflexivity.
Qed.

End Arbitration.

(** The arbitration theorem on the sample frame stopped by a wall: mesh and
    wall were consulted, the portal system was not, the camera stayed. *)
Lemma update_arbitration_witness :
  Main.consulted
    (Main.update Sample.counting_portal Sample.open_space Sample.dt60
       Sample.walking_into_wall)
  = [Mesh; Wall]
  /\ camera (Main.f_nav
       (Main.update Sample.counting_portal Sample.open_space Sample.dt60
          Sample.walking_into_wall))
     = camera Sample.walking_into_wall.
Proof.
  destruct (update_arbitration Sample.counting_portal Sample.open_space
              Sample.dt60 Sample.walking_into_wall) as [_ Hwalk].
  destruct (Hwalk eq_refl) as (Hc & Hrej & _).
  split.
  - rewrite Hc. vm_compute. reflexivity.
  - apply Hrej. vm_compute. reflexivity.
Defined.

(** The same theorem on the sample frame in the open whose coordinates are
    single-precision numbers: the move is committed, and the portal system
    is then updated, with the position committed. *)
Lemma portal_update_on_commit_witness :
  Main.committed
    (Main.update Sample.counting_portal Sample.open_space Sample.dt64
       Sample.walking_exact)
  = Some Sample.ahead_exact
  /\ Main.portal_updates
       (Main.update Sample.counting_portal Sample.open_space Sample.dt64
          Sample.walking_exact)
     = [PortalUpdate Sample.dt64; PortalCheckCollision Sample.ahead_exact].
Proof.
  destruct (portal_update_on_commit Sample.counting_portal Sample.open_space
              Sample.dt64 Sample.walking_exact 0 eq_refl) as [Hacc _].
  destruct Hacc as (Hc & _ & Hu & _); [vm_compute; reflexivity|].
  split; [rewrite Hc | rewrite Hu]; vm_compute; reflexivity.
Defined.

(** C7 as stated fails: on the sample frame stopped by a wall the portal
    system exists, yet the handler makes no call of its [update] or of its
    [checkCollision], and the portal state is untouched. *)
Lemma portal_not_updated_on_rejection :
  portalSystem Sample.walking_into_wall = Some 0
  /\ Main.consulted
       (Main.update Sample.counting_portal Sample.open_space Sample.dt60
          Sample.walking_into_wall) = [Mesh; Wall]
  /\ Main.portal_updates
       (Main.update Sample.counting_portal Sample.open_space Sample.dt60
          Sample.walking_into_wall) = []
  /\ portalSystem
       (Main.f_nav
          (Main.update Sample.counting_portal Sample.open_space Sample.dt60
             Sample.walking_into_wall)) = Some 0.
Proof. repeat split; vm_compute; reflexivity. Qed.

(** ** The readiness handshake *)

Section Handshake.
Import CollisionSystem HandshakeClock.

(** What one call of [_testPhysicsReady] can do: it issues at most one probe
    raycast, and it sets a timeout only when it issued none. *)
Lemma _testPhysicsReady_budget env cs :
  p_raycasts (_testPhysicsReady env cs) + length (p_timeouts (_testPhysicsReady env cs)) <= 1.
Proof.
  unfold _testPhysicsReady.
  destruct (physicsReady cs); simpl; [lia|].
  destruct (rigidbody env) as [rb|]; simpl; [|lia].
  destruct (collisionMesh cs); simpl; [|lia].
  destruct (dynamicsWorld rb); simpl; [|lia].
  destruct (raycastFirst rb _ _); simpl; lia.
Qed.

Lemma fire_budget i env h h' :
  fire i env h = Some h' ->
  h_raycasts h' + length (h_timers h') <= h_raycasts h + length (h_timers h).
Proof.
  unfold fire. destruct (h_timers h !! i) as [due|] eqn:Hi; [|discriminate].
  intros [= <-]. simpl.
  pose proof (_testPhysicsReady_budget env (h_system h)) as Hb.
  pose proof (lookup_lt_Some _ _ _ Hi) as Hlt.
  rewrite length_app, length_delete by eauto.
  unfold schedule. rewrite length_fmap. lia.
Qed.

Lemma run_budget evs : forall h h',
  run evs h = Some h' ->
  h_raycasts h' + length (h_timers h') <= h_raycasts h + length (h_timers h).
Proof.
  induction evs as [|[i env] evs IH]; simpl; intros h h' Hrun.
  - injection Hrun as <-. lia.
  - destruct (fire i env h) as [h1|] eqn:Hfire; [|discriminate].
    apply fire_budget in Hfire. apply IH in Hrun. lia.
Qed.

(** C6, as the code has it.  Setting up the collision mesh schedules three
    readiness tests, 100, 500 and 1000 ms later.  Whatever the physics
    subsystem does and however long the handshake runs, at most three probe
    raycasts are ever issued.  A test that finds the system ready does
    nothing; a test whose probe returns sets [physicsReady] and enables
    collision; a test whose probe throws logs the failure, leaves
    [physicsReady] false and sets no timeout; a test that finds the dynamics
    world uninitialised issues no probe and sets one timeout 100 ms later. *)
Theorem handshake_probes_bounded :
  forall (model : Ent) (now : nat) (cs : CollisionSystem)
         (evs : list (nat * Physics)) (h : Handshake),
    run evs (setup model now cs) = Some h ->
    h_raycasts h <= 3
    /\ h_timers (setup model now cs) = [now + 100; now + 500; now + 1000]
    /\ (forall env cs', physicsReady cs' = true ->
          _testPhysicsReady env cs' = mkProbed cs' [] [] 0)
    /\ (forall rb cs' m result,
          physicsReady cs' = false -> collisionMesh cs' = Some m ->
          dynamicsWorld rb = true ->
          raycastFirst rb (mkVec3 0 1 0) (mkVec3 0 0 0) = RayReturns result ->
          _testPhysicsReady (mkPhysics (Some rb)) cs'
          = mkProbed (set_ready true true cs') [] [] 1)
    /\ (forall rb cs' m err,
          physicsReady cs' = false -> collisionMesh cs' = Some m ->
          dynamicsWorld rb = true ->
          raycastFirst rb (mkVec3 0 1 0) (mkVec3 0 0 0) = RayThrows err ->
          _testPhysicsReady (mkPhysics (Some rb)) cs'
          = mkProbed (set_ready false (collisionEnabled cs') cs') []
                     [WarnRaycastTestFailed err] 1)
    /\ (forall rb cs' m,
          physicsReady cs' = false -> collisionMesh cs' = Some m ->
          dynamicsWorld rb = false ->
          _testPhysicsReady (mkPhysics (Some rb)) cs'
          = mkProbed cs' [100] [WarnNoDynamicsWorld] 0).
Proof.
  intros model now cs evs h Hrun.
  split; [|split; [reflexivity|]].
  - apply run_budget in Hrun. simpl in Hrun. lia.
  - repeat split.
    + intros env cs' Hr. unfold _testPhysicsReady. now rewrite Hr.
    + intros rb cs' m result Hr Hm Hw Hray. unfold _testPhysicsReady. simpl.
      now rewrite Hr, Hm, Hw, Hray.
    + intros rb cs' m err Hr Hm Hw Hray. unfold _testPhysicsReady. simpl.
      now rewrite Hr, Hm, Hw, Hray.
    + intros rb cs' m Hr Hm Hw. unfold _testPhysicsReady. simpl.
      now rewrite Hr, Hm, Hw.
Qed.

(** The handshake where the first test finds the raycast answering and the
    two later tests find the system ready: one probe in all. *)
Lemma handshake_probes_bounded_witness :
  h_raycasts
    (default started
       (run [(0, Sample.open_space); (0, Sample.open_space); (0, Sample.open_space)]
            (setup 1 0 constructor)))
  <= 3.
Proof.
  apply (handshake_probes_bounded 1 0 constructor
           [(0, Sample.open_space); (0, Sample.open_space); (0, Sample.open_space)]).
  vm_compute. reflexivity.
Defined.

(** While the dynamics world stays uninitialised every test sets the next
    one: the queue never drains. *)
Lemma tick_stalled h :
  physicsReady (h_system h) = false ->
  is_Some (collisionMesh (h_system h)) ->
  h_timers h <> [] ->
  exists h', tick Sample.stalled h = Some h'
    /\ physicsReady (h_system h') = false
    /\ is_Some (collisionMesh (h_system h'))
    /\ h_timers h' <> []
    /\ h_calls h' = S (h_calls h)
    /\ h_raycasts h' = h_raycasts h.
Proof.
  intros Hr [m Hm] Hne. unfold tick, fire.
  assert (Hlt : earliest (h_timers h) < length (h_timers h)).
  { clear -Hne. induction (h_timers h) as [|due rest IH]; [congruence|].
    simpl. destruct rest as [|d2 rest']; [simpl; lia|].
    destruct (due <=? _); [simpl; lia|].
    assert (d2 :: rest' <> []) as Hne' by congruence.
    specialize (IH Hne'). simpl in *. lia. }
  destruct (lookup_lt_is_Some_2 _ _ Hlt) as [due Hdue]. rewrite Hdue.
  eexists. split; [reflexivity|].
  unfold _testPhysicsReady. rewrite Hr, Hm. simpl.
  rewrite Hr, Hm. repeat split; eauto.
  intros Happ. apply app_eq_nil in Happ as [_ Happ]. discriminate.
Qed.

Lemma ticks_stalled n : forall h,
  physicsReady (h_system h) = false ->
  is_Some (collisionMesh (h_system h)) ->
  h_timers h <> [] ->
  exists h', ticks n Sample.stalled h = Some h'
    /\ h_calls h' = n + h_calls h
    /\ h_raycasts h' = h_raycasts h
    /\ physicsReady (h_system h') = false
    /\ h_timers h' <> [].
Proof.
  induction n as [|n IH]; intros h Hr Hm Hne; simpl.
  - exists h. auto.
  - destruct (tick_stalled h Hr Hm Hne) as (h1 & -> & Hr1 & Hm1 & Hne1 & Hc1 & Hp1).
    destruct (IH h1 Hr1 Hm1 Hne1) as (h2 & Hrun & Hc2 & Hp2 & Hr2 & Hne2).
    exists h2. repeat split; auto; lia.
Qed.

(** C6 as stated fails: the number of readiness tests is not bounded.  With
    a dynamics world that is never initialised, the handshake started by
    [_setupCollisionMesh] runs any number of tests, each setting the next,
    and the queue of timeouts never drains. *)
Lemma handshake_retries_unbounded :
  (~ exists N, forall n h, ticks n Sample.stalled started = Some h -> h_calls h <= N)
  /\ (forall n, exists h,
        ticks n Sample.stalled started = Some h
        /\ h_calls h = n /\ h_raycasts h = 0
        /\ physicsReady (h_system h) = false /\ h_timers h <> []).
Proof.
  assert (Hall : forall n, exists h,
        ticks n Sample.stalled started = Some h
        /\ h_calls h = n /\ h_raycasts h = 0
        /\ physicsReady (h_system h) = false /\ h_timers h <> []).
  { intros n.
    destruct (ticks_stalled n started) as (h & Hrun & Hc & Hp & Hr & Hne);
      [reflexivity | exists 1; reflexivity | discriminate |].
    exists h. simpl in Hc, Hp. repeat split; auto; lia. }
  split; [|exact Hall].
  intros [N HN]. destruct (Hall (S N)) as (h & Hrun & Hc & _).
  specialize (HN _ _ Hrun). lia.
Qed.

End Handshake.

(** ** The time toggle: runs *)

Section ToggleRuns.
Import TimeToggle ToggleSpec.
Context (cfg : ToggleConfig).

Lemma run_app evs1 : forall evs2 s,
  run cfg (evs1 ++ evs2) s =
  match run cfg evs1 s with
  | Some (s1, o1) =>
      match run cfg evs2 s1 with
      | Some (s2, o2) => Some (s2, o1 ++ o2)
      | None => None
      end
  | None => None
  end.
Proof.
  induction evs1 as [|ev evs1 IH]; intros evs2 s; simpl.
  - destruct (run cfg evs2 s) as [[s2 o2]|]; reflexivity.
  - destruct (step cfg ev s) as [[s1 o1]|]; [|reflexivity].
    rewrite IH. destruct (run cfg evs1 s1) as [[s2 o2]|]; [|reflexivity].
    destruct (run cfg evs2 s2) as [[s3 o3]|]; [|reflexivity].
    now rewrite app_assoc.
Qed.

(** A property of the constructed system that every step preserves holds
    of every reachable state. *)
Lemma run_preserves (I : Sys -> Prop) :
  (forall ev s s' o, I s -> step cfg ev s = Some (s', o) -> I s') ->
  forall evs s s' o, I s -> run cfg evs s = Some (s', o) -> I s'.
Proof.
  intros Hstep evs. induction evs as [|ev evs IH]; simpl; intros s s' o Hs Hrun.
  - now injection Hrun as <- _.
  - destruct (step cfg ev s) as [[s1 o1]|] eqn:H1; [|discriminate].
    destruct (run cfg evs s1) as [[s2 o2]|] eqn:H2; [|discriminate].
    injection Hrun as <- _. eauto.
Qed.

Lemma reachable_invariant (I : Sys -> Prop) :
  (forall s0, constructor cfg = Some s0 -> I s0) ->
  (forall ev s s' o, I s -> step cfg ev s = Some (s', o) -> I s') ->
  forall s, reachable cfg s -> I s.
Proof.
  intros Hinit Hstep s (s0 & evs & out & H0 & Hrun).
  eapply run_preserves; eauto.
Qed.

Lemma reachable_run evs s s' o :
  reachable cfg s -> run cfg evs s = Some (s', o) -> reachable cfg s'.
Proof.
  intros (s0 & evs0 & out0 & H0 & Hrun0) Hrun.
  exists s0, (evs0 ++ evs), (out0 ++ o). split; [assumption|].
  now rewrite run_app, Hrun0, Hrun.
Qed.

(** *** The lock discipline *)

Lemma some_pair {A B} (x : A * B) a b : Some x = Some (a, b) -> a = x.1 /\ b = x.2.
Proof. intros [= ->]. auto. Qed.

Lemma switch_count_app ws1 ws2 :
  switch_count (ws1 ++ ws2) = switch_count ws1 + switch_count ws2.
Proof. unfold switch_count. now rewrite List.filter_app, length_app. Qed.

Lemma take_waiter_count p ws k rest :
  take_waiter p ws = Some (k, rest) ->
  switch_count ws = (if is_switch k then 1 else 0) + switch_count rest.
Proof.
  revert k rest. induction ws as [|[q k0] ws IH]; simpl; intros k rest H; [discriminate|].
  case_bool_decide.
  - injection H as <- <-. unfold switch_count. simpl. destruct (is_switch k0); reflexivity.
  - destruct (take_waiter p ws) as [[k' rest']|]; [|discriminate].
    injection H as <- <-. specialize (IH _ _ eq_refl).
    unfold switch_count in *. simpl. destruct (is_switch k0); simpl; lia.
Qed.

Lemma transitions_app o1 o2 : transitions (o1 ++ o2) = transitions o1 + transitions o2.
Proof. unfold transitions. now rewrite List.filter_app, length_app. Qed.

Lemma settle_lock p st s : lock_view (settle p st s) = lock_view s.
Proof. reflexivity. Qed.

Lemma loadTimeState_lock timeId s :
  lock_view (loadTimeState cfg timeId s).1.2 = lock_view s.
Proof. unfold loadTimeState, new_promise. repeat case_match; simplify_eq; reflexivity. Qed.

Lemma loadTimeState_quiet timeId s : transitions (loadTimeState cfg timeId s).2 = 0.
Proof. unfold loadTimeState, new_promise. repeat case_match; simplify_eq; reflexivity. Qed.

Lemma run_raf_lock s cb : lock_view (run_raf s cb) = lock_view s.
Proof. destruct cb; simpl; [reflexivity|]. now rewrite settle_lock. Qed.

Lemma animationFrame_lock s : lock_view (animationFrame s) = lock_view s.
Proof.
  unfold animationFrame.
  change (lock_view s) with (lock_view (set_rafQueue [] s)).
  generalize (set_rafQueue [] s).
  induction (rafQueue s) as [|cb l IH]; intros s0; simpl.
  - reflexivity.
  - now rewrite IH, run_raf_lock.
Qed.

Lemma assetReady_lock a s s' o :
  assetReady cfg a s = Some (s', o) -> lock_view s' = lock_view s /\ transitions o = 0.
Proof.
  unfold assetReady. intros H. repeat case_match; simplify_eq;
    rewrite settle_lock; split; reflexivity.
Qed.

Lemma assetError_lock a cause s s' o :
  assetError a cause s = Some (s', o) -> lock_view s' = lock_view s /\ transitions o = 0.
Proof.
  unfold assetError. intros H. repeat case_match; simplify_eq;
    rewrite settle_lock; split; reflexivity.
Qed.

Lemma intervalTick_lock p s s' o :
  intervalTick p s = Some (s', o) -> lock_view s' = lock_view s /\ transitions o = 0.
Proof.
  unfold intervalTick. intros H. repeat case_match; simplify_eq;
    rewrite ?settle_lock; split; reflexivity.
Qed.

Lemma switch_loaded_lock timeId s :
  timeouts (switch_loaded timeId s).1 = timeouts s
  /\ activeTimeId (switch_loaded timeId s).1 = activeTimeId s
  /\ transitions (switch_loaded timeId s).2 = 0
  /\ ((exists q, waiters (switch_loaded timeId s).1 = waiters s ++ [(q, KSwitchFrames timeId)])
      /\ switchLock (switch_loaded timeId s).1 = switchLock s
      \/ waiters (switch_loaded timeId s).1 = waiters s
         /\ switchLock (switch_loaded timeId s).1 = false
         /\ (splatEntities s !! activeTimeId s = None \/ splatEntities s !! timeId = None)).
Proof.
  unfold switch_loaded, new_promise.
  destruct (splatEntities s !! activeTimeId s) as [fromEntity|];
    [destruct (splatEntities s !! timeId) as [toEntity|]|]; simpl; eauto 10.
Qed.

Lemma switch_finish_lock timeId s :
  waiters (switch_finish cfg timeId s).1 = waiters s
  /\ switchLock (switch_finish cfg timeId s).1 = switchLock s
  /\ timeouts (switch_finish cfg timeId s).1 = timeouts s ++ [switchCooldown]
  /\ activeTimeId (switch_finish cfg timeId s).1 = timeId
  /\ transitions (switch_finish cfg timeId s).2 = 1.
Proof.
  unfold switch_finish, updateButtonLabel. simpl.
  destruct (onTimeChange s); simpl; auto.
Qed.

Lemma untouched_by_view ev s s' o :
  lock_view s' = lock_view s -> transitions o = 0 -> lock_effect ev s s' o.
Proof.
  intros [= Hl Hw Ht Ha] Hq. apply Untouched; auto. unfold in_flight. now rewrite Hw.
Qed.

(** A caller that is not a switch protocol starts to wait. *)
Lemma untouched_by_await ev s s1 p k o :
  lock_view s1 = lock_view s -> is_switch k = false -> transitions o = 0 ->
  lock_effect ev s (await p k s1) o.
Proof.
  intros [= Hl Hw Ht Ha] Hk Hq. apply Untouched; auto.
  unfold in_flight, await. simpl. rewrite Hw, switch_count_app.
  unfold switch_count at 2. simpl. rewrite Hk. simpl. lia.
Qed.

Lemma switchToTime_dropped timeId s :
  switchLock s = true ->
  switchToTime cfg timeId s =
  (s, if bool_decide (timeId = activeTimeId s) then [] else [Console LogSwitchLocked]).
Proof. intros H. unfold switchToTime. rewrite H. case_bool_decide; reflexivity. Qed.

Lemma switchToTime_lock ev timeId s :
  lock_effect ev s (switchToTime cfg timeId s).1 (switchToTime cfg timeId s).2.
Proof.
  unfold switchToTime. case_bool_decide; [now apply untouched_by_view|].
  destruct (switchLock s) eqn:Hl; [now apply untouched_by_view|].
  case_bool_decide; simpl.
  - destruct (switch_loaded_lock timeId (set_switchLock true s))
      as (Ht & Ha & Hq & [[[q Hw] Hk] | (Hw & Hk & _)]);
      destruct (switch_loaded timeId (set_switchLock true s)) as [s1 o1]; simpl in *.
    + apply Acquired; auto. unfold in_flight. rewrite Hw, switch_count_app.
      unfold switch_count at 2. simpl. lia.
    + apply Untouched; auto; try congruence. unfold in_flight. now rewrite Hw.
  - set (s1 := set_toggleBtn _ _).
    assert (Hv : lock_view s1 = lock_view (set_switchLock true s)) by reflexivity.
    pose proof (loadTimeState_lock timeId s1) as Hv2.
    pose proof (loadTimeState_quiet timeId s1) as Hq.
    destruct (loadTimeState cfg timeId s1) as [[p s2] o2]. simpl in *.
    rewrite Hv in Hv2. injection Hv2 as Hl2 Hw2 Ht2 Ha2.
    apply Acquired; simpl; auto.
    unfold in_flight. simpl. rewrite Hw2, switch_count_app.
    unfold switch_count at 2. simpl. lia.
Qed.

(** Every step has one of the six effects. *)
Lemma step_lock ev s s' o :
  step cfg ev s = Some (s', o) -> lock_effect ev s s' o.
Proof.
  destruct ev; simpl; intros Hstep.
  - apply some_pair in Hstep as [-> ->]. unfold initialize.
    set (s1 := updateButtonLabel _ _).
    assert (Hv : lock_view s1 = lock_view s) by reflexivity.
    pose proof (loadTimeState_lock (activeTimeId s1) s1) as Hv2.
    pose proof (loadTimeState_quiet (activeTimeId s1) s1) as Hq.
    destruct (loadTimeState cfg (activeTimeId s1) s1) as [[p s2] o2]. simpl in *.
    apply untouched_by_await; auto; congruence.
  - apply some_pair in Hstep as [-> ->]. apply switchToTime_lock.
  - apply some_pair in Hstep as [-> ->]. unfold toggle.
    repeat case_match; try (now apply untouched_by_view). apply switchToTime_lock.
  - apply some_pair in Hstep as [-> ->]. unfold handleKeyboard.
    repeat case_match; try (now apply untouched_by_view); apply switchToTime_lock.
  - pose proof (loadTimeState_lock timeId s) as Hv2.
    pose proof (loadTimeState_quiet timeId s) as Hq.
    destruct (loadTimeState cfg timeId s) as [[p s2] o2]. simpl in *.
    injection Hstep as <- <-. now apply untouched_by_await.
  - injection Hstep as <- <-. now apply untouched_by_view.
  - apply assetReady_lock in Hstep as [Hv Hq]. now apply untouched_by_view.
  - apply assetError_lock in Hstep as [Hv Hq]. now apply untouched_by_view.
  - apply intervalTick_lock in Hstep as [Hv Hq]. now apply untouched_by_view.
  - unfold microtask in Hstep.
    destruct (take_waiter p (waiters s)) as [[k rest]|] eqn:Htake; [|discriminate].
    pose proof (take_waiter_count _ _ _ _ Htake) as Hcount.
    destruct (promises s !! p) as [[|v|cause]|] eqn:Hp; try discriminate.
    + apply some_pair in Hstep as [-> ->].
      destruct k as [timeId|timeId| |tag]; cbn [resume].
      * destruct (switch_loaded_lock timeId (set_waiters rest s))
          as (Ht & Ha & Hq & [[[q Hw] Hk] | (Hw & Hk & Hmiss)]).
        -- apply Untouched; auto.
           all: unfold in_flight; rewrite Hw, switch_count_app, Hcount;
             unfold switch_count at 2; simpl; lia.
        -- eapply MissingEntities; eauto.
           all: unfold in_flight; rewrite Hw, Hcount; simpl; lia.
      * destruct (switch_finish_lock timeId (set_waiters rest s))
          as (Hw & Hk & Ht & Ha & Hq).
        eapply Finished; eauto.
        all: unfold in_flight; rewrite Hw, Hcount; simpl; lia.
      * apply Untouched; auto.
        all: unfold in_flight; simpl; rewrite Hcount; simpl; lia.
      * apply Untouched; auto.
        all: unfold in_flight; simpl; rewrite Hcount; simpl; lia.
    + injection Hstep as <- <-. destruct (is_switch k) eqn:Hk.
      * eapply Abandoned; eauto.
        all: unfold in_flight; simpl; rewrite Hcount, Hk; lia.
      * apply Untouched; auto.
        all: unfold in_flight; simpl; rewrite Hcount, Hk; lia.
  - injection Hstep as <- <-. apply untouched_by_view; [|reflexivity].
    apply animationFrame_lock.
  - unfold timeout in Hstep. destruct (timeouts s !! i) eqn:Hi; [|discriminate].
    injection Hstep as <- <-. eapply CooledDown; eauto. simpl.
    rewrite length_delete by eauto. apply lookup_lt_Some in Hi. lia.
Qed.

Lemma lock_inv_init s0 : constructor cfg = Some s0 -> lock_inv s0.
Proof.
  unfold constructor. destruct (times cfg); [discriminate|].
  intros [= <-]. unfold lock_inv, in_flight. simpl. lia.
Qed.

Lemma lock_inv_step ev s s' o :
  lock_inv s -> step cfg ev s = Some (s', o) -> lock_inv s'.
Proof.
  unfold lock_inv. intros Hinv Hstep.
  destruct (step_lock _ _ _ _ Hstep) as
    [Ha Hl Hf Ht Hq | Ha Hl Hl' Hf Ht Hq | p timeId rest _ _ _ Ha Hl Hf Ht Hq
     | p timeId rest _ _ Ha Hl Hf Ht Hq | p k rest cause _ _ _ _ Ha Hl Hf Ht Hq
     | i _ Ha Hl Hf Ht Hq];
    rewrite ?Hl, ?Hl', ?Ht, ?Hf in *; rewrite ?length_app; simpl;
    destruct (switchLock s); simpl in *; try lia.
Qed.

Lemma lock_inv_reachable s : reachable cfg s -> lock_inv s.
Proof.
  apply reachable_invariant; [apply lock_inv_init|].
  intros ev s1 s2 o. apply lock_inv_step.
Qed.

(** A stuck lock stays stuck: no step releases it, no transition is
    completed, and the active time state stays. *)
Lemma stuck_step ev s s' o :
  stuck s -> step cfg ev s = Some (s', o) ->
  stuck s' /\ activeTimeId s' = activeTimeId s /\ transitions o = 0.
Proof.
  unfold stuck. intros (Hlock & Hflight & Htime) Hstep.
  destruct (step_lock _ _ _ _ Hstep) as
    [Ha Hl Hf Ht Hq | Ha Hl Hl' Hf Ht Hq | p timeId rest _ _ _ Ha Hl Hf Ht Hq
     | p timeId rest _ _ Ha Hl Hf Ht Hq | p k rest cause _ _ _ _ Ha Hl Hf Ht Hq
     | i _ Ha Hl Hf Ht Hq];
    try (rewrite Htime in Ht; simpl in Ht); try congruence; try lia.
  repeat split; congruence.
Qed.

Lemma stuck_run evs : forall s s' o,
  stuck s -> run cfg evs s = Some (s', o) ->
  stuck s' /\ activeTimeId s' = activeTimeId s /\ transitions o = 0.
Proof.
  induction evs as [|ev evs IH]; simpl; intros s s' o Hs Hrun.
  - injection Hrun as <- <-. auto.
  - destruct (step cfg ev s) as [[s1 o1]|] eqn:H1; [|discriminate].
    destruct (run cfg evs s1) as [[s2 o2]|] eqn:H2; [|discriminate].
    injection Hrun as <- <-.
    destruct (stuck_step _ _ _ _ Hs H1) as (Hs1 & Ha1 & Hq1).
    destruct (IH _ _ _ Hs1 H2) as (Hs2 & Ha2 & Hq2).
    rewrite transitions_app. repeat split; try apply Hs2; try congruence; lia.
Qed.

(** While no cooldown timeout fires, every completed transition leaves one
    more timeout pending. *)
Lemma window_run evs : forall s s' o,
  forallb (fun ev => negb (is_timeout ev)) evs = true ->
  run cfg evs s = Some (s', o) ->
  transitions o + length (timeouts s) = length (timeouts s').
Proof.
  induction evs as [|ev evs IH]; simpl; intros s s' o Hevs Hrun.
  - injection Hrun as <- <-. reflexivity.
  - apply andb_true_iff in Hevs as [Hev Hevs].
    destruct (step cfg ev s) as [[s1 o1]|] eqn:H1; [|discriminate].
    destruct (run cfg evs s1) as [[s2 o2]|] eqn:H2; [|discriminate].
    injection Hrun as <- <-. specialize (IH _ _ _ Hevs H2).
    rewrite transitions_app.
    destruct (step_lock _ _ _ _ H1) as
      [Ha Hl Hf Ht Hq | Ha Hl Hl' Hf Ht Hq | p timeId rest _ _ _ Ha Hl Hf Ht Hq
       | p timeId rest _ _ Ha Hl Hf Ht Hq | p k rest cause _ _ _ _ Ha Hl Hf Ht Hq
       | i Hi Ha Hl Hf Ht Hq];
      try (subst ev; discriminate);
      rewrite Ht in IH; rewrite ?length_app in IH; simpl in IH; lia.
Qed.

End ToggleRuns.

(** ** The switch protocol *)

Section SwitchProtocol.
Import TimeToggle ToggleSpec.

Lemma final_reachable c evs s o :
  ToggleSample.final c evs = Some (s, o) -> reachable c s.
Proof.
  unfold ToggleSample.final. destruct (constructor c) as [s0|] eqn:H0; [|discriminate].
  intros Hrun. exists s0, evs, o. auto.
Qed.

Lemma sample_reachable evs :
  is_Some (ToggleSample.final ToggleSample.cfg evs) ->
  reachable ToggleSample.cfg (ToggleSample.state_after evs).
Proof.
  unfold ToggleSample.state_after. intros [[s o] H]. rewrite H.
  eapply final_reachable; eauto.
Qed.

(** A call of [switchToTime] made while the lock is held can be struck from
    a run: the states that follow are the same. *)
Lemma switchToTime_struck cfg s evs1 evs2 timeId s1 o1 :
  run cfg evs1 s = Some (s1, o1) -> switchLock s1 = true ->
  fst <$> run cfg (evs1 ++ SwitchToTime timeId :: evs2) s
  = fst <$> run cfg (evs1 ++ evs2) s.
Proof.
  intros Hrun Hlock. rewrite !run_app, Hrun. simpl.
  rewrite switchToTime_dropped by assumption.
  destruct (run cfg evs2 s1) as [[s2 o2]|]; reflexivity.
Qed.

(** C1.  The switch protocol is exclusive and debounced.  A call of
    [switchToTime] that finds the lock held returns at once with the state
    as it was, logging the refusal unless the time state asked for is the
    active one; the call is dropped, not queued: striking it from any run
    leaves all later states the same.  In every reachable state at most one
    switch protocol is in flight, it holds the lock, and a free lock means
    none is in flight and no cooldown is pending.  In any stretch of a run
    in which no cooldown timeout fires, at most one transition completes,
    whatever the number of calls.  In the sample run, where the second time
    state is asked for twice while loading and twice more inside the
    cooldown, exactly one transition completes and one load is requested. *)
Theorem switch_debounced_exclusive :
  forall cfg : ToggleConfig,
    (forall s timeId,
       switchLock s = true ->
       step cfg (SwitchToTime timeId) s
       = Some (s, if bool_decide (timeId = activeTimeId s) then []
                  else [Console LogSwitchLocked]))
    /\ (forall s evs1 evs2 timeId s1 o1,
          run cfg evs1 s = Some (s1, o1) -> switchLock s1 = true ->
          fst <$> run cfg (evs1 ++ SwitchToTime timeId :: evs2) s
          = fst <$> run cfg (evs1 ++ evs2) s)
    /\ (forall s,
          reachable cfg s ->
          in_flight s <= 1
          /\ (in_flight s = 1 -> switchLock s = true /\ timeouts s = [])
          /\ (switchLock s = false -> in_flight s = 0 /\ timeouts s = []))
    /\ (forall s evs s' out,
          reachable cfg s ->
          forallb (fun ev => negb (is_timeout ev)) evs = true ->
          run cfg evs s = Some (s', out) ->
          transitions out <= 1)
    /\ (transitions (ToggleSample.output_of ToggleSample.double_switch) = 1
        /\ activeTimeId (ToggleSample.state_after ToggleSample.double_switch) = "secondary"
        /\ requests_for "secondary" (ToggleSample.state_after ToggleSample.double_switch) = 1
        /\ switchLock (ToggleSample.state_after ToggleSample.double_switch) = true).
Proof.
  intros cfg. split; [|split; [|split; [|split]]].
  - intros s timeId Hlock. simpl. now rewrite switchToTime_dropped.
  - intros s evs1 evs2 timeId s1 o1. apply switchToTime_struck.
  - intros s Hs. apply lock_inv_reachable in Hs. unfold lock_inv in Hs.
    destruct (switchLock s); repeat split; try lia; try discriminate;
      intros; apply length_zero_iff_nil; lia.
  - intros s evs s' out Hs Hevs Hrun.
    pose proof (window_run cfg _ _ _ _ Hevs Hrun) as Hwin.
    pose proof (lock_inv_reachable cfg _ (reachable_run cfg _ _ _ _ Hs Hrun)) as Hinv.
    unfold lock_inv in Hinv. destruct (switchLock s'); lia.
  - repeat split; vm_compute; reflexivity.
Qed.

(** The theorem on the sample run cut where the load of the second time
    state is still pending: one protocol in flight, holding the lock. *)
Lemma switch_debounced_exclusive_witness :
  in_flight (ToggleSample.state_after
               (ToggleSample.boot ++ [SwitchToTime "secondary"])) <= 1
  /\ step ToggleSample.cfg (SwitchToTime "secondary")
       (ToggleSample.state_after (ToggleSample.boot ++ [SwitchToTime "secondary"]))
     = Some (ToggleSample.state_after (ToggleSample.boot ++ [SwitchToTime "secondary"]),
             [Console LogSwitchLocked]).
Proof.
  destruct (switch_debounced_exclusive ToggleSample.cfg) as (Hdrop & _ & Hexcl & _).
  split.
  - apply Hexcl. apply sample_reachable. vm_compute. eexists. reflexivity.
  - rewrite Hdrop by (vm_compute; reflexivity). vm_compute. reflexivity.
Defined.

(** C10.  When the promise awaited by [switchToTime] at its load is
    rejected, the call ends with that rejection and nothing else changes:
    the lock, taken before the load, stays held.  From then on it is never
    released: in every later state the lock is held, the active time state
    is the same, no transition completes, and every call of [switchToTime]
    naming another time state is refused.  A held lock is released by two
    steps only: a cooldown timeout firing, and the resumption of
    [switchToTime] after its load finding an entity missing. *)
Theorem switchLock_stuck_after_failed_load :
  forall (cfg : ToggleConfig) (s : Sys) (p : PromiseId) (timeId cause : string)
         (rest : list (PromiseId * Cont)),
    reachable cfg s ->
    take_waiter p (waiters s) = Some (KSwitchLoad timeId, rest) ->
    promises s !! p = Some (PRejected cause) ->
    step cfg (Microtask p) s
    = Some (set_waiters rest s, [Rejected (KSwitchLoad timeId) cause])
    /\ switchLock (set_waiters rest s) = true
    /\ (forall evs s' out,
          run cfg evs (set_waiters rest s) = Some (s', out) ->
          switchLock s' = true
          /\ activeTimeId s' = activeTimeId s
          /\ transitions out = 0
          /\ forall other, other <> activeTimeId s' ->
               switchToTime cfg other s' = (s', [Console LogSwitchLocked]))
    /\ (forall ev s1 s2 o,
          step cfg ev s1 = Some (s2, o) ->
          switchLock s1 = true -> switchLock s2 = false ->
          (exists i, ev = Timeout i /\ is_Some (timeouts s1 !! i))
          \/ (exists q target others,
                ev = Microtask q
                /\ take_waiter q (waiters s1) = Some (KSwitchLoad target, others)
                /\ (splatEntities s1 !! activeTimeId s1 = None
                    \/ splatEntities s1 !! target = None))).
Proof.
  intros cfg s p timeId cause rest Hs Htake Hp.
  assert (Hstep : step cfg (Microtask p) s
                  = Some (set_waiters rest s, [Rejected (KSwitchLoad timeId) cause])).
  { simpl. unfold microtask. now rewrite Htake, Hp. }
  pose proof (take_waiter_count _ _ _ _ Htake) as Hcount. simpl in Hcount.
  pose proof (lock_inv_reachable cfg _ Hs) as Hinv. unfold lock_inv, in_flight in Hinv.
  assert (Hlock : switchLock s = true) by (destruct (switchLock s); [reflexivity | lia]).
  rewrite Hlock in Hinv.
  assert (Hstuck : stuck (set_waiters rest s)).
  { unfold stuck, in_flight. simpl. repeat split; [assumption | lia |].
    apply length_zero_iff_nil. lia. }
  split; [exact Hstep|]. split; [exact Hlock|]. split.
  - intros evs s' out Hrun.
    destruct (stuck_run cfg _ _ _ _ Hstuck Hrun) as ((Hl & _ & _) & Ha & Hq).
    repeat split; auto.
    intros other Hother. rewrite switchToTime_dropped by assumption.
    now rewrite bool_decide_eq_false_2.
  - intros ev s1 s2 o Hst Hl1 Hl2.
    destruct (step_lock cfg _ _ _ _ Hst) as
      [Ha Hl Hf Ht Hq | Ha Hl Hl' Hf Ht Hq | q target others Hev Htk Hmiss Ha Hl Hf Ht Hq
       | q target others _ _ Ha Hl Hf Ht Hq | q k others c _ _ _ _ Ha Hl Hf Ht Hq
       | i Hev Ha Hl Hf Ht Hq]; try congruence.
    + right. eauto 10.
    + left. exists i. split; [assumption|]. subst ev. simpl in Hst.
      unfold timeout in Hst. destruct (timeouts s1 !! i); [eauto | discriminate].
Qed.

(** The theorem on the sample run in which the load of the second time
    state fails under [switchToTime]: the toggle button, a direct call and
    the keyboard shortcut are all refused afterwards. *)
Lemma switchLock_stuck_after_failed_load_witness :
  switchLock (ToggleSample.state_after ToggleSample.dead_button) = true
  /\ activeTimeId (ToggleSample.state_after ToggleSample.dead_button) = "primary".
Proof.
  destruct (switchLock_stuck_after_failed_load ToggleSample.cfg
              (ToggleSample.state_after ToggleSample.failed_switch)
              3 "secondary" "404" [])
    as (_ & _ & Hforever & _).
  - apply sample_reachable. vm_compute. eexists. reflexivity.
  - vm_compute. reflexivity.
  - vm_compute. reflexivity.
  - destruct (Hforever [Toggle; SwitchToTime "secondary"; HandleKeyboard "BracketRight"]
                (ToggleSample.state_after ToggleSample.dead_button)
                [Console LogSwitchLocked; Console LogSwitchLocked; Console LogSwitchLocked])
      as (Hl & Ha & _).
    + vm_compute. reflexivity.
    + split; [exact Hl|]. rewrite Ha. vm_compute. reflexivity.
Defined.

End SwitchProtocol.

(** *** Well-formedness of the bookkeeping *)

Section ToggleWf.
Import TimeToggle ToggleSpec.
Context (cfg : ToggleConfig).

Lemma wf_ext s s' : wf_view s' = wf_view s -> wf cfg s -> wf cfg s'.
Proof.
  intros [= Hp Ha He Hn Hl Hsa Hi Hr Hse Hw] [].
  constructor; rewrite ?Hp, ?Ha, ?He, ?Hn, ?Hl, ?Hsa, ?Hi, ?Hr, ?Hse, ?Hw; assumption.
Qed.

Lemma wf_await p k s :
  wf cfg s ->
  (forall timeId, k = KSwitchFrames timeId -> is_Some (splatEntities s !! timeId)) ->
  wf cfg (await p k s).
Proof.
  intros [] Hk. constructor; simpl; try assumption.
  intros q timeId [Hin | Hin%list_elem_of_singleton]%elem_of_app; [eauto|].
  injection Hin as -> <-. eauto.
Qed.

(** Allocating a fresh promise that no resolver refers to yet. *)
Lemma wf_new_promise st s :
  wf cfg s -> wf cfg (new_promise st s).2.
Proof.
  intros []. unfold new_promise. constructor; simpl.
  - intros p st' H. apply lookup_insert_Some in H as [[<- _] | [_ H]]; [lia|].
    apply wf_promises0 in H. lia.
  - intros a x H. apply wf_assets0 in H. lia.
  - intros e x H. apply wf_entities0 in H. lia.
  - intros a x H1 H2. destruct (wf_requested0 a x H1 H2) as (? & ? & Hp & ?).
    repeat split; auto. rewrite lookup_insert_ne; [assumption|].
    apply wf_promises0 in Hp. lia.
  - intros p timeId H. pose proof (wf_intervals0 _ _ H) as Hp.
    rewrite lookup_insert_ne; [assumption|]. apply wf_promises0 in Hp. lia.
  - intros cb H. destruct (wf_raf0 _ H) as (st' & Hp & Hf). exists st'.
    rewrite lookup_insert_ne; [auto|]. apply wf_promises0 in Hp. lia.
  - assumption.
  - assumption.
  - assumption.
  - assumption.
Qed.

(** The state after a new load request for [timeId]. *)
Lemma wf_request timeId timeConfig s :
  wf cfg s ->
  find (has_id timeId) (times cfg) = Some timeConfig ->
  loadingStates s !! timeId <> Some Loading ->
  loadingStates s !! timeId <> Some Loaded ->
  wf cfg
    (set_loadRequests (loadRequests s ++ [(S (next s), timeId)])
       (set_splatAssets (<[timeId := S (next s)]> (splatAssets s))
          (set_assets
             (<[S (next s) :=
                  mkAsset timeId (t_path timeConfig +:+ "lod-meta.json") (next s)
                          AssetRequested]> (assets s))
             (set_next (S (S (next s)))
                (new_promise (PPending (ByAsset (S (next s))))
                   (set_loadingStates (<[timeId := Loading]> (loadingStates s)) s)).2)))).
Proof.
  intros [] Hfind Hnl Hnd. unfold new_promise. constructor; simpl.
  - intros p st H. apply lookup_insert_Some in H as [[<- _] | [_ H]]; [lia|].
    apply wf_promises0 in H. lia.
  - intros a x H. apply lookup_insert_Some in H as [[<- _] | [_ H]]; [lia|].
    apply wf_assets0 in H. lia.
  - intros e x H. apply wf_entities0 in H. lia.
  - intros a x H Hst. apply lookup_insert_Some in H as [[<- <-] | [Hne H]]; simpl.
    + rewrite !lookup_insert_eq. repeat split; auto. unfold configured. eauto.
    + destruct (wf_requested0 a x H Hst) as (Hl & Hsa & Hp & Hc).
      assert (a_timeId x <> timeId) by congruence.
      rewrite !lookup_insert_ne by auto. repeat split; auto.
      rewrite lookup_insert_ne; [assumption|]. apply wf_promises0 in Hp. lia.
  - intros p id H. pose proof (wf_intervals0 _ _ H) as Hp.
    rewrite lookup_insert_ne; [assumption|]. apply wf_promises0 in Hp. lia.
  - intros cb H. destruct (wf_raf0 _ H) as (st' & Hp & Hf). exists st'.
    rewrite lookup_insert_ne; [auto|]. apply wf_promises0 in Hp. lia.
  - intros id e H. destruct (wf_handles0 _ _ H) as (Hl & He & Hc).
    assert (id <> timeId) by congruence.
    rewrite lookup_insert_ne by auto. auto.
  - intros id H. apply lookup_insert_Some in H as [[_ [=]] | [_ H]]. auto.
  - assumption.
  - assumption.
Qed.

Lemma wf_loadTimeState timeId s :
  wf cfg s -> wf cfg (loadTimeState cfg timeId s).1.2.
Proof.
  intros Hwf. unfold loadTimeState.
  destruct (find (has_id timeId) (times cfg)) as [timeConfig|] eqn:Hfind.
  2:{ apply (wf_new_promise (PResolved None)); assumption. }
  destruct (loadingStates s !! timeId) as [[| |]|] eqn:Hstate.
  - pose proof (wf_new_promise (PPending ByInterval) s Hwf) as [].
    unfold new_promise in *. simpl in *. constructor; simpl; try assumption.
    + intros p id [Hin | Hin%list_elem_of_singleton]%elem_of_app; [eauto|].
      injection Hin as -> <-. apply lookup_insert_eq.
    + rewrite fmap_app. simpl. apply NoDup_app. repeat split.
      * assumption.
      * intros p Hp Hp'. apply list_elem_of_singleton in Hp'. subst p.
        apply list_elem_of_fmap in Hp as ([q id] & Hq & Hin). simpl in Hq. subst q.
        destruct Hwf. apply wf_intervals1 in Hin. apply wf_promises1 in Hin. lia.
      * apply NoDup_singleton.
  - apply (wf_new_promise (PResolved _)); assumption.
  - exact (wf_request timeId timeConfig s Hwf Hfind
             ltac:(congruence) ltac:(congruence)).
  - exact (wf_request timeId timeConfig s Hwf Hfind
             ltac:(congruence) ltac:(congruence)).
Qed.

Lemma loadTimeState_frame timeId s :
  waiters (loadTimeState cfg timeId s).1.2 = waiters s
  /\ splatEntities (loadTimeState cfg timeId s).1.2 = splatEntities s
  /\ entities (loadTimeState cfg timeId s).1.2 = entities s
  /\ activeTimeId (loadTimeState cfg timeId s).1.2 = activeTimeId s.
Proof. unfold loadTimeState, new_promise. repeat case_match; simplify_eq; auto. Qed.

Lemma wf_enable e b s : wf cfg s -> wf cfg (enable e b s).
Proof.
  intros []. constructor; simpl; try assumption.
  - intros e' x H. apply lookup_alter_Some in H as [(_ & y & H & _) | [_ H]]; eauto.
  - intros id e' H. destruct (wf_handles0 _ _ H) as (Hl & [y He] & Hc).
    repeat split; auto. destruct (decide (e = e')) as [->|Hne].
    + rewrite lookup_alter_eq, He. simpl. eauto.
    + rewrite lookup_alter_ne by auto. eauto.
Qed.

Lemma wf_settle p st s :
  wf cfg s ->
  (forall r, promises s !! p = Some (PPending r) ->
     frames_or_settled st /\
     match r with
     | ByAsset a => forall x, assets s !! a = Some x -> a_status x <> AssetRequested
     | ByInterval => forall timeId, (p, timeId) ∉ intervals s
     | ByFrames => True
     end) ->
  wf cfg (settle p st s).
Proof.
  intros [] Hown. unfold settle.
  destruct (promises s !! p) as [[r| |]|] eqn:Hp;
    try (constructor; simpl; assumption).
  destruct (Hown r eq_refl) as [Hst Hr].
  constructor; simpl; try assumption.
  - intros q st' H. apply lookup_insert_Some in H as [[<- _] | [_ H]]; eauto.
  - intros a x H Hreq. destruct (wf_requested0 a x H Hreq) as (Hl & Hsa & Hq & Hc).
    repeat split; auto. rewrite lookup_insert_ne; [assumption|].
    intros Heq. rewrite <- Heq, Hp in Hq. injection Hq as ->. eapply Hr; eauto.
  - intros q id H. pose proof (wf_intervals0 _ _ H) as Hq.
    rewrite lookup_insert_ne; [assumption|].
    intros Heq. subst q. rewrite Hp in Hq. injection Hq as ->. eapply Hr; eauto.
  - intros cb H. destruct (wf_raf0 _ H) as (st' & Hq & Hf).
    destruct (decide (p = raf_promise cb)) as [->|Hne].
    + exists st. rewrite lookup_insert_eq. auto.
    + exists st'. rewrite lookup_insert_ne by auto. auto.
Qed.


(** Two assets awaited for one time state are the same asset. *)
Lemma requested_unique s a x a' x' :
  wf cfg s ->
  assets s !! a = Some x -> a_status x = AssetRequested ->
  assets s !! a' = Some x' -> a_status x' = AssetRequested ->
  a_timeId x' = a_timeId x -> a' = a.
Proof.
  intros [] H1 H2 H3 H4 Heq.
  destruct (wf_requested0 _ _ H1 H2) as (_ & Hsa & _).
  destruct (wf_requested0 _ _ H3 H4) as (_ & Hsa' & _).
  rewrite Heq in Hsa'. congruence.
Qed.

Lemma wf_assetReady a s s' o :
  wf cfg s -> assetReady cfg a s = Some (s', o) -> wf cfg s'.
Proof.
  intros Hwf. unfold assetReady.
  destruct (assets s !! a) as [asset|] eqn:Ha; [|discriminate].
  destruct (a_status asset) eqn:Hst; try discriminate.
  intros [= <- _].
  pose proof (requested_unique s a asset) as Huniq.
  destruct Hwf. destruct (wf_requested0 _ _ Ha Hst) as (Hload & Hsa & Hp & Hc).
  apply wf_settle.
  - constructor; simpl; try assumption.
    + intros p st H. apply wf_promises0 in H. lia.
    + intros a' x H. apply lookup_insert_Some in H as [[<- _] | [_ H]].
      * apply wf_assets0 in Ha. lia.
      * apply wf_assets0 in H. lia.
    + intros e x H. apply lookup_insert_Some in H as [[<- _] | [_ H]]; [lia|].
      apply wf_entities0 in H. lia.
    + intros a' x H Hreq. apply lookup_insert_Some in H as [[<- <-] | [Hne H]];
        [discriminate|].
      destruct (wf_requested0 _ _ H Hreq) as (Hl' & Hsa' & Hp' & Hc').
      assert (a_timeId x <> a_timeId asset).
      { intros Heq. apply Hne. symmetry. eapply Huniq; eauto. constructor; assumption. }
      rewrite lookup_insert_ne by auto. auto.
    + intros id e H. apply lookup_insert_Some in H as [[<- <-] | [Hne H]].
      * rewrite !lookup_insert_eq. auto.
      * destruct (wf_handles0 _ _ H) as (Hl' & He' & Hc').
        rewrite lookup_insert_ne by auto. repeat split; auto.
        apply lookup_insert_is_Some'. auto.
    + intros id H. apply lookup_insert_is_Some'.
      apply lookup_insert_Some in H as [[<- _] | [Hne H]]; auto.
    + intros p id H. apply lookup_insert_is_Some'. right. eauto.
  - simpl. intros r Hr. rewrite Hp in Hr. injection Hr as <-. split; [exact I|].
    intros x Hx. rewrite lookup_insert_eq in Hx. injection Hx as <-. discriminate.
Qed.

Lemma wf_assetError a cause s s' o :
  wf cfg s -> assetError a cause s = Some (s', o) -> wf cfg s'.
Proof.
  intros Hwf. unfold assetError.
  destruct (assets s !! a) as [asset|] eqn:Ha; [|discriminate].
  destruct (a_status asset) eqn:Hst; try discriminate.
  intros [= <- _].
  pose proof (requested_unique s a asset) as Huniq.
  destruct Hwf. destruct (wf_requested0 _ _ Ha Hst) as (Hload & Hsa & Hp & Hc).
  apply wf_settle.
  - constructor; simpl; try assumption.
    + intros a' x H. apply lookup_insert_Some in H as [[<- _] | [_ H]]; eauto.
    + intros a' x H Hreq. apply lookup_insert_Some in H as [[<- <-] | [Hne H]];
        [discriminate|].
      destruct (wf_requested0 _ _ H Hreq) as (Hl' & Hsa' & Hp' & Hc').
      assert (a_timeId x <> a_timeId asset).
      { intros Heq. apply Hne. symmetry. eapply Huniq; eauto. constructor; assumption. }
      rewrite lookup_insert_ne by auto. auto.
    + intros id e H. destruct (wf_handles0 _ _ H) as (Hl' & He' & Hc').
      assert (id <> a_timeId asset) by congruence.
      rewrite lookup_insert_ne by auto. auto.
    + intros id H. apply lookup_insert_Some in H as [[_ [=]] | [_ H]]. auto.
  - simpl. intros r Hr. rewrite Hp in Hr. injection Hr as <-. split; [exact I|].
    intros x Hx. rewrite lookup_insert_eq in Hx. injection Hx as <-. discriminate.
Qed.

Lemma wf_intervalTick p s s' o :
  wf cfg s -> intervalTick p s = Some (s', o) -> wf cfg s'.
Proof.
  intros Hwf. unfold intervalTick.
  destruct (find _ (intervals s)) as [[p' timeId]|] eqn:Hfind; [|discriminate].
  case_bool_decide; intros [= <- _]; [|assumption].
  apply find_some in Hfind as [Hin Hp']. simpl in Hp'.
  apply bool_decide_eq_true in Hp'. subst p'.
  apply wf_settle.
  - destruct Hwf. constructor; simpl; try assumption.
    + intros q id Hq. apply list_elem_of_In, filter_In in Hq as [Hq _].
      apply list_elem_of_In in Hq. eauto.
    + clear -wf_polls0. induction (intervals s) as [|[q id] l IH]; simpl; [constructor|].
      simpl in wf_polls0. apply NoDup_cons in wf_polls0 as [Hq Hl].
      destruct (negb (bool_decide (q = p))); simpl; auto.
      apply NoDup_cons. split; auto.
      intros Hin. apply Hq. apply list_elem_of_fmap in Hin as (w & Hw & Hin).
      apply list_elem_of_fmap. exists w. split; [assumption|].
      apply list_elem_of_In, filter_In in Hin as [Hin _]. now apply list_elem_of_In.
  - simpl. intros r Hr. split; [exact I|].
    apply list_elem_of_In in Hin. destruct Hwf.
    rewrite (wf_intervals0 _ _ Hin) in Hr. injection Hr as <-.
    intros id Hq. apply list_elem_of_In, filter_In in Hq as [_ Hq].
    simpl in Hq. rewrite bool_decide_eq_true_2 in Hq by reflexivity. discriminate.
Qed.

Lemma wf_switch_loaded timeId s :
  wf cfg s -> wf cfg (switch_loaded timeId s).1.
Proof.
  intros Hwf. unfold switch_loaded.
  destruct (splatEntities s !! activeTimeId s) as [fromEntity|];
    [destruct (splatEntities s !! timeId) as [toEntity|] eqn:Hto|];
    try (eapply wf_ext; [|exact Hwf]; reflexivity).
  simpl. apply wf_await; [|simpl; intros id [= <-]; eauto].
  pose proof (wf_new_promise (PPending ByFrames) _ (wf_enable toEntity true s Hwf)) as [].
  unfold new_promise in *. simpl in *. constructor; simpl; try assumption.
  intros cb [Hin | Hin%list_elem_of_singleton]%elem_of_app; [eauto|].
  subst cb. simpl. rewrite lookup_insert_eq. eexists. split; [reflexivity|exact I].
Qed.

Lemma wf_run_raf l : forall s,
  wf cfg s ->
  (forall cb, cb ∈ l ->
     exists st, promises s !! raf_promise cb = Some st /\ frames_or_settled st) ->
  wf cfg (foldl run_raf s l).
Proof.
  induction l as [|cb l IH]; intros s Hwf Hl; simpl; [assumption|].
  destruct (Hl cb) as (st & Hst & Hf); [left|].
  apply IH.
  - destruct cb as [fromEntity p | fromEntity p]; simpl in *.
    + destruct Hwf. constructor; simpl; try assumption.
      intros cb [Hin | Hin%list_elem_of_singleton]%elem_of_app; [eauto|].
      subst cb. simpl. eauto.
    + apply wf_settle; [apply wf_enable; assumption|].
      simpl. intros r Hr. rewrite Hst in Hr. injection Hr as ->.
      destruct r; try contradiction. auto.
  - intros cb' Hin. destruct (Hl cb') as (st' & Hst' & Hf'); [now right|].
    destruct cb as [fromEntity p | fromEntity p]; simpl; [eauto|].
    destruct (promises s !! p) as [[r| |]|]; eauto.
    destruct (decide (p = raf_promise cb')) as [->|Hne].
    + rewrite lookup_insert_eq. eexists. split; [reflexivity|exact I].
    + rewrite lookup_insert_ne by auto. eauto.
Qed.

Lemma wf_animationFrame s : wf cfg s -> wf cfg (animationFrame s).
Proof.
  intros Hwf. unfold animationFrame. apply wf_run_raf.
  - destruct Hwf. constructor; simpl; try assumption.
    intros cb Hin. inversion Hin.
  - simpl. destruct Hwf. auto.
Qed.

Lemma take_waiter_elem p ws k rest :
  take_waiter p ws = Some (k, rest) ->
  (p, k) ∈ ws /\ forall w, w ∈ rest -> w ∈ ws.
Proof.
  revert k rest. induction ws as [|[q k0] ws IH]; simpl; intros k rest H; [discriminate|].
  case_bool_decide.
  - injection H as <- <-. subst q. split; [left|]. intros w Hw. now right.
  - destruct (take_waiter p ws) as [[k' rest']|]; [|discriminate].
    injection H as <- <-. destruct (IH _ _ eq_refl) as [Hin Hsub].
    split; [now right|]. intros w [->|Hw]%elem_of_cons; [left|right; auto].
Qed.

Lemma wf_microtask p s s' o :
  wf cfg s -> microtask cfg p s = Some (s', o) -> wf cfg s'.
Proof.
  intros Hwf. unfold microtask.
  destruct (take_waiter p (waiters s)) as [[k rest]|] eqn:Htake; [|discriminate].
  destruct (take_waiter_elem _ _ _ _ Htake) as [Hin Hsub].
  assert (Hrest : wf cfg (set_waiters rest s)).
  { destruct Hwf. constructor; simpl; try assumption. eauto. }
  destruct (promises s !! p) as [[r|v|cause]|]; try discriminate.
  - intros Hres. apply some_pair in Hres as [-> _].
    destruct k; simpl; auto.
    + apply wf_switch_loaded. assumption.
    + eapply wf_ext; [|exact Hrest]. reflexivity.
  - intros [= <- _]. assumption.
Qed.

Lemma wf_switchToTime timeId s : wf cfg s -> wf cfg (switchToTime cfg timeId s).1.
Proof.
  intros Hwf. unfold switchToTime.
  case_bool_decide; [assumption|]. destruct (switchLock s); [assumption|].
  case_bool_decide; simpl.
  - pose proof (wf_switch_loaded timeId (set_switchLock true s)) as H1.
    destruct (switch_loaded timeId (set_switchLock true s)) as [s1 o1].
    apply H1. eapply wf_ext; [|exact Hwf]. reflexivity.
  - set (s1 := set_toggleBtn _ _).
    pose proof (wf_loadTimeState timeId s1) as H1.
    destruct (loadTimeState cfg timeId s1) as [[p s2] o2]. simpl in *.
    apply wf_await; [|discriminate]. apply H1.
    eapply wf_ext; [|exact Hwf]. reflexivity.
Qed.

Lemma wf_step ev s s' o : wf cfg s -> step cfg ev s = Some (s', o) -> wf cfg s'.
Proof.
  intros Hwf. destruct ev; simpl; intros Hstep.
  - apply some_pair in Hstep as [-> _]. unfold initialize.
    set (s1 := updateButtonLabel _ _).
    pose proof (wf_loadTimeState (activeTimeId s1) s1) as H1.
    destruct (loadTimeState cfg (activeTimeId s1) s1) as [[p s2] o2]. simpl in *.
    apply wf_await; [|discriminate]. apply H1.
    eapply wf_ext; [|exact Hwf]. reflexivity.
  - apply some_pair in Hstep as [-> _]. now apply wf_switchToTime.
  - apply some_pair in Hstep as [-> _]. unfold toggle.
    repeat case_match; try assumption. now apply wf_switchToTime.
  - apply some_pair in Hstep as [-> _]. unfold handleKeyboard.
    repeat case_match; try assumption; now apply wf_switchToTime.
  - pose proof (wf_loadTimeState timeId s Hwf) as H1.
    destruct (loadTimeState cfg timeId s) as [[p s2] o2]. simpl in *.
    injection Hstep as <- _. apply wf_await; [assumption|discriminate].
  - injection Hstep as <- _. eapply wf_ext; [|exact Hwf]. reflexivity.
  - eapply wf_assetReady; eauto.
  - eapply wf_assetError; eauto.
  - eapply wf_intervalTick; eauto.
  - eapply wf_microtask; eauto.
  - injection Hstep as <- _. now apply wf_animationFrame.
  - unfold timeout in Hstep. destruct (timeouts s !! i); [|discriminate].
    injection Hstep as <- _. eapply wf_ext; [|exact Hwf]. reflexivity.
Qed.

Lemma wf_init s0 : constructor cfg = Some s0 -> wf cfg s0.
Proof.
  unfold constructor. destruct (times cfg); [discriminate|]. intros [= <-].
  constructor; simpl; intros; try (rewrite lookup_empty in *; discriminate);
    try match goal with H : _ ∈ [] |- _ => inversion H end.
  constructor.
Qed.

Lemma wf_reachable s : reachable cfg s -> wf cfg s.
Proof.
  apply reachable_invariant; [apply wf_init|].
  intros ev s1 s2 o. apply wf_step.
Qed.


End ToggleWf.

(** *** Load accounting *)

Section ToggleLoad.
Import TimeToggle ToggleSpec.
Context (cfg : ToggleConfig).

Lemma failures_of_app timeId o1 o2 :
  failures_of timeId (o1 ++ o2) = failures_of timeId o1 + failures_of timeId o2.
Proof. unfold failures_of. now rewrite List.filter_app, length_app. Qed.

Lemma balanced_view timeId s s' o :
  load_view s' = load_view s -> failures_of timeId o = 0 -> balanced timeId s s' o.
Proof.
  intros [= Hr Hl _] Ho. unfold balanced, requests_for, held. rewrite Hr, Hl, Ho. lia.
Qed.

Lemma balanced_trans timeId s1 s2 s3 o1 o2 :
  balanced timeId s1 s2 o1 -> balanced timeId s2 s3 o2 ->
  balanced timeId s1 s3 (o1 ++ o2).
Proof. unfold balanced. rewrite failures_of_app. lia. Qed.

Lemma loaded_as_view timeId e s s' :
  load_view s' = load_view s -> loaded_as timeId e s -> loaded_as timeId e s'.
Proof. intros [= _ Hl He]. unfold loaded_as. now rewrite Hl, He. Qed.

Lemma requests_for_snoc timeId s a id :
  length (List.filter (fun r : AssetId * string => bool_decide (r.2 = timeId))
            (loadRequests s ++ [(a, id)]))
  = requests_for timeId s + (if bool_decide (id = timeId) then 1 else 0).
Proof.
  unfold requests_for. rewrite List.filter_app, length_app. simpl.
  case_bool_decide; reflexivity.
Qed.

Lemma loadTimeState_balanced id timeId s :
  balanced timeId s (loadTimeState cfg id s).1.2 (loadTimeState cfg id s).2.
Proof.
  unfold loadTimeState, new_promise.
  destruct (find (has_id id) (times cfg)) as [timeConfig|];
    [|now apply balanced_view].
  destruct (loadingStates s !! id) as [[| |]|] eqn:Hst; try now apply balanced_view.
  all: unfold balanced, held, requests_for at 1; simpl; rewrite requests_for_snoc;
    destruct (decide (id = timeId)) as [->|Hne];
    [ rewrite bool_decide_eq_true_2, lookup_insert_eq, Hst by reflexivity;
      unfold failures_of; simpl; lia
    | rewrite bool_decide_eq_false_2, lookup_insert_ne by assumption;
      unfold failures_of; simpl; lia ].
Qed.

Lemma loadTimeState_loaded_as id timeId e s :
  loaded_as timeId e s -> loaded_as timeId e (loadTimeState cfg id s).1.2.
Proof.
  intros [Hl He]. unfold loadTimeState, new_promise, loaded_as.
  destruct (find (has_id id) (times cfg)) as [timeConfig|]; [|auto].
  destruct (loadingStates s !! id) as [[| |]|] eqn:Hst; simpl; auto.
  all: rewrite lookup_insert_ne by congruence; auto.
Qed.


Lemma animationFrame_load s : load_view (animationFrame s) = load_view s.
Proof.
  unfold animationFrame.
  change (load_view s) with (load_view (set_rafQueue [] s)).
  generalize (set_rafQueue [] s).
  induction (rafQueue s) as [|cb l IH]; intros s0; simpl; [reflexivity|].
  rewrite IH. destruct cb; reflexivity.
Qed.

Lemma switch_loaded_load timeId s :
  load_view (switch_loaded timeId s).1 = load_view s
  /\ forall id, failures_of id (switch_loaded timeId s).2 = 0.
Proof.
  unfold switch_loaded, new_promise.
  destruct (splatEntities s !! activeTimeId s);
    [destruct (splatEntities s !! timeId)|]; simpl; auto.
Qed.

Lemma switch_finish_load timeId s :
  load_view (switch_finish cfg timeId s).1 = load_view s
  /\ forall id, failures_of id (switch_finish cfg timeId s).2 = 0.
Proof.
  unfold switch_finish. simpl. split; [reflexivity|].
  intros id. destruct (onTimeChange s); reflexivity.
Qed.

Lemma switchToTime_load timeId id e s :
  balanced id s (switchToTime cfg timeId s).1 (switchToTime cfg timeId s).2
  /\ (loaded_as id e s -> loaded_as id e (switchToTime cfg timeId s).1).
Proof.
  unfold switchToTime.
  case_bool_decide; [split; [now apply balanced_view|auto]|].
  destruct (switchLock s); [split; [now apply balanced_view|auto]|].
  case_bool_decide; cbn [negb].
  - destruct (switch_loaded_load timeId (set_switchLock true s)) as [Hv Hf].
    destruct (switch_loaded timeId (set_switchLock true s)) as [s1 o1].
    cbn [fst snd] in *. split.
    + apply balanced_view; [assumption|]. rewrite failures_of_app, Hf. reflexivity.
    + apply loaded_as_view. assumption.
  - set (s1 := set_toggleBtn _ _).
    pose proof (loadTimeState_balanced timeId id s1) as Hb.
    pose proof (loadTimeState_loaded_as timeId id e s1) as Hl.
    destruct (loadTimeState cfg timeId s1) as [[p s2] o2]. cbn [fst snd] in *.
    split.
    + unfold balanced in *. rewrite failures_of_app.
      change (failures_of id [Console (LogSwitching _ timeId)]) with 0.
      change (requests_for id (await p (KSwitchLoad timeId) s2)) with (requests_for id s2).
      change (held id (await p (KSwitchLoad timeId) s2)) with (held id s2).
      change (requests_for id s) with (requests_for id s1).
      change (held id s) with (held id s1). lia.
    + intros Hloaded. apply (loaded_as_view id e s2); [reflexivity|]. apply Hl. exact Hloaded.
Qed.

Lemma step_load ev id e s s' o :
  wf cfg s -> step cfg ev s = Some (s', o) ->
  balanced id s s' o /\ (loaded_as id e s -> loaded_as id e s').
Proof.
  intros Hwf. destruct ev; simpl; intros Hstep.
  - apply some_pair in Hstep as [-> ->]. unfold initialize.
    set (s1 := updateButtonLabel _ _).
    pose proof (loadTimeState_balanced (activeTimeId s1) id s1) as Hb.
    pose proof (loadTimeState_loaded_as (activeTimeId s1) id e s1) as Hl.
    destruct (loadTimeState cfg (activeTimeId s1) s1) as [[p s2] o2]. cbn [fst snd] in *.
    split.
    + unfold balanced in *. rewrite failures_of_app.
      change (failures_of id [Console LogUICreated]) with 0.
      change (requests_for id (await p KInitialize s2)) with (requests_for id s2).
      change (held id (await p KInitialize s2)) with (held id s2).
      change (requests_for id s) with (requests_for id s1).
      change (held id s) with (held id s1). lia.
    + intros Hloaded. apply (loaded_as_view id e s2); [reflexivity|]. apply Hl. exact Hloaded.
  - apply some_pair in Hstep as [-> ->]. apply switchToTime_load.
  - apply some_pair in Hstep as [-> ->]. unfold toggle.
    repeat case_match; try (split; [now apply balanced_view|auto]).
    apply switchToTime_load.
  - apply some_pair in Hstep as [-> ->]. unfold handleKeyboard.
    repeat case_match; try (split; [now apply balanced_view|auto]);
      apply switchToTime_load.
  - pose proof (loadTimeState_balanced timeId id s) as Hb.
    pose proof (loadTimeState_loaded_as timeId id e s) as Hl.
    destruct (loadTimeState cfg timeId s) as [[p s2] o2]. simpl in *.
    injection Hstep as <- <-. split; [exact Hb|].
    intros Hloaded. apply (loaded_as_view id e s2); [reflexivity|]. auto.
  - injection Hstep as <- <-. split; [now apply balanced_view|auto].
  - (* AssetReady *)
    unfold assetReady in Hstep.
    destruct (assets s !! a) as [asset|] eqn:Ha; [|discriminate].
    destruct (a_status asset) eqn:Hst; try discriminate.
    destruct Hwf. destruct (wf_requested0 _ _ Ha Hst) as (Hload & _).
    injection Hstep as <- <-. split.
    + assert (Hz : forall l : option (list float), failures_of id
                 (match l with Some _ => [Console (LogAppliedTransform (a_timeId asset))]
                             | None => [] end ++ [Console (LogLoaded (a_timeId asset))]) = 0)
        by (intros []; reflexivity).
      unfold balanced. rewrite Hz. unfold held, requests_for. simpl.
      destruct (decide (a_timeId asset = id)) as [<-|Hne].
      * rewrite lookup_insert_eq, Hload. lia.
      * rewrite lookup_insert_ne by assumption. lia.
    + intros [Hl He]. unfold loaded_as. simpl.
      rewrite !lookup_insert_ne by congruence. auto.
  - (* AssetError *)
    unfold assetError in Hstep.
    destruct (assets s !! a) as [asset|] eqn:Ha; [|discriminate].
    destruct (a_status asset) eqn:Hst; try discriminate.
    destruct Hwf. destruct (wf_requested0 _ _ Ha Hst) as (Hload & _).
    injection Hstep as <- <-. split.
    + unfold balanced, held, requests_for, failures_of. simpl.
      destruct (decide (a_timeId asset = id)) as [<-|Hne].
      * rewrite lookup_insert_eq, Hload, bool_decide_eq_true_2 by reflexivity.
        simpl. lia.
      * rewrite lookup_insert_ne, bool_decide_eq_false_2 by assumption. simpl. lia.
    + intros [Hl He]. unfold loaded_as. simpl.
      rewrite !lookup_insert_ne by congruence. auto.
  - unfold intervalTick in Hstep. repeat case_match; simplify_eq;
      (split; [now apply balanced_view|auto]).
  - unfold microtask in Hstep.
    destruct (take_waiter p (waiters s)) as [[k rest]|]; [|discriminate].
    destruct (promises s !! p) as [[r|v|cause]|]; try discriminate.
    + apply some_pair in Hstep as [-> ->]. destruct k; cbn [resume].
      * destruct (switch_loaded_load timeId (set_waiters rest s)) as [Hv Hf].
        split; [apply balanced_view; auto|]. apply loaded_as_view. exact Hv.
      * destruct (switch_finish_load timeId (set_waiters rest s)) as [Hv Hf].
        split; [apply balanced_view; auto|]. apply loaded_as_view. exact Hv.
      * split; [now apply balanced_view|auto].
      * split; [now apply balanced_view|auto].
    + injection Hstep as <- <-. split; [now apply balanced_view|auto].
  - injection Hstep as <- <-. pose proof (animationFrame_load s) as Hv.
    split; [now apply balanced_view|]. now apply loaded_as_view.
  - unfold timeout in Hstep. destruct (timeouts s !! i); [|discriminate].
    injection Hstep as <- <-. split; [now apply balanced_view|auto].
Qed.

Lemma run_load evs : forall id e s s' o,
  wf cfg s -> run cfg evs s = Some (s', o) ->
  balanced id s s' o /\ (loaded_as id e s -> loaded_as id e s').
Proof.
  induction evs as [|ev evs IH]; simpl; intros id e s s' o Hwf Hrun.
  - injection Hrun as <- <-. split; [now apply balanced_view|auto].
  - destruct (step cfg ev s) as [[s1 o1]|] eqn:H1; [|discriminate].
    destruct (run cfg evs s1) as [[s2 o2]|] eqn:H2; [|discriminate].
    injection Hrun as <- <-.
    destruct (step_load _ id e _ _ _ Hwf H1) as [Hb1 Hl1].
    destruct (IH id e _ _ _ (wf_step cfg _ _ _ _ Hwf H1) H2) as [Hb2 Hl2].
    split; [eapply balanced_trans; eauto | auto].
Qed.


End ToggleLoad.

(** ** Runs on plain keys *)

Section PlainRuns.
Import TimeToggle ToggleSpec.

Lemma plain_reachable_reachable cfg s :
  plain_reachable cfg s -> reachable cfg s.
Proof. intros (_ & s0 & evs & out & H0 & _ & Hrun). now exists s0, evs, out. Qed.

Lemma sample_plain_reachable evs :
  forallb plain_event evs = true ->
  is_Some (ToggleSample.final ToggleSample.cfg evs) ->
  plain_reachable ToggleSample.cfg (ToggleSample.state_after evs).
Proof.
  unfold ToggleSample.state_after, ToggleSample.final.
  intros Hp [[s o] H]. rewrite H.
  destruct (constructor ToggleSample.cfg) as [s0|] eqn:H0; [|discriminate].
  split; [reflexivity|]. now exists s0, evs, o.
Qed.

End PlainRuns.

(** ** Loading a time state *)

Section ToggleCalls.
Import TimeToggle ToggleSpec.
Context (cfg : ToggleConfig).

Lemma find_interval p timeId (l : list (PromiseId * string)) :
  NoDup l.*1 -> (p, timeId) ∈ l ->
  find (fun pt => bool_decide (pt.1 = p)) l = Some (p, timeId).
Proof.
  induction l as [|[q id] l IH]; simpl; intros Hnd Hin; [inversion Hin|].
  apply NoDup_cons in Hnd as [Hq Hnd].
  apply elem_of_cons in Hin as [[= <- <-] | Hin].
  - now rewrite bool_decide_eq_true_2.
  - rewrite bool_decide_eq_false_2; [auto|].
    intros ->. apply Hq. apply list_elem_of_fmap. exists (p, timeId). auto.
Qed.

Lemma loadTimeState_loaded timeId s :
  wf cfg s -> configured cfg timeId ->
  loadingStates s !! timeId = Some Loaded ->
  exists e,
    splatEntities s !! timeId = Some e
    /\ loadTimeState cfg timeId s
       = (next s,
          set_next (S (next s))
            (set_promises (<[next s := PResolved (Some e)]> (promises s)) s),
          [Console (LogAlreadyLoaded timeId)]).
Proof.
  intros Hwf [t Ht] Hl. destruct Hwf.
  destruct (wf_loaded0 _ Hl) as [e He]. exists e. split; [assumption|].
  unfold loadTimeState, new_promise. now rewrite Ht, Hl, He.
Qed.

Lemma loadTimeState_loading timeId s :
  configured cfg timeId ->
  loadingStates s !! timeId = Some Loading ->
  loadTimeState cfg timeId s
  = (next s,
     set_intervals (intervals s ++ [(next s, timeId)])
       (set_next (S (next s))
          (set_promises (<[next s := PPending ByInterval]> (promises s)) s)),
     [Console (LogAlreadyLoading timeId)]).
Proof.
  intros [t Ht] Hl. unfold loadTimeState, new_promise. now rewrite Ht, Hl.
Qed.

Lemma intervalTick_loaded p timeId s :
  wf cfg s -> (p, timeId) ∈ intervals s ->
  loadingStates s !! timeId = Some Loaded ->
  exists e s',
    splatEntities s !! timeId = Some e
    /\ intervalTick p s = Some (s', [])
    /\ promises s' !! p = Some (PResolved (Some e))
    /\ (forall id, (p, id) ∉ intervals s')
    /\ load_view s' = load_view s
    /\ assets s' = assets s.
Proof.
  intros Hwf Hin Hl. destruct Hwf.
  destruct (wf_loaded0 _ Hl) as [e He]. exists e. eexists.
  split; [assumption|]. unfold intervalTick.
  rewrite (find_interval p timeId) by assumption.
  rewrite bool_decide_eq_true_2 by assumption.
  split; [reflexivity|]. unfold settle. simpl.
  rewrite (wf_intervals0 _ _ Hin), lookup_insert_eq, He.
  repeat split; auto.
  intros id Hid. apply list_elem_of_In, filter_In in Hid as [_ Hid].
  simpl in Hid. rewrite bool_decide_eq_true_2 in Hid by reflexivity. discriminate.
Qed.

Lemma intervalTick_waiting p timeId s :
  wf cfg s -> (p, timeId) ∈ intervals s ->
  loadingStates s !! timeId <> Some Loaded ->
  intervalTick p s = Some (s, []).
Proof.
  intros [] Hin Hl. unfold intervalTick.
  rewrite (find_interval p timeId) by assumption.
  now rewrite bool_decide_eq_false_2.
Qed.

Lemma assetReady_delivers a x s :
  wf cfg s -> assets s !! a = Some x -> a_status x = AssetRequested ->
  exists s' o,
    step cfg (AssetReady a) s = Some (s', o)
    /\ loaded_as (a_timeId x) (next s) s'
    /\ promises s' !! a_promise x = Some (PResolved (Some (next s)))
    /\ loadRequests s' = loadRequests s.
Proof.
  intros [] Ha Hst. destruct (wf_requested0 _ _ Ha Hst) as (_ & _ & Hp & _).
  simpl. unfold assetReady. rewrite Ha, Hst. eexists _, _. split; [reflexivity|].
  unfold loaded_as, settle. simpl. rewrite Hp, !lookup_insert_eq. auto.
Qed.


End ToggleCalls.

Section LoadOnce.
Import TimeToggle ToggleSpec.

(** X26.  [loadTimeState] is idempotent and loads at most once, on plain
    keys.  Under a configuration whose identifiers are plain, for a
    configured time state, in every state reached by calls on plain
    identifiers: when the state is [loaded], the call returns a promise
    already resolved with the existing entity and changes nothing else;
    when it is [loading], the call only registers a poll and returns its
    pending promise, no asset is created and no load is requested; a tick
    of that poll leaves the state as it is until the time state is loaded,
    and then resolves the promise with the entity recorded for it; the
    asset being ready records a fresh entity and resolves the first
    caller's promise with that same entity; a loaded time state keeps its
    entity through every later step; and two assets awaited for the time
    state are one asset.  Over any such run from the constructed system,
    the load requests made for the time state number its reported
    failures, plus one while it is loading or loaded.  In the sample run
    two callers ask before the load completes: one request reaches the
    loader, and both receive entity 6. *)
Theorem loadTimeState_at_most_once :
  forall (cfg : ToggleConfig) (timeId : string),
    plain_config cfg = true ->
    configured cfg timeId ->
    (forall s,
       plain_reachable cfg s ->
       (loadingStates s !! timeId = Some Loaded ->
        exists e,
          splatEntities s !! timeId = Some e
          /\ loadTimeState cfg timeId s
             = (next s,
                set_next (S (next s))
                  (set_promises (<[next s := PResolved (Some e)]> (promises s)) s),
                [Console (LogAlreadyLoaded timeId)]))
       /\ (loadingStates s !! timeId = Some Loading ->
           loadTimeState cfg timeId s
           = (next s,
              set_intervals (intervals s ++ [(next s, timeId)])
                (set_next (S (next s))
                   (set_promises (<[next s := PPending ByInterval]> (promises s)) s)),
              [Console (LogAlreadyLoading timeId)]))
       /\ (forall p,
             (p, timeId) ∈ intervals s ->
             (loadingStates s !! timeId <> Some Loaded ->
              intervalTick p s = Some (s, []))
             /\ (loadingStates s !! timeId = Some Loaded ->
                 exists e s',
                   splatEntities s !! timeId = Some e
                   /\ intervalTick p s = Some (s', [])
                   /\ promises s' !! p = Some (PResolved (Some e))
                   /\ (forall id, (p, id) ∉ intervals s')
                   /\ load_view s' = load_view s
                   /\ assets s' = assets s))
       /\ (forall a x,
             assets s !! a = Some x -> a_status x = AssetRequested ->
             a_timeId x = timeId ->
             exists s' o,
               step cfg (AssetReady a) s = Some (s', o)
               /\ loaded_as timeId (next s) s'
               /\ promises s' !! a_promise x = Some (PResolved (Some (next s)))
               /\ loadRequests s' = loadRequests s)
       /\ (forall e evs s' o,
             loaded_as timeId e s ->
             forallb plain_event evs = true -> run cfg evs s = Some (s', o) ->
             loaded_as timeId e s')
       /\ (forall a x a' x',
             assets s !! a = Some x -> a_status x = AssetRequested ->
             a_timeId x = timeId ->
             assets s !! a' = Some x' -> a_status x' = AssetRequested ->
             a_timeId x' = timeId ->
             a' = a))
    /\ (forall s0 evs s out,
          constructor cfg = Some s0 ->
          forallb plain_event evs = true -> run cfg evs s0 = Some (s, out) ->
          requests_for timeId s = failures_of timeId out + held timeId s)
    /\ (requests_for "secondary" (ToggleSample.state_after ToggleSample.double_load) = 1
        /\ requests_for "secondary"
             (ToggleSample.state_after ToggleSample.double_load_done) = 1
        /\ List.filter (fun o => match o with Returned _ _ => true | _ => false end)
             (ToggleSample.output_of ToggleSample.double_load_done)
           = [Returned KInitialize (Some 2);
              Returned (KCaller 1) (Some 6); Returned (KCaller 2) (Some 6)]).
Proof.
  intros cfg timeId Hplain Hcfg. split; [|split].
  - intros s Hs%plain_reachable_reachable.
    pose proof (wf_reachable cfg s Hs) as Hwf.
    split; [|split; [|split; [|split; [|split]]]].
    + now apply loadTimeState_loaded.
    + now apply loadTimeState_loading.
    + intros p Hin. split.
      * now apply (intervalTick_waiting cfg p timeId).
      * now apply (intervalTick_loaded cfg p timeId).
    + intros a x Ha Hst <-. now apply assetReady_delivers.
    + intros e evs s' o Hl _ Hrun.
      now apply (run_load cfg evs timeId e s s' o Hwf Hrun).
    + intros a x a' x' Ha Hst Ht Ha' Hst' Ht'.
      eapply requested_unique; eauto. congruence.
  - intros s0 evs s out H0 _ Hrun.
    destruct (run_load cfg evs timeId 0 s0 s out (wf_init cfg s0 H0) Hrun) as [Hb _].
    assert (H00 : requests_for timeId s0 = 0 /\ held timeId s0 = 0).
    { unfold constructor in H0. destruct (times cfg); [discriminate|].
      injection H0 as <-. unfold requests_for, held. simpl.
      rewrite lookup_empty. auto. }
    unfold balanced in Hb. lia.
  - repeat split; vm_compute; reflexivity.
Qed.

(** The theorem on the sample run with two callers: the requests made for
    the second time state are accounted for by the load that is held. *)
Lemma loadTimeState_at_most_once_witness :
  requests_for "secondary" (ToggleSample.state_after ToggleSample.double_load)
  = failures_of "secondary" (ToggleSample.output_of ToggleSample.double_load)
    + held "secondary" (ToggleSample.state_after ToggleSample.double_load).
Proof.
  destruct (loadTimeState_at_most_once ToggleSample.cfg "secondary")
    as (_ & Hacct & _).
  - vm_compute. reflexivity.
  - vm_compute. eexists. reflexivity.
  - apply (Hacct (default ToggleSample.blank (constructor ToggleSample.cfg))
                 ToggleSample.double_load).
    + vm_compute. reflexivity.
    + vm_compute. reflexivity.
    + vm_compute. reflexivity.
Defined.

End LoadOnce.

(** *** The visibility handoff *)

Section ToggleVis.
Import TimeToggle ToggleSpec.
Context (cfg : ToggleConfig).

Lemma shown_view s s' :
  splatEntities s' = splatEntities s -> entities s' = entities s ->
  forall timeId, shown s' timeId = shown s timeId /\ has_entity s' timeId = has_entity s timeId.
Proof. intros H1 H2 timeId. unfold shown, has_entity. now rewrite H1, H2. Qed.

(** A step that leaves the entities, the frame callbacks, the active time
    state and the switches waiting for frames as they were, and keeps every
    promise that is pending on frames or settled, keeps the stage. *)
Lemma stage_stable s s' :
  splatEntities s' = splatEntities s -> entities s' = entities s ->
  frames_waiters s' = frames_waiters s -> rafQueue s' = rafQueue s ->
  activeTimeId s' = activeTimeId s ->
  (forall q st, promises s !! q = Some st -> frames_or_settled st ->
                promises s' !! q = Some st) ->
  handoff_stage s -> handoff_stage s'.
Proof.
  intros Hse He Hw Hr Ha Hp. unfold handoff_stage. rewrite Hw, Hr, Ha, Hse.
  pose proof (shown_view s s' Hse He) as Hv.
  destruct (frames_waiters s) as [|[q [t|target| |tag]] [|w ws]]; auto.
  - intros [Hraf Hs]. split; [assumption|]. intros id.
    destruct (Hv id) as [-> ->]. apply Hs.
  - intros [Hne (eA & HeA & Hst)]. split; [assumption|]. exists eA. split; [assumption|].
    destruct Hst as [(Hq & Hraf & Hs) | (Hq & Hraf & Hs)]; [left | right];
      (split; [apply Hp; [assumption | exact I] |]); (split; [assumption|]);
      intros id; destruct (Hv id) as [-> ->]; apply Hs.
Qed.

Lemma vis_stable s s' :
  splatEntities s' = splatEntities s -> entities s' = entities s ->
  waiters s' = waiters s -> rafQueue s' = rafQueue s ->
  activeTimeId s' = activeTimeId s ->
  (forall q st, promises s !! q = Some st -> frames_or_settled st ->
                promises s' !! q = Some st) ->
  vis s -> vis s'.
Proof.
  intros Hse He Hw Hr Ha Hp []. constructor.
  - rewrite Hse. assumption.
  - rewrite Hw, Ha. assumption.
  - eapply stage_stable; eauto. unfold frames_waiters. now rewrite Hw.
Qed.

Lemma vis_ext s s' : vis_view s' = vis_view s -> vis s -> vis s'.
Proof.
  intros [= Hse He Hw Hr Ha Hp]. apply vis_stable; auto.
  intros q st. now rewrite Hp.
Qed.

(** A caller that does not wait for frames starts to wait. *)
Lemma vis_await p k s :
  is_frames (p, k) = false ->
  (forall timeId, k = KSwitchLoad timeId -> timeId <> activeTimeId s) ->
  vis s -> vis (await p k s).
Proof.
  intros Hk Hload []. constructor; try assumption.
  - simpl. intros q id [Hin | Hin%list_elem_of_singleton]%elem_of_app; [eauto|].
    injection Hin as _ <-. auto.
  - apply (stage_stable s); try reflexivity; auto.
    unfold frames_waiters, await. cbn [waiters set_waiters]. rewrite List.filter_app.
    cbn [List.filter]. rewrite Hk. apply app_nil_r.
Qed.

Lemma vis_loadTimeState timeId s :
  wf cfg s -> vis s -> vis (loadTimeState cfg timeId s).1.2.
Proof.
  intros Hwf. apply vis_stable;
    try (unfold loadTimeState, new_promise; repeat case_match; simplify_eq; reflexivity).
  intros q st Hq _. destruct Hwf. pose proof (wf_promises0 _ _ Hq) as Hlt.
  unfold loadTimeState, new_promise; repeat case_match; simplify_eq; simpl;
    rewrite lookup_insert_ne by lia; assumption.
Qed.


Lemma frames_le_switch ws :
  length (List.filter is_frames ws) <= switch_count ws.
Proof.
  unfold switch_count, is_frames.
  induction ws as [|[p k] ws IH]; simpl; [lia|].
  destruct k; simpl; lia.
Qed.

Lemma no_switch_waiters ws p k :
  switch_count ws = 0 -> (p, k) ∈ ws -> is_switch k = false.
Proof.
  unfold switch_count. induction ws as [|[q k0] ws IH]; simpl; intros H0 Hin;
    [inversion Hin|].
  destruct (is_switch k0) eqn:Hk0; simpl in H0; [discriminate|].
  apply elem_of_cons in Hin as [[= -> ->] | Hin]; auto.
Qed.

Lemma take_waiter_other p ws k rest :
  take_waiter p ws = Some (k, rest) -> is_frames (p, k) = false ->
  List.filter is_frames rest = List.filter is_frames ws.
Proof.
  revert k rest. induction ws as [|[q k0] ws IH]; simpl; intros k rest H Hk;
    [discriminate|].
  case_bool_decide.
  - injection H as <- <-. subst q. now rewrite Hk.
  - destruct (take_waiter p ws) as [[k' rest']|]; [|discriminate].
    injection H as <- <-. simpl. now rewrite (IH _ _ eq_refl Hk).
Qed.

Lemma take_waiter_frames p ws k rest :
  take_waiter p ws = Some (k, rest) -> is_frames (p, k) = true ->
  (p, k) ∈ List.filter is_frames ws
  /\ length (List.filter is_frames ws) = S (length (List.filter is_frames rest)).
Proof.
  revert k rest. induction ws as [|[q k0] ws IH]; simpl; intros k rest H Hk;
    [discriminate|].
  case_bool_decide.
  - injection H as <- <-. subst q. rewrite Hk. split; [left | reflexivity].
  - destruct (take_waiter p ws) as [[k' rest']|]; [|discriminate].
    injection H as <- <-. destruct (IH _ _ eq_refl Hk) as [Hin Hlen]. simpl.
    destruct (is_frames (q, k0)); simpl; [split; [now right | lia] | auto].
Qed.

Lemma shown_absent s timeId :
  splatEntities s !! timeId = None ->
  shown s timeId = false /\ has_entity s timeId = false.
Proof.
  intros H. unfold shown, has_entity. rewrite H. split; [reflexivity|].
  apply bool_decide_eq_false_2. intros [? ?]. discriminate.
Qed.

Lemma has_entity_true s timeId e :
  splatEntities s !! timeId = Some e -> has_entity s timeId = true.
Proof. intros H. unfold has_entity. rewrite H. apply bool_decide_eq_true_2. eauto. Qed.

(** What [entity.enabled = b] does to what is shown. *)
Lemma shown_enable s e b timeId :
  wf cfg s ->
  shown (enable e b s) timeId
  = if bool_decide (splatEntities s !! timeId = Some e) then b else shown s timeId.
Proof.
  intros []. unfold shown, enable. simpl.
  destruct (splatEntities s !! timeId) as [e'|] eqn:He'.
  - destruct (wf_handles0 _ _ He') as (_ & [entity Hent] & _).
    case_bool_decide as Heq.
    + injection Heq as ->. rewrite lookup_alter_eq, Hent. reflexivity.
    + rewrite lookup_alter_ne by congruence. reflexivity.
  - rewrite bool_decide_eq_false_2 by discriminate. reflexivity.
Qed.

Lemma vis_switch_loaded timeId s :
  wf cfg s -> vis s -> frames_waiters s = [] -> timeId <> activeTimeId s ->
  vis (switch_loaded timeId s).1.
Proof.
  intros Hwf Hvis Hfr Hne. unfold switch_loaded.
  destruct (splatEntities s !! activeTimeId s) as [eA|] eqn:HeA;
    [destruct (splatEntities s !! timeId) as [eT|] eqn:HeT|];
    try (eapply vis_ext; [|exact Hvis]; reflexivity).
  pose proof Hvis as [Hinj Htarget Hstage].
  unfold handoff_stage in Hstage. rewrite Hfr in Hstage. destruct Hstage as [Hraf Hshown].
  unfold new_promise. simpl. constructor; simpl.
  - assumption.
  - intros q id [Hin | Hin%list_elem_of_singleton]%elem_of_app; [eauto|discriminate].
  - unfold handoff_stage, frames_waiters. simpl. rewrite List.filter_app.
    fold (frames_waiters s). rewrite Hfr. simpl. split; [assumption|].
    exists eA. split; [assumption|]. left. rewrite lookup_insert_eq, Hraf.
    split; [reflexivity|]. split; [left; reflexivity|].
    intros id.
    change (shown _ id) with (shown (enable eT true s) id).
    change (has_entity _ id) with (has_entity s id).
    rewrite shown_enable by assumption. rewrite Hshown.
    case_bool_decide as Hid.
    + rewrite (Hinj _ _ _ Hid HeT), (has_entity_true _ _ _ HeT).
      rewrite (bool_decide_eq_true_2 (timeId = timeId)) by reflexivity.
      now rewrite orb_true_r.
    + rewrite (bool_decide_eq_false_2 (id = timeId)) by congruence.
      now rewrite orb_false_r.
Qed.

Lemma vis_switch_finish timeId s :
  (forall id1 id2 e,
     splatEntities s !! id1 = Some e -> splatEntities s !! id2 = Some e -> id1 = id2) ->
  frames_waiters s = [] ->
  rafQueue s = [] ->
  (forall id, shown s id = bool_decide (id = timeId) && has_entity s id) ->
  (forall q k, (q, k) ∈ waiters s -> is_switch k = false) ->
  vis (switch_finish cfg timeId s).1.
Proof.
  intros Hinj Hfr Hraf Hshown Hnone. unfold switch_finish.
  constructor; simpl.
  - assumption.
  - intros q id Hin. apply Hnone in Hin. discriminate.
  - unfold handoff_stage, frames_waiters. simpl. fold (frames_waiters s).
    rewrite Hfr. split; [assumption|]. exact Hshown.
Qed.

Lemma vis_settle_owned p st s :
  (forall r, promises s !! p = Some (PPending r) -> r <> ByFrames) ->
  vis s -> vis (settle p st s).
Proof.
  intros Hown. apply vis_stable; try reflexivity.
  intros q st' Hq Hf. unfold settle. simpl.
  destruct (promises s !! p) as [[r| |]|] eqn:Hp; try assumption.
  rewrite lookup_insert_ne; [assumption|].
  intros <-. rewrite Hp in Hq. injection Hq as <-.
  destruct r; try contradiction. now apply (Hown ByFrames).
Qed.

Lemma vis_assetError a cause s s' o :
  wf cfg s -> vis s -> assetError a cause s = Some (s', o) -> vis s'.
Proof.
  intros Hwf Hvis. unfold assetError.
  destruct (assets s !! a) as [asset|] eqn:Ha; [|discriminate].
  destruct (a_status asset) eqn:Hst; try discriminate.
  intros [= <- _]. destruct Hwf.
  destruct (wf_requested0 _ _ Ha Hst) as (_ & _ & Hp & _).
  apply vis_settle_owned.
  - simpl. intros r Hr. rewrite Hp in Hr. injection Hr as <-. discriminate.
  - eapply vis_ext; [|exact Hvis]. reflexivity.
Qed.

Lemma vis_intervalTick p s s' o :
  wf cfg s -> vis s -> intervalTick p s = Some (s', o) -> vis s'.
Proof.
  intros Hwf Hvis. unfold intervalTick.
  destruct (find _ (intervals s)) as [[p' timeId]|] eqn:Hfind; [|discriminate].
  case_bool_decide; intros [= <- _]; [|assumption].
  apply find_some in Hfind as [Hin Hp']. simpl in Hp'.
  apply bool_decide_eq_true in Hp'. subst p'. apply list_elem_of_In in Hin.
  destruct Hwf. apply vis_settle_owned.
  - simpl. intros r Hr. rewrite (wf_intervals0 _ _ Hin) in Hr.
    injection Hr as <-. discriminate.
  - eapply vis_ext; [|exact Hvis]. reflexivity.
Qed.

Lemma frames_waiters_elem s w : w ∈ frames_waiters s -> w ∈ waiters s.
Proof.
  unfold frames_waiters. intros H. apply list_elem_of_In, filter_In in H as [H _].
  now apply list_elem_of_In.
Qed.

Lemma vis_assetReady a s s' o :
  wf cfg s -> vis s -> assetReady cfg a s = Some (s', o) -> vis s'.
Proof.
  intros Hwf Hvis. unfold assetReady.
  destruct (assets s !! a) as [asset|] eqn:Ha; [|discriminate].
  destruct (a_status asset) eqn:Hst; try discriminate.
  intros [= <- _]. pose proof Hwf as [].
  destruct (wf_requested0 _ _ Ha Hst) as (Hload & _ & Hp & _).
  remember (a_timeId asset) as timeId eqn:Htime.
  assert (Hnone : splatEntities s !! timeId = None).
  { destruct (splatEntities s !! timeId) as [e|] eqn:He; [|reflexivity].
    destruct (wf_handles0 _ _ He) as (Hl & _). congruence. }
  destruct (shown_absent s timeId Hnone) as [Hs0 Hh0].
  apply vis_settle_owned.
  { simpl. intros r Hr. rewrite Hp in Hr. injection Hr as <-. discriminate. }
  match goal with |- vis ?x => set (s1 := x) end.
  assert (Hnew : shown s1 timeId = bool_decide (timeId = activeTimeId s)
                 /\ has_entity s1 timeId = true).
  { unfold shown, has_entity. subst s1. simpl. rewrite !lookup_insert_eq.
    split; [reflexivity|]. apply bool_decide_eq_true_2. eauto. }
  assert (Hold : forall id, id <> timeId ->
                   shown s1 id = shown s id /\ has_entity s1 id = has_entity s id).
  { intros id Hid. unfold shown, has_entity. subst s1. simpl.
    rewrite lookup_insert_ne by congruence. split; [|reflexivity].
    destruct (splatEntities s !! id) as [e|] eqn:He; [|reflexivity].
    destruct (wf_handles0 _ _ He) as (_ & [entity Hent] & _).
    apply wf_entities0 in Hent as Hlt.
    rewrite lookup_insert_ne by lia. reflexivity. }
  destruct Hvis as [Hinj Htarget Hstage]. constructor.
  - subst s1. simpl. intros id1 id2 e H1 H2.
    apply lookup_insert_Some in H1 as [[<- <-] | [Hne1 H1]];
      apply lookup_insert_Some in H2 as [[<- He2] | [Hne2 H2]]; try reflexivity.
    + destruct (wf_handles0 _ _ H2) as (_ & [entity Hent] & _).
      apply wf_entities0 in Hent. lia.
    + destruct (wf_handles0 _ _ H1) as (_ & [entity Hent] & _).
      apply wf_entities0 in Hent. lia.
    + eauto.
  - exact Htarget.
  - unfold handoff_stage in *.
    change (frames_waiters s1) with (frames_waiters s).
    change (rafQueue s1) with (rafQueue s).
    change (activeTimeId s1) with (activeTimeId s).
    change (promises s1) with (promises s).
    pose proof (frames_waiters_elem s) as Helem.
    destruct (frames_waiters s) as [|[q [t|target| |tag]] [|w ws]]; auto.
    + destruct Hstage as [Hraf Hs]. split; [assumption|]. intros id.
      destruct (decide (id = timeId)) as [->|Hid].
      * destruct Hnew as [-> ->]. now rewrite andb_true_r.
      * destruct (Hold id Hid) as [-> ->]. apply Hs.
    + destruct Hstage as [Hne (eA & HeA & Hst')]. split; [assumption|].
      assert (HnA : timeId <> activeTimeId s) by congruence.
      assert (HnT : timeId <> target).
      { intros ->. destruct (wf_frames0 q target) as [e He]; [apply Helem; left|].
        congruence. }
      exists eA. split; [subst s1; simpl; now rewrite lookup_insert_ne|].
      destruct Hst' as [(Hq & Hraf & Hs) | (Hq & Hraf & Hs)]; [left | right];
        (split; [assumption|]); (split; [assumption|]); intros id;
        (destruct (decide (id = timeId)) as [->|Hid];
         [ destruct Hnew as [-> ->];
           rewrite ?(bool_decide_eq_false_2 (timeId = activeTimeId s)) by assumption;
           rewrite ?(bool_decide_eq_false_2 (timeId = target)) by assumption;
           reflexivity
         | destruct (Hold id Hid) as [-> ->]; apply Hs ]).
Qed.


Lemma vis_animationFrame s : wf cfg s -> vis s -> vis (animationFrame s).
Proof.
  intros Hwf Hvis. pose proof Hvis as [Hinj Htarget Hstage].
  assert (Hidle : rafQueue s = [] -> vis (animationFrame s)).
  { intros Hraf. unfold animationFrame. rewrite Hraf. simpl.
    apply (vis_stable s); auto. }
  unfold handoff_stage in Hstage.
  destruct (frames_waiters s) as [|[q [t|target| |tag]] [|w ws]] eqn:Hfr;
    try contradiction.
  - destruct Hstage as [Hraf _]. auto.
  - destruct Hstage as [Hne (eA & HeA & [(Hq & [Hraf | Hraf] & Hs) | (Hq & Hraf & Hs)])];
      [| |auto].
    + (* the first frame: the outer callback requests the inner one *)
      unfold animationFrame. rewrite Hraf. simpl. constructor; simpl; try assumption.
      unfold handoff_stage, frames_waiters. simpl. fold (frames_waiters s).
      rewrite Hfr. split; [assumption|]. exists eA. split; [assumption|].
      left. split; [assumption|]. split; [now right|]. exact Hs.
    + (* the second frame: the source is disabled, the promise resolved *)
      unfold animationFrame. rewrite Hraf. simpl. unfold settle. simpl. rewrite Hq.
      constructor; simpl; try assumption.
      unfold handoff_stage, frames_waiters. simpl. fold (frames_waiters s).
      rewrite Hfr. split; [assumption|]. exists eA. split; [assumption|].
      right. rewrite lookup_insert_eq. split; [reflexivity|]. split; [reflexivity|].
      intros id.
      change (shown _ id) with (shown (enable eA false s) id).
      change (has_entity _ id) with (has_entity s id).
      rewrite shown_enable by assumption. case_bool_decide as Hid.
      * rewrite (Hinj _ _ _ Hid HeA).
        rewrite (bool_decide_eq_false_2 (activeTimeId s = target)) by congruence.
        reflexivity.
      * rewrite Hs.
        rewrite (bool_decide_eq_false_2 (id = activeTimeId s)) by congruence.
        reflexivity.
Qed.

Lemma vis_drop_waiter p k rest s :
  take_waiter p (waiters s) = Some (k, rest) -> is_frames (p, k) = false ->
  vis s -> vis (set_waiters rest s).
Proof.
  intros Htake Hk [Hinj Htarget Hstage].
  destruct (take_waiter_elem _ _ _ _ Htake) as [_ Hsub].
  constructor; simpl; eauto.
  apply (stage_stable s); auto.
  unfold frames_waiters. simpl. eapply take_waiter_other; eauto.
Qed.

Lemma vis_microtask p s s' o :
  wf cfg s -> lock_inv s -> vis s -> microtask cfg p s = Some (s', o) -> vis s'.
Proof.
  intros Hwf Hlock Hvis. unfold microtask.
  destruct (take_waiter p (waiters s)) as [[k rest]|] eqn:Htake; [|discriminate].
  pose proof (take_waiter_count _ _ _ _ Htake) as Hcount.
  pose proof (take_waiter_elem _ _ _ _ Htake) as [Hin Hsub].
  pose proof (frames_le_switch rest) as Hle.
  assert (Hrest : is_switch k = true -> switch_count rest = 0).
  { intros Hk. rewrite Hk in Hcount. unfold lock_inv, in_flight in Hlock.
    destruct (switchLock s); lia. }
  assert (Hwfr : wf cfg (set_waiters rest s)).
  { destruct Hwf. constructor; simpl; try assumption. eauto. }
  destruct k as [timeId|timeId| |tag].
  - (* the load awaited by a switch *)
    assert (Hvr : vis (set_waiters rest s)) by (eapply vis_drop_waiter; eauto).
    assert (Hfr : frames_waiters (set_waiters rest s) = []).
    { unfold frames_waiters. simpl. apply length_zero_iff_nil.
      specialize (Hrest eq_refl). lia. }
    destruct (promises s !! p) as [[r|v|cause]|]; try discriminate.
    + intros Hres. apply some_pair in Hres as [-> _]. simpl.
      apply vis_switch_loaded; auto. destruct Hvis. simpl. eauto.
    + intros [= <- _]. assumption.
  - (* the frames awaited by a switch *)
    destruct (take_waiter_frames _ _ _ _ Htake eq_refl) as [Hmem Hlen].
    pose proof Hvis as [Hinj Htarget Hstage]. unfold handoff_stage in Hstage.
    fold (frames_waiters s) in Hmem, Hlen.
    destruct (frames_waiters s) as [|[q [t|target| |tag]] [|w ws]] eqn:Hfr;
      try contradiction; try (inversion Hmem; fail).
    apply list_elem_of_singleton in Hmem. injection Hmem as <- <-.
    destruct Hstage as [Hne (eA & HeA & [(Hq & _) | (Hq & Hraf & Hs)])];
      rewrite Hq; [discriminate|].
    intros Hres. apply some_pair in Hres as [-> _]. simpl.
    apply vis_switch_finish; simpl; try assumption.
    + unfold frames_waiters. simpl. simpl in Hlen. injection Hlen as Hlen.
      symmetry in Hlen. now apply length_zero_iff_nil in Hlen.
    + intros q k Hq'. eapply no_switch_waiters; eauto.
  - (* initialize *)
    assert (Hvr : vis (set_waiters rest s)) by (eapply vis_drop_waiter; eauto).
    destruct (promises s !! p) as [[r|v|cause]|]; try discriminate;
      intros [= <- _]; assumption.
  - (* a caller from outside *)
    assert (Hvr : vis (set_waiters rest s)) by (eapply vis_drop_waiter; eauto).
    destruct (promises s !! p) as [[r|v|cause]|]; try discriminate;
      intros [= <- _]; assumption.
Qed.

Lemma no_frames_when_free s :
  lock_inv s -> switchLock s = false -> frames_waiters s = [].
Proof.
  unfold lock_inv, in_flight, frames_waiters. intros Hinv Hl. rewrite Hl in Hinv.
  pose proof (frames_le_switch (waiters s)). apply length_zero_iff_nil. lia.
Qed.

Lemma vis_switchToTime timeId s :
  wf cfg s -> lock_inv s -> vis s -> vis (switchToTime cfg timeId s).1.
Proof.
  intros Hwf Hlock Hvis. unfold switchToTime.
  case_bool_decide as Hne; [assumption|].
  destruct (switchLock s) eqn:Hl; [assumption|].
  pose proof (no_frames_when_free s Hlock Hl) as Hfr.
  case_bool_decide; cbn [negb].
  - pose proof (vis_switch_loaded timeId (set_switchLock true s)) as H1.
    destruct (switch_loaded timeId (set_switchLock true s)) as [s1 o1].
    apply H1; auto.
    + eapply wf_ext; [|exact Hwf]. reflexivity.
    + eapply vis_ext; [|exact Hvis]. reflexivity.
  - set (s1 := set_toggleBtn _ _).
    assert (Hwf1 : wf cfg s1) by (eapply wf_ext; [|exact Hwf]; reflexivity).
    assert (Hvis1 : vis s1) by (eapply vis_ext; [|exact Hvis]; reflexivity).
    pose proof (vis_loadTimeState timeId s1 Hwf1 Hvis1) as H1.
    pose proof (loadTimeState_frame cfg timeId s1) as (_ & _ & _ & Ha).
    destruct (loadTimeState cfg timeId s1) as [[p s2] o2]. simpl in *.
    apply vis_await; [reflexivity | | assumption].
    intros id [= <-]. rewrite Ha. exact Hne.
Qed.

Lemma vis_step ev s s' o :
  wf cfg s -> lock_inv s -> vis s -> step cfg ev s = Some (s', o) -> vis s'.
Proof.
  intros Hwf Hlock Hvis. destruct ev; simpl; intros Hstep.
  - apply some_pair in Hstep as [-> _]. unfold initialize.
    set (s1 := updateButtonLabel _ _).
    assert (Hwf1 : wf cfg s1) by (eapply wf_ext; [|exact Hwf]; reflexivity).
    assert (Hvis1 : vis s1) by (eapply vis_ext; [|exact Hvis]; reflexivity).
    pose proof (vis_loadTimeState (activeTimeId s1) s1 Hwf1 Hvis1) as H1.
    destruct (loadTimeState cfg (activeTimeId s1) s1) as [[p s2] o2]. simpl in *.
    apply vis_await; [reflexivity | discriminate | assumption].
  - apply some_pair in Hstep as [-> _]. now apply vis_switchToTime.
  - apply some_pair in Hstep as [-> _]. unfold toggle.
    repeat case_match; try assumption. now apply vis_switchToTime.
  - apply some_pair in Hstep as [-> _]. unfold handleKeyboard.
    repeat case_match; try assumption; now apply vis_switchToTime.
  - pose proof (vis_loadTimeState timeId s Hwf Hvis) as H1.
    destruct (loadTimeState cfg timeId s) as [[p s2] o2]. simpl in *.
    injection Hstep as <- _. apply vis_await; [reflexivity | discriminate | assumption].
  - injection Hstep as <- _. eapply vis_ext; [|exact Hvis]. reflexivity.
  - eapply vis_assetReady; eauto.
  - eapply vis_assetError; eauto.
  - eapply vis_intervalTick; eauto.
  - eapply vis_microtask; eauto.
  - injection Hstep as <- _. now apply vis_animationFrame.
  - unfold timeout in Hstep. destruct (timeouts s !! i); [|discriminate].
    injection Hstep as <- _. eapply vis_ext; [|exact Hvis]. reflexivity.
Qed.

Lemma vis_init s0 : constructor cfg = Some s0 -> vis s0.
Proof.
  unfold constructor. destruct (times cfg); [discriminate|]. intros [= <-].
  constructor; simpl.
  - intros id1 id2 e H. rewrite lookup_empty in H. discriminate.
  - intros p id H. inversion H.
  - unfold handoff_stage, frames_waiters. simpl. split; [reflexivity|].
    intros id. unfold shown, has_entity. simpl. rewrite lookup_empty.
    rewrite (bool_decide_eq_false_2 (is_Some None)); [now rewrite andb_false_r|].
    intros [? ?]. discriminate.
Qed.

(** The three invariants hold together in every reachable state. *)
Lemma good_reachable s : reachable cfg s -> wf cfg s /\ lock_inv s /\ vis s.
Proof.
  apply (reachable_invariant cfg (fun s => wf cfg s /\ lock_inv s /\ vis s)).
  - intros s0 H0. split; [|split].
    + now apply wf_init.
    + now apply (lock_inv_init cfg).
    + now apply vis_init.
  - intros ev s1 s2 o (Hwf & Hlock & Hvis) Hstep. split; [|split].
    + eapply wf_step; eauto.
    + eapply lock_inv_step; eauto.
    + eapply vis_step; eauto.
Qed.


End ToggleVis.

(** ** Load failure and the active time state *)

Section ActiveState.
Import TimeToggle ToggleSpec.

Lemma filter_has_id_absent (timeId : string) (l : list TimeConfig) :
  timeId ∉ t_id <$> l -> List.filter (has_id timeId) l = [].
Proof.
  induction l as [|t l IH]; simpl; intros Hnot; [reflexivity|].
  unfold has_id at 1. rewrite bool_decide_eq_false_2.
  - apply IH. intros Hin. apply Hnot. now right.
  - intros Heq. apply Hnot. rewrite <- Heq. left.
Qed.

(** An identifier that occurs once among the configured ones names exactly
    one time state. *)
Lemma one_time_state (timeId : string) (l : list TimeConfig) :
  NoDup (t_id <$> l) -> is_Some (List.find (has_id timeId) l) ->
  length (List.filter (has_id timeId) l) = 1.
Proof.
  induction l as [|t l IH]; simpl; intros Hnd [x Hx]; [discriminate|].
  apply NoDup_cons in Hnd as [Ht Hnd].
  destruct (has_id timeId t) eqn:Hid.
  - apply bool_decide_eq_true in Hid. subst timeId.
    simpl. now rewrite filter_has_id_absent.
  - apply IH; eauto.
Qed.

(** The active time state stays loaded, with the entity it had unless a
    switch completed. *)
Lemma initialised_step cfg ev s s' o :
  wf cfg s -> initialised s -> step cfg ev s = Some (s', o) -> initialised s'.
Proof.
  unfold initialised. intros Hwf Hinit Hstep.
  pose proof Hwf as [].
  assert (Hkeep : forall id, loadingStates s !! id = Some Loaded ->
                             loadingStates s' !! id = Some Loaded).
  { intros id Hl. destruct (wf_loaded0 _ Hl) as [e He].
    destruct (step_load cfg ev id e s s' o Hwf Hstep) as [_ Hk].
    destruct Hk as [Hl' _]; [split; assumption | assumption]. }
  destruct (step_lock cfg _ _ _ _ Hstep) as
    [Ha Hl Hf Ht Hq | Ha Hl Hl' Hf Ht Hq | p timeId rest _ _ _ Ha Hl Hf Ht Hq
     | p timeId rest _ Htake Ha Hl Hf Ht Hq | p k rest cause _ _ _ _ Ha Hl Hf Ht Hq
     | i _ Ha Hl Hf Ht Hq];
    rewrite Ha; auto.
  apply Hkeep. apply take_waiter_elem in Htake as [Hin _].
  destruct (wf_frames0 _ _ Hin) as [e He].
  now destruct (wf_handles0 _ _ He).
Qed.

Lemma initialised_run cfg evs : forall s s' o,
  wf cfg s -> initialised s -> run cfg evs s = Some (s', o) -> initialised s'.
Proof.
  induction evs as [|ev evs IH]; simpl; intros s s' o Hwf Hinit Hrun.
  - now injection Hrun as <- _.
  - destruct (step cfg ev s) as [[s1 o1]|] eqn:H1; [|discriminate].
    destruct (run cfg evs s1) as [[s2 o2]|] eqn:H2; [|discriminate].
    injection Hrun as <- _.
    eapply IH; [| |exact H2].
    + eapply wf_step; eauto.
    + eapply initialised_step; eauto.
Qed.

(** What the stage of the handoff says about the time states shown, once
    the active one is loaded. *)
Lemma shown_by_stage cfg s :
  wf cfg s -> vis s -> initialised s ->
  (frames_waiters s = [] ->
   forall timeId, shown s timeId = true <-> timeId = activeTimeId s)
  /\ (exists timeId, shown s timeId = true)
  /\ (forall timeId,
        shown s timeId = true ->
        timeId = activeTimeId s
        \/ exists p, (p, KSwitchFrames timeId) ∈ waiters s)
  /\ (forall p target,
        (p, KSwitchFrames target) ∈ waiters s \/ (p, KSwitchLoad target) ∈ waiters s ->
        target <> activeTimeId s).
Proof.
  intros Hwf [Hinj Htarget Hstage] Hinit. unfold initialised in Hinit.
  pose proof Hwf as [].
  destruct (wf_loaded0 _ Hinit) as [eA HeA].
  pose proof (has_entity_true _ _ _ HeA) as HhA.
  pose proof (frames_waiters_elem s) as Helem.
  assert (Hfilter : forall p target,
            (p, KSwitchFrames target) ∈ waiters s ->
            (p, KSwitchFrames target) ∈ frames_waiters s).
  { intros p target Hin. unfold frames_waiters.
    apply list_elem_of_In, filter_In. split; [now apply list_elem_of_In | reflexivity]. }
  unfold handoff_stage in Hstage.
  destruct (frames_waiters s) as [|[q [t|target| |tag]] [|w ws]] eqn:Hfr;
    try contradiction.
  - destruct Hstage as [_ Hs]. repeat split.
    + rewrite Hs. intros [Hid _]%andb_true_iff. now apply bool_decide_eq_true in Hid.
    + intros ->. rewrite Hs, HhA. now rewrite bool_decide_eq_true_2.
    + exists (activeTimeId s). rewrite Hs, HhA. now rewrite bool_decide_eq_true_2.
    + intros id. rewrite Hs. intros [Hid _]%andb_true_iff.
      left. now apply bool_decide_eq_true in Hid.
    + intros p target [Hin | Hin]; [|eauto].
      apply Hfilter in Hin. inversion Hin.
  - destruct Hstage as [Hne (eA' & HeA' & Hst)].
    assert (HhT : has_entity s target = true).
    { destruct (wf_frames0 q target) as [e He]; [apply Helem; left|].
      eapply has_entity_true; eauto. }
    repeat split.
    + discriminate.
    + discriminate.
    + destruct Hst as [(_ & _ & Hs) | (_ & _ & Hs)].
      * exists (activeTimeId s). rewrite Hs, HhA. now rewrite bool_decide_eq_true_2.
      * exists target. rewrite Hs, HhT. now rewrite bool_decide_eq_true_2.
    + intros id Hid.
      assert (Hor : id = activeTimeId s \/ id = target).
      { destruct Hst as [(_ & _ & Hs) | (_ & _ & Hs)]; rewrite Hs in Hid;
          apply andb_true_iff in Hid as [Hid _].
        - apply orb_true_iff in Hid as [Hid | Hid];
            apply bool_decide_eq_true in Hid; auto.
        - apply bool_decide_eq_true in Hid; auto. }
      destruct Hor as [-> | ->]; [now left|]. right. exists q. apply Helem. left.
    + intros p target' [Hin | Hin]; [|eauto].
      apply Hfilter in Hin. apply list_elem_of_singleton in Hin.
      injection Hin as _ ->. assumption.
Qed.

(** X27.  One time state is active, on plain keys.  Under a configuration
    whose identifiers are plain and distinct, once the active time state is
    loaded, then in every state reached afterwards by operations on plain
    identifiers, and through every stage of a switch, the active
    identifier names exactly one of the configured time states, and that
    time state is loaded and has its entity in the scene; a switch
    in flight, whether loading its target or waiting for its two frames,
    aims at another time state and has not touched the active identifier.
    As to what is drawn: some time state is shown at every instant; with no
    switch waiting for its frames the active time state is the one shown;
    and a time state shown besides it is the target of the switch waiting
    for its frames, as in the sample run cut in the middle of the handoff,
    where the first time state is still the active one. *)
Theorem exactly_one_active :
  forall (cfg : ToggleConfig) (s : Sys),
    NoDup (t_id <$> times cfg) ->
    plain_reachable cfg s ->
    initialised s ->
    forall evs s' o,
      forallb plain_event evs = true ->
      run cfg evs s = Some (s', o) ->
      length (List.filter (has_id (activeTimeId s')) (times cfg)) = 1
      /\ (exists e entity,
            loadingStates s' !! activeTimeId s' = Some Loaded
            /\ splatEntities s' !! activeTimeId s' = Some e
            /\ entities s' !! e = Some entity)
      /\ (forall p target,
            (p, KSwitchFrames target) ∈ waiters s'
            \/ (p, KSwitchLoad target) ∈ waiters s' ->
            target <> activeTimeId s')
      /\ (exists timeId, shown s' timeId = true)
      /\ (frames_waiters s' = [] ->
          forall timeId, shown s' timeId = true <-> timeId = activeTimeId s')
      /\ (forall timeId,
            shown s' timeId = true ->
            timeId = activeTimeId s'
            \/ exists p, (p, KSwitchFrames timeId) ∈ waiters s')
      /\ (activeTimeId (ToggleSample.state_after ToggleSample.mid_handoff) = "primary"
          /\ shown (ToggleSample.state_after ToggleSample.mid_handoff) "primary" = true
          /\ shown (ToggleSample.state_after ToggleSample.mid_handoff) "secondary" = true).
Proof.
  intros cfg s Hnd Hs%plain_reachable_reachable Hinit evs s' o _ Hrun.
  pose proof (wf_reachable cfg s Hs) as Hwf.
  destruct (good_reachable cfg s' (reachable_run cfg _ _ _ _ Hs Hrun))
    as (Hwf' & _ & Hvis').
  pose proof (initialised_run cfg _ _ _ _ Hwf Hinit Hrun) as Hinit'.
  destruct (shown_by_stage cfg s' Hwf' Hvis' Hinit') as (Hidle & Hsome & Hmost & Haim).
  unfold initialised in Hinit'. destruct Hwf'.
  destruct (wf_loaded0 _ Hinit') as [e He].
  destruct (wf_handles0 _ _ He) as (_ & [entity Hent] & Hc).
  split; [now apply one_time_state|].
  split; [eauto 10|].
  split; [exact Haim|]. split; [exact Hsome|].
  split; [exact Hidle|]. split; [exact Hmost|].
  repeat split; vm_compute; reflexivity.
Qed.

(** The theorem on the sample run: after the switch and the cooldown, the
    active identifier names one time state. *)
Lemma exactly_one_active_witness :
  length (List.filter (has_id (activeTimeId
            (ToggleSample.state_after ToggleSample.double_switch)))
            (times ToggleSample.cfg)) = 1.
Proof.
  refine (proj1 (exactly_one_active ToggleSample.cfg
                   (ToggleSample.state_after ToggleSample.boot) _ _ _
                   (skipn 3 ToggleSample.double_switch)
                   (ToggleSample.state_after ToggleSample.double_switch)
                   (skipn 5 (ToggleSample.output_of ToggleSample.double_switch)) _ _)).
  - apply (bool_decide_unpack _). vm_compute. exact I.
  - apply sample_plain_reachable; [reflexivity|]. vm_compute. eexists. reflexivity.
  - vm_compute. reflexivity.
  - vm_compute. reflexivity.
  - vm_compute. reflexivity.
Defined.

(** C8, at a failing input.  After initialisation the lock is free and
    the button shows the two labels; the second time state is switched to
    and its load fails with the cause 404.  The call of [switchToTime] ends
    rejected with the cause, the time state is marked [error], and the
    first time state is still the active one and still shown; but the
    state before the call is not restored: the lock is left held and the
    button reading the loading notice, and the next press of the button is
    refused. *)
Lemma failed_load_leaves_lock_held :
  let before := ToggleSample.state_after ToggleSample.boot in
  let after :=
    ToggleSample.state_after
      (ToggleSample.boot ++ [SwitchToTime "secondary"; AssetError 4 "404"; Microtask 3]) in
  skipn 5 (ToggleSample.output_of
             (ToggleSample.boot
              ++ [SwitchToTime "secondary"; AssetError 4 "404"; Microtask 3]))
  = [Console (LogSwitching "primary" "secondary"); Console (LogLoading "secondary");
     Console (ErrLoading "secondary" "404"); Rejected (KSwitchLoad "secondary") "404"]
  /\ loadingStates after !! "secondary" = Some LoadError
  /\ activeTimeId after = "primary" /\ shown after "primary" = true
  /\ switchLock before = false /\ switchLock after = true
  /\ toggleBtn before = Some (LabelTimes "Before" "After")
  /\ toggleBtn after = Some LabelLoading
  /\ waiters after = [] /\ timeouts after = []
  /\ step ToggleSample.cfg Toggle after = Some (after, [Console LogSwitchLocked]).
Proof. vm_compute. repeat split. Qed.

End ActiveState.
(** ** Numbers: zeros, NaN and order *)

Section FloatFacts.
Import NumSpec.

Lemma sub_self_zn x : zero_or_nan (x - x).
Proof.
  unfold zero_or_nan. rewrite sub_spec. unfold SF64sub.
  destruct (Prim2SF x) as [sg|sg| |sg m e]; cbn.
  - left. eexists. destruct sg; reflexivity.
  - right. destruct sg; reflexivity.
  - now right.
  - left. rewrite Z.sub_diag. cbn. eauto.
Qed.

Lemma mul_zn_l a w : zero_or_nan a -> zero_or_nan (a * w).
Proof.
  unfold zero_or_nan. rewrite mul_spec. unfold SF64mul.
  intros [[sg ->] | ->]; destruct (Prim2SF w) as [sw|sw| |sw m e]; cbn; eauto.
Qed.

Lemma mul_zn_r a w : zero_or_nan a -> zero_or_nan (w * a).
Proof.
  unfold zero_or_nan. rewrite mul_spec. unfold SF64mul.
  intros [[sg ->] | ->]; destruct (Prim2SF w) as [sw|sw| |sw m e]; cbn; eauto.
Qed.

Lemma sub_zn a b : zero_or_nan a -> zero_or_nan b -> zero_or_nan (a - b).
Proof.
  unfold zero_or_nan. rewrite sub_spec. unfold SF64sub.
  intros [[sa ->] | ->] [[sb ->] | ->]; cbn; eauto.
  left. destruct sa, sb; eauto.
Qed.

Lemma zn_small d :
  zero_or_nan d -> PrimFloat.ltb (PrimFloat.abs d) 0.0001 = true \/ Prim2SF d = S754_nan.
Proof.
  intros [[sg H] | H]; [left | now right].
  rewrite FloatAxioms.ltb_spec, abs_spec, H. reflexivity.
Qed.

Lemma div_nan n d : Prim2SF d = S754_nan -> Prim2SF (n / d) = S754_nan.
Proof.
  intros H. rewrite div_spec, H. unfold SF64div. destruct (Prim2SF n); reflexivity.
Qed.

Lemma leb_nan_r a b : Prim2SF b = S754_nan -> PrimFloat.leb a b = false.
Proof.
  intros H. rewrite FloatAxioms.leb_spec, H. unfold SFleb. destruct (Prim2SF a); reflexivity.
Qed.

(** The difference of a finite number with itself is [+0]. *)
Lemma sub_self_finite x : PrimFloat.is_finite x = true -> (x - x = 0)%float.
Proof.
  intros Hf. apply Prim2SF_inj. rewrite sub_spec. unfold SF64sub.
  unfold is_finite, is_nan, is_infinity in Hf.
  rewrite !FloatAxioms.eqb_spec, abs_spec in Hf.
  destruct (Prim2SF x) as [sg|sg| |sg m e]; cbn in *.
  - destruct sg; reflexivity.
  - destruct sg; discriminate.
  - discriminate.
  - rewrite Z.sub_diag. reflexivity.
Qed.





End FloatFacts.
(** ** The walls *)

Section Walls.
Import WallSystem WallSpec NumSpec.

Lemma lineSegmentsIntersect_flat x1 y1 x2 y2 x3 y3 x4 y4 :
  zero_or_nan (denom x1 y1 x2 y2 x3 y3 x4 y4) ->
  lineSegmentsIntersect x1 y1 x2 y2 x3 y3 x4 y4 = false.
Proof.
  intros Hd. unfold lineSegmentsIntersect. cbv zeta.
  destruct (zn_small _ Hd) as [-> | Hn]; [reflexivity|].
  destruct (PrimFloat.ltb _ _); [reflexivity|].
  unfold Num.geb, param_t. rewrite (leb_nan_r 0); [reflexivity|].
  now apply div_nan.
Qed.

Lemma lineSegmentsIntersect_still x1 y1 x3 y3 x4 y4 :
  lineSegmentsIntersect x1 y1 x1 y1 x3 y3 x4 y4 = false.
Proof.
  apply lineSegmentsIntersect_flat. unfold denom.
  apply sub_zn; apply mul_zn_l, sub_self_zn.
Qed.

Lemma lineSegmentsIntersect_point x1 y1 x2 y2 x3 y3 :
  lineSegmentsIntersect x1 y1 x2 y2 x3 y3 x3 y3 = false.
Proof.
  apply lineSegmentsIntersect_flat. unfold denom.
  apply sub_zn; apply mul_zn_r, sub_self_zn.
Qed.

Lemma checkWallCollision_existsb walls oldPos newPos :
  checkWallCollision walls oldPos newPos = existsb (crosses oldPos newPos) walls.
Proof.
  induction walls as [|s walls IH]; cbn; [reflexivity|].
  rewrite IH. now destruct (crosses oldPos newPos s).
Qed.

Lemma getWallCollisionInfo_find walls oldPos newPos :
  getWallCollisionInfo walls oldPos newPos
  = (fun s => (seg_name s, seg_start s, seg_end s)) <$> List.find (crosses oldPos newPos) walls.
Proof.
  induction walls as [|s walls IH]; cbn; [reflexivity|].
  rewrite IH. now destruct (crosses oldPos newPos s).
Qed.

Lemma checkWallCollision_still walls p q :
  vx q = vx p -> vz q = vz p -> checkWallCollision walls p q = false.
Proof.
  intros Hx Hz. induction walls as [|s walls IH]; cbn; [reflexivity|].
  unfold crosses at 1. rewrite Hx, Hz, lineSegmentsIntersect_still. exact IH.
Qed.

Lemma removeWallSegment_split walls name :
  match List.find (fun s => bool_decide (seg_name s = name)) walls with
  | None => removeWallSegment walls name = (false, walls)
  | Some s =>
      exists before after,
        walls = before ++ s :: after
        /\ (forall s', s' ∈ before -> seg_name s' <> name)
        /\ seg_name s = name
        /\ removeWallSegment walls name = (true, before ++ after)
  end.
Proof.
  induction walls as [|s walls IH]; cbn; [reflexivity|].
  case_bool_decide as Hn.
  - exists [], walls. repeat split; auto. intros s' Hs'. inversion Hs'.
  - destruct (find _ walls) as [s0|].
    + destruct IH as (before & after & -> & Hb & Hs0 & ->).
      exists (s :: before), after. repeat split; auto.
      intros s' [-> | Hs']%elem_of_cons; auto.
    + now rewrite IH.
Qed.

Lemma find_name_app name (l1 l2 : list Segment) :
  List.find (fun s => bool_decide (seg_name s = name)) (l1 ++ l2)
  = match List.find (fun s => bool_decide (seg_name s = name)) l1 with
    | Some s => Some s
    | None => List.find (fun s => bool_decide (seg_name s = name)) l2
    end.
Proof.
  induction l1 as [|s l1 IH]; cbn; [reflexivity|].
  destruct (bool_decide (seg_name s = name)); [reflexivity | exact IH].
Qed.

Lemma find_name_none name (l : list Segment) :
  name ∉ names l -> List.find (fun s => bool_decide (seg_name s = name)) l = None.
Proof.
  induction l as [|s l IH]; cbn; [reflexivity|].
  intros [Hne Hl]%not_elem_of_cons.
  rewrite bool_decide_eq_false_2 by congruence. now apply IH.
Qed.

Lemma removeWallSegment_app walls name rest :
  name ∉ names walls ->
  removeWallSegment (walls ++ rest) name
  = ((removeWallSegment rest name).1, walls ++ (removeWallSegment rest name).2).
Proof.
  induction walls as [|s walls IH]; cbn.
  - intros _. now destruct (removeWallSegment rest name).
  - intros [Hne Hl]%not_elem_of_cons.
    rewrite bool_decide_eq_false_2 by congruence. rewrite IH by assumption. reflexivity.
Qed.

(** X1.  [checkWallCollision] reports a collision exactly when the movement
    crosses one of the wall segments, and [getWallCollisionInfo] then
    describes the first such segment in the order of [WALL_SEGMENTS]; it
    answers [null] exactly when [checkWallCollision] answers [false]. *)
Theorem wall_collision_first_hit :
  forall (walls : list Segment) (oldPos newPos : Vec3),
    (checkWallCollision walls oldPos newPos = true
     <-> exists s, s ∈ walls /\ crosses oldPos newPos s = true)
    /\ (getWallCollisionInfo walls oldPos newPos = None
        <-> checkWallCollision walls oldPos newPos = false)
    /\ (forall name start end_,
          getWallCollisionInfo walls oldPos newPos = Some (name, start, end_) <->
          exists before s after,
            walls = before ++ s :: after
            /\ (forall s', s' ∈ before -> crosses oldPos newPos s' = false)
            /\ crosses oldPos newPos s = true
            /\ (name, start, end_) = (seg_name s, seg_start s, seg_end s)).
Proof.
  intros walls oldPos newPos. split; [|split].
  - rewrite checkWallCollision_existsb, existsb_exists.
    split; intros (s & Hin & Hc); exists s; split; auto; now apply list_elem_of_In.
  - rewrite checkWallCollision_existsb, getWallCollisionInfo_find.
    induction walls as [|s walls IH]; cbn; [tauto|].
    destruct (crosses oldPos newPos s); cbn; [split; discriminate | exact IH].
  - intros name start end_. rewrite getWallCollisionInfo_find.
    induction walls as [|s walls IH]; cbn.
    + split; [discriminate|]. intros (before & s & after & Hw & _).
      destruct before; discriminate.
    + destruct (crosses oldPos newPos s) eqn:Hc; cbn.
      * split.
        -- intros [= <- <- <-]. exists [], s, walls. repeat split; auto.
           intros s' Hs'. inversion Hs'.
        -- intros (before & s0 & after & Hw & Hb & Hc0 & Heq).
           destruct before as [|b before]; cbn in Hw.
           ++ injection Hw as <- <-. now rewrite Heq.
           ++ injection Hw as <- ->. rewrite (Hb s) in Hc by left. discriminate.
      * rewrite IH. split.
        -- intros (before & s0 & after & -> & Hb & Hc0 & Heq).
           exists (s :: before), s0, after. repeat split; auto.
           intros s' [-> | Hs']%elem_of_cons; auto.
        -- intros (before & s0 & after & Hw & Hb & Hc0 & Heq).
           destruct before as [|b before]; cbn in Hw.
           ++ injection Hw as <- <-. congruence.
           ++ injection Hw as <- ->. exists before, s0, after. repeat split; auto.
              intros s' Hs'. apply Hb. now right.
Qed.

(** X2.  The walls have no height and no thickness.  A movement that keeps
    [x] and [z], whatever it does to [y], crosses no wall, for any walls
    and any numbers, NaN and the infinities included; and the verdict on
    any movement is the verdict on its projection to the ground. *)
Theorem walls_ignore_height :
  forall (walls : list Segment) (x y z x' y' z' : float),
    checkWallCollision walls (mkVec3 x y z) (mkVec3 x y' z) = false
    /\ getWallCollisionInfo walls (mkVec3 x y z) (mkVec3 x y' z) = None
    /\ checkWallCollision walls (mkVec3 x y z) (mkVec3 x' y' z')
       = checkWallCollision walls (mkVec3 x 0 z) (mkVec3 x' 0 z').
Proof.
  intros walls x y z x' y' z'.
  assert (Hstill : checkWallCollision walls (mkVec3 x y z) (mkVec3 x y' z) = false)
    by now apply checkWallCollision_still.
  split; [exact Hstill|]. split.
  - rewrite getWallCollisionInfo_find.
    rewrite checkWallCollision_existsb in Hstill.
    induction walls as [|s walls IH]; cbn in *; [reflexivity|].
    apply orb_false_iff in Hstill as [-> Hrest]. now apply IH.
  - clear Hstill. induction walls as [|s walls IH]; cbn; [reflexivity|].
    rewrite IH. reflexivity.
Qed.

(** X3.  A wall segment whose two end points coincide blocks no movement,
    whatever the numbers: adding one to the walls changes no verdict. *)
Theorem degenerate_wall_never_blocks :
  forall (walls : list Segment) (oldPos newPos : Vec3) (point : Point2)
         (label : string) (shade : N) (name : option string) (color : option N),
    crosses oldPos newPos (mkSegment label point point shade) = false
    /\ checkWallCollision (addWallSegment walls point point name color) oldPos newPos
       = checkWallCollision walls oldPos newPos.
Proof.
  intros walls oldPos newPos point label shade name color. split.
  - apply lineSegmentsIntersect_point.
  - rewrite !checkWallCollision_existsb. unfold addWallSegment.
    rewrite existsb_app. cbn. unfold crosses at 2. cbn.
    rewrite lineSegmentsIntersect_point. now rewrite !orb_false_r.
Qed.

(** X4.  [removeWallSegment] removes the first segment that bears the name,
    the one [getWallSegment] finds, and nothing else; it answers [false]
    and leaves the walls as they are when no segment bears the name.  When
    names are not repeated the name is gone afterwards; when they are, the
    next segment of that name takes its place. *)
Theorem removeWallSegment_first :
  forall (walls : list Segment) (name : string),
    (getWallSegment walls name = None ->
     removeWallSegment walls name = (false, walls))
    /\ (forall s,
          getWallSegment walls name = Some s ->
          exists before after,
            walls = before ++ s :: after
            /\ (forall s', s' ∈ before -> seg_name s' <> name)
            /\ seg_name s = name
            /\ removeWallSegment walls name = (true, before ++ after)
            /\ getWallSegment (removeWallSegment walls name).2 name
               = getWallSegment after name)
    /\ ((removeWallSegment walls name).1 = true <-> name ∈ names walls)
    /\ (NoDup (names walls) ->
        getWallSegment (removeWallSegment walls name).2 name = None)
    /\ length (removeWallSegment walls name).2
       = length walls - (if (removeWallSegment walls name).1 then 1 else 0).
Proof.
  intros walls name. pose proof (removeWallSegment_split walls name) as Hs.
  unfold getWallSegment.
  destruct (find _ walls) as [s|] eqn:Hf.
  - destruct Hs as (before & after & Hw & Hb & Hn & Hr).
    assert (Hbn : name ∉ names before).
    { intros (s' & Heq & Hin)%list_elem_of_fmap. now apply (Hb s'). }
    split; [discriminate|]. split; [|split; [|split]].
    + intros s0 [= <-]. exists before, after. rewrite Hr. cbn.
      repeat split; auto.
      rewrite find_name_app, find_name_none by assumption. reflexivity.
    + rewrite Hr, Hw. cbn. split; [|reflexivity]. intros _.
      unfold names. rewrite fmap_app. apply elem_of_app. right. cbn. rewrite Hn. left.
    + rewrite Hr, Hw. cbn. unfold names. rewrite fmap_app. cbn.
      intros [_ [_ Hnd]]%NoDup_app. apply NoDup_cons in Hnd as [Hna _].
      rewrite find_name_app, find_name_none by assumption.
      apply find_name_none. now rewrite <- Hn.
    + rewrite Hr, Hw. cbn. rewrite !length_app. cbn. lia.
  - rewrite Hs. cbn. split; [reflexivity|]. split; [discriminate|].
    split; [|split; [auto | lia]].
    split; [discriminate|]. intros (s' & Heq & Hin)%list_elem_of_fmap.
    apply list_elem_of_In in Hin.
    apply (find_none _ _ Hf) in Hin. apply bool_decide_eq_false in Hin. congruence.
Qed.

(** X5.  [addWallSegment] appends and never replaces.  A segment added
    under a name that no wall bears is the one [getWallSegment] finds, and
    removing it gives back the walls as they were; under a name already
    borne, the older wall keeps being the one found and the one removed.
    A segment added without a name is called [wall_<n>], [n] the number of
    walls before it, and the verdict on a movement afterwards is the
    verdict before or a crossing of the new segment. *)
Theorem addWallSegment_lookup :
  forall (walls : list Segment) (start end_ : Point2) (name : string)
         (color : option N) (oldPos newPos : Vec3),
    let added := mkSegment name start end_ (default 65280%N color) in
    (name <> "" ->
     addWallSegment walls start end_ (Some name) color = walls ++ [added]
     /\ (name ∉ names walls ->
         getWallSegment (addWallSegment walls start end_ (Some name) color) name = Some added
         /\ removeWallSegment (addWallSegment walls start end_ (Some name) color) name
            = (true, walls))
     /\ (forall old,
           getWallSegment walls name = Some old ->
           getWallSegment (addWallSegment walls start end_ (Some name) color) name = Some old
           /\ removeWallSegment (addWallSegment walls start end_ (Some name) color) name
              = (true, (removeWallSegment walls name).2 ++ [added])))
    /\ seg_name <$> last (addWallSegment walls start end_ None color)
       = Some ("wall_" +:+ pretty (length walls))
    /\ addWallSegment walls start end_ (Some "") color
       = addWallSegment walls start end_ None color
    /\ checkWallCollision (addWallSegment walls start end_ (Some name) color) oldPos newPos
       = checkWallCollision walls oldPos newPos || crosses oldPos newPos added.
Proof.
  intros walls [x z] [x' z'] name color oldPos newPos added. subst added.
  split; [|split; [|split]].
  - intros Hne.
    assert (Hadd : addWallSegment walls (mkPoint2 x z) (mkPoint2 x' z') (Some name) color
                   = walls ++ [mkSegment name (mkPoint2 x z) (mkPoint2 x' z')
                                 (default 65280%N color)]).
    { unfold addWallSegment. now rewrite bool_decide_eq_false_2. }
    rewrite Hadd. split; [reflexivity|]. split.
    + intros Hfresh. unfold getWallSegment.
      rewrite find_name_app, find_name_none by assumption. cbn.
      rewrite bool_decide_eq_true_2 by reflexivity. split; [reflexivity|].
      rewrite removeWallSegment_app by assumption. cbn.
      rewrite bool_decide_eq_true_2 by reflexivity. cbn. now rewrite app_nil_r.
    + intros old Hold. unfold getWallSegment in *.
      rewrite find_name_app, Hold. split; [reflexivity|].
      pose proof (removeWallSegment_split walls name) as Hs. rewrite Hold in Hs.
      destruct Hs as (before & after & Hw & Hb & Hn & Hr).
      rewrite Hr. cbn. rewrite Hw at 1.
      assert (Hbn : name ∉ names before).
      { intros (s' & Heq & Hin)%list_elem_of_fmap. now apply (Hb s'). }
      rewrite <- app_assoc. rewrite removeWallSegment_app by assumption. cbn.
      rewrite bool_decide_eq_true_2 by assumption. cbn. now rewrite <- app_assoc.
  - unfold addWallSegment. now rewrite last_snoc.
  - reflexivity.
  - rewrite !checkWallCollision_existsb.
    unfold addWallSegment. rewrite existsb_app. cbn. rewrite orb_false_r.
    destruct (bool_decide (name = "")) eqn:Hn; [|reflexivity].
    reflexivity.
Qed.

End Walls.

Section WallConfig.
Import WallSystem WallSpec Main.

Lemma add_segments_spec segs : forall walls,
  add_segments walls segs
  = (walls ++ imap (fun i => wall_of (length walls + i)) (complete_prefix segs),
     negb (forallb complete segs)).
Proof.
  induction segs as [|seg segs IH]; intros walls; cbn.
  - now rewrite app_nil_r.
  - destruct (complete seg) eqn:Hc; unfold complete in Hc.
    + apply andb_true_iff in Hc as [[st Hs]%bool_decide_eq_true [en He]%bool_decide_eq_true].
      rewrite Hs, He. cbn. rewrite IH. unfold addWallSegment. rewrite <- app_assoc. cbn.
      f_equal. f_equal. f_equal.
      * unfold wall_of. rewrite Hs, He, Nat.add_0_r. now destruct st, en.
      * apply imap_ext. intros i x0 _. cbn. rewrite length_app. cbn. f_equal. lia.
    + cbn. rewrite app_nil_r.
      destruct (js_start seg), (js_end seg); cbn in Hc; try discriminate; reflexivity.
Qed.

(** X6.  [loadWalls] leaves the walls as they were when the fetch is
    rejected, the response is not [ok], the body does not parse or has no
    [segments].  Otherwise it replaces them: by one wall per segment, in
    order, a segment without a name being called after its position, when
    every segment has both end points (an empty array leaves no wall at
    all); and by the walls of the segments before the first one that lacks
    an end point when there is one, the walls as they were being lost
    although the failure is logged as falling back to them. *)
Theorem loadWalls_outcomes :
  forall walls : list Segment,
    (forall response,
       (match response with
        | Responds true (Some data) => segments data = None
        | _ => True
        end) ->
       (loadWalls response walls).1 = walls)
    /\ (forall segs,
          (loadWalls (Responds true (Some (mkWallConfig (Some segs)))) walls).1
          = imap wall_of (complete_prefix segs))
    /\ (forall segs,
          forallb complete segs = true ->
          loadWalls (Responds true (Some (mkWallConfig (Some segs)))) walls
          = (imap wall_of segs, [LogLoadedWalls (length segs); UpdateWallList]))
    /\ (forall segs,
          forallb complete segs = false ->
          (loadWalls (Responds true (Some (mkWallConfig (Some segs)))) walls).2
          = [WarnWallConfig]
          /\ length (loadWalls (Responds true (Some (mkWallConfig (Some segs)))) walls).1
             < length segs)
    /\ (loadWalls (Responds true (Some (mkWallConfig (Some Sample.broken_config))))
          WALL_SEGMENTS).1
       = [mkSegment "wall_0" (mkPoint2 0 0) (mkPoint2 1 0) 65280].
Proof.
  intros walls.
  assert (Hpre : forall segs, forallb complete segs = true -> complete_prefix segs = segs).
  { induction segs as [|seg segs IH]; cbn; [reflexivity|].
    intros [-> H]%andb_true_iff. now rewrite IH. }
  assert (Hlt : forall segs, forallb complete segs = false ->
                             length (complete_prefix segs) < length segs).
  { induction segs as [|seg segs IH]; cbn; [discriminate|].
    destruct (complete seg); cbn; [|lia]. intros H. apply IH in H. lia. }
  split; [|split; [|split; [|split]]].
  - intros [err | [] [data|]] H; cbn; try reflexivity. now rewrite H.
  - intros segs. cbn. rewrite add_segments_spec. cbn.
    destruct (forallb complete segs); reflexivity.
  - intros segs H. cbn. rewrite add_segments_spec, H, Hpre by assumption. reflexivity.
  - intros segs H. cbn. rewrite add_segments_spec, H. cbn.
    split; [reflexivity|]. rewrite length_imap. auto.
  - vm_compute. reflexivity.
Qed.

End WallConfig.
(** ** The collision system: further properties *)

Section CollisionMore.
Import CollisionSystem NumSpec.

Lemma fire_absent i env h h' :
  physicsReady (h_system h) = false -> rigidbody env = None ->
  fire i env h = Some h' ->
  h_system h' = h_system h
  /\ h_raycasts h' = h_raycasts h
  /\ S (length (h_timers h')) = length (h_timers h)
  /\ h_calls h' = S (h_calls h)
  /\ h_log h' = h_log h ++ [WarnNotReady].
Proof.
  intros Hr Hrb. unfold fire.
  destruct (h_timers h !! i) as [due|] eqn:Hi; [|discriminate].
  intros [= <-]. unfold _testPhysicsReady. rewrite Hr, Hrb. cbn.
  rewrite app_nil_r, length_delete by eauto.
  apply lookup_lt_Some in Hi. repeat split; lia.
Qed.

Lemma run_absent evs : forall h0 h1,
  physicsReady (h_system h0) = false ->
  Forall (fun ev => rigidbody ev.2 = None) evs ->
  run evs h0 = Some h1 ->
  h_system h1 = h_system h0
  /\ h_raycasts h1 = h_raycasts h0
  /\ h_calls h1 = length evs + h_calls h0
  /\ length (h_timers h1) + length evs = length (h_timers h0)
  /\ h_log h1 = h_log h0 ++ replicate (length evs) WarnNotReady.
Proof.
  induction evs as [|[i env] evs IH]; cbn; intros h0 h1 Hr Hall Hrun.
  - injection Hrun as <-. rewrite app_nil_r. repeat split; lia.
  - destruct (fire i env h0) as [h'|] eqn:Hf; [|discriminate].
    apply Forall_cons in Hall as [Hrb Hall]. cbn in Hrb.
    destruct (fire_absent _ _ _ _ Hr Hrb Hf) as (Hs & Hc & Ht & Hk & Hl).
    destruct (IH h' h1) as (Hs' & Hc' & Hk' & Ht' & Hl'); auto; [congruence|].
    rewrite Hs', Hc', Hk', Hl', Hs, Hc, Hk, Hl, <- app_assoc. cbn.
    repeat split; lia.
Qed.

(** X7.  Where the rigidbody system is missing the handshake gives up.
    Each of the three tests scheduled by [_setupCollisionMesh] that finds
    no rigidbody system logs a warning and schedules nothing, so that
    after the third no test is pending, no probe raycast was ever issued,
    the system is as [_setupCollisionMesh] left it, and [checkCollision]
    blocks no movement from then on. *)
Theorem handshake_gives_up_without_rigidbody :
  forall (model : Ent) (now : nat) (cs : CollisionSystem)
         (evs : list (nat * Physics)) (h : Handshake),
    physicsReady cs = false ->
    Forall (fun ev => rigidbody ev.2 = None) evs ->
    run evs (setup model now cs) = Some h ->
    h_system h = set_mesh model cs
    /\ h_raycasts h = 0
    /\ h_calls h = length evs
    /\ length (h_timers h) + length evs = 3
    /\ h_log h = replicate (length evs) WarnNotReady
    /\ forall env currentPos newPos,
         blocked (checkCollision env (h_system h) currentPos newPos) = false.
Proof.
  intros model now cs evs h Hr Hall Hrun.
  destruct (run_absent evs (setup model now cs) h Hr Hall Hrun) as (Hs & Hc & Hk & Ht & Hl).
  cbn in *. rewrite Hs. repeat split; auto; try lia.
  intros env currentPos newPos. unfold checkCollision. cbn. rewrite Hr.
  now rewrite orb_true_r.
Qed.

(** The theorem on the handshake all three of whose tests find no
    rigidbody system. *)
Lemma handshake_gives_up_without_rigidbody_witness :
  h_timers
    (default HandshakeClock.started
       (run [(0, Sample.no_physics); (0, Sample.no_physics); (0, Sample.no_physics)]
            (setup 1 0 constructor)))
  = [].
Proof.
  destruct (handshake_gives_up_without_rigidbody 1 0 constructor
              [(0, Sample.no_physics); (0, Sample.no_physics); (0, Sample.no_physics)]
              (default HandshakeClock.started
                 (run [(0, Sample.no_physics); (0, Sample.no_physics);
                       (0, Sample.no_physics)] (setup 1 0 constructor))))
    as (_ & _ & _ & Ht & _).
  - reflexivity.
  - repeat constructor.
  - vm_compute. reflexivity.
  - cbn [length] in Ht. destruct (h_timers _); [reflexivity | cbn in Ht; lia].
Defined.

Lemma fire_ready i env h h' :
  physicsReady (h_system h) = true -> fire i env h = Some h' ->
  h_system h' = h_system h
  /\ h_raycasts h' = h_raycasts h
  /\ S (length (h_timers h')) = length (h_timers h)
  /\ h_log h' = h_log h.
Proof.
  intros Hr. unfold fire.
  destruct (h_timers h !! i) as [due|] eqn:Hi; [|discriminate].
  intros [= <-]. unfold _testPhysicsReady. rewrite Hr. cbn.
  rewrite !app_nil_r, length_delete by eauto.
  apply lookup_lt_Some in Hi. repeat split; lia.
Qed.

(** X8.  Readiness is final.  Once [physicsReady] is set, the tests still
    pending do nothing when they fire: no probe raycast, no log, no new
    timeout, and the system is left exactly as it is, so that a collision
    switched off by [toggleCollision] after the handshake is not switched
    back on by a later test. *)
Theorem handshake_ready_is_final :
  forall (evs : list (nat * Physics)) (h h' : Handshake),
    physicsReady (h_system h) = true ->
    run evs h = Some h' ->
    h_system h' = h_system h
    /\ h_raycasts h' = h_raycasts h
    /\ h_log h' = h_log h
    /\ length (h_timers h') + length evs = length (h_timers h)
    /\ physicsReady (toggleCollision (h_system h)) = true.
Proof.
  induction evs as [|[i env] evs IH]; cbn; intros h h' Hr Hrun.
  - injection Hrun as <-. repeat split; auto; lia.
  - destruct (fire i env h) as [h1|] eqn:Hf; [|discriminate].
    destruct (fire_ready _ _ _ _ Hr Hf) as (Hs & Hc & Ht & Hl).
    destruct (IH h1 h') as (Hs' & Hc' & Hl' & Ht' & _); auto; [congruence|].
    repeat split; try congruence. lia.
Qed.

(** The theorem on the handshake whose first test succeeded and whose
    collision was then switched off: the two later tests leave it off. *)
Lemma handshake_ready_is_final_witness :
  collisionEnabled
    (h_system
       (default HandshakeClock.started
          (run [(0, Sample.open_space); (0, Sample.open_space)]
               (mkHandshake (toggleCollision Sample.ready_system) 100 [500; 1000] 1 1 []))))
  = false.
Proof.
  destruct (handshake_ready_is_final
              [(0, Sample.open_space); (0, Sample.open_space)]
              (mkHandshake (toggleCollision Sample.ready_system) 100 [500; 1000] 1 1 [])
              (default HandshakeClock.started
                 (run [(0, Sample.open_space); (0, Sample.open_space)]
                      (mkHandshake (toggleCollision Sample.ready_system) 100
                                   [500; 1000] 1 1 []))))
    as (Hs & _).
  - reflexivity.
  - vm_compute. reflexivity.
  - rewrite Hs. reflexivity.
Defined.

(** X9.  The scratch vector [_direction] that [checkCollision] reuses
    carries nothing from one call to the next: the verdict and the log do
    not depend on it, a call changes no other field of the system, and so
    the verdict on a movement is the same whatever movements were checked
    before. *)
Theorem checkCollision_scratch :
  forall (env : Physics) (cs : CollisionSystem) (d a b currentPos newPos : Vec3),
    blocked (checkCollision env (set_direction d cs) currentPos newPos)
    = blocked (checkCollision env cs currentPos newPos)
    /\ logged (checkCollision env (set_direction d cs) currentPos newPos)
       = logged (checkCollision env cs currentPos newPos)
    /\ (exists d', after (checkCollision env cs currentPos newPos) = set_direction d' cs)
    /\ blocked (checkCollision env (after (checkCollision env cs a b)) currentPos newPos)
       = blocked (checkCollision env cs currentPos newPos).
Proof.
  intros env cs d a b currentPos newPos.
  assert (H1 : forall d0,
            blocked (checkCollision env (set_direction d0 cs) currentPos newPos)
            = blocked (checkCollision env cs currentPos newPos)
            /\ logged (checkCollision env (set_direction d0 cs) currentPos newPos)
               = logged (checkCollision env cs currentPos newPos)).
  { intros d0. unfold checkCollision. cbn.
    destruct (negb (collisionEnabled cs) || _ || _); [auto|].
    destruct (PrimFloat.eqb _ 0); [auto|].
    destruct (callRaycastFirst env currentPos newPos) as [[[[e|] point]|]|err]; cbn; auto. }
  assert (H2 : forall p q, exists d', after (checkCollision env cs p q) = set_direction d' cs).
  { intros p q. unfold checkCollision.
    destruct (negb (collisionEnabled cs) || _ || _);
      [exists (_direction cs); now destruct cs|].
    destruct (PrimFloat.eqb _ 0); [eauto|].
    destruct (callRaycastFirst env p q) as [[[[e|] point]|]|err]; cbn; eauto.
    all: try (destruct (PrimFloat.ltb _ _); eauto). }
  destruct (H1 d) as [Hb Hl]. repeat split; auto.
  destruct (H2 a b) as [d' ->]. apply H1.
Qed.

Lemma length_still p :
  finite_position p = true -> V.length (V.sub2 p p) = 0%float.
Proof.
  unfold finite_position. intros [[Hx Hy]%andb_true_iff Hz]%andb_true_iff.
  unfold V.length, V.lengthSq, V.sub2, V.sub. cbn.
  rewrite !sub_self_finite by assumption. reflexivity.
Qed.

Lemma checkCollision_still env cs p :
  finite_position p = true -> checkCollision env cs p p = mkChecked false
    (if negb (collisionEnabled cs) || negb (bool_decide (is_Some (collisionMesh cs)))
        || negb (physicsReady cs)
     then cs else set_direction (mkVec3 0 0 0) cs) [].
Proof.
  intros Hp. unfold checkCollision. rewrite (length_still p Hp).
  destruct (negb (collisionEnabled cs) || _ || _); [reflexivity|].
  cbn. unfold finite_position in Hp.
  apply andb_true_iff in Hp as [[Hx Hy]%andb_true_iff Hz].
  unfold V.sub2, V.sub. now rewrite !sub_self_finite by assumption.
Qed.

(** X10.  Standing still is never a collision: for a position with finite
    coordinates, [checkCollision] from the position to itself answers
    [false] and logs nothing, whatever the state of the system and
    whatever the raycast would report or throw, the movement having length
    zero. *)
Theorem checkCollision_standing_still :
  forall (env : Physics) (cs : CollisionSystem) (p : Vec3),
    finite_position p = true ->
    V.length (V.sub2 p p) = 0%float
    /\ blocked (checkCollision env cs p p) = false
    /\ logged (checkCollision env cs p p) = [].
Proof.
  intros env cs p Hp. split; [now apply length_still|].
  rewrite checkCollision_still by assumption. split; reflexivity.
Qed.

(** The theorem at the spawn point, with a raycast that reports a hit. *)
Lemma checkCollision_standing_still_witness :
  blocked (checkCollision Sample.hit_near Sample.ready_system Sample.here Sample.here)
  = false.
Proof.
  apply (checkCollision_standing_still Sample.hit_near Sample.ready_system Sample.here).
  vm_compute. reflexivity.
Defined.

End CollisionMore.
(** ** The movement handler: further properties *)

Section Frames.
Context {P : Type} (ops : PortalOps P).
Import Main NumSpec.

Lemma commit_nav dt newPos (n : Nav P) calls log :
  let f := commit ops dt newPos n calls log in
  keys (f_nav f) = keys n /\ movement (f_nav f) = movement n
  /\ smoothMovement (f_nav f) = smoothMovement n
  /\ flyMode (f_nav f) = flyMode n
  /\ wallCollisionEnabled (f_nav f) = wallCollisionEnabled n
  /\ moveSpeed (f_nav f) = moveSpeed n /\ maxMoveSpeed (f_nav f) = maxMoveSpeed n
  /\ maxY (f_nav f) = maxY n
  /\ collisionSystem (f_nav f) = collisionSystem n
  /\ WALL_SEGMENTS (f_nav f) = WALL_SEGMENTS n
  /\ f_log f = log.
Proof.
  unfold commit, setPosition, with_portal. cbn.
  destruct (portalSystem n); cbn; repeat split; reflexivity.
Qed.

(** X11.  What a frame leaves alone.  The handler changes neither the keys,
    the joystick state, the mode, the wall switch, the speeds, the height
    limit and the walls, nor the orientation of the camera; of the
    collision system it changes the scratch vector at most, and not even
    that in fly mode; it logs what the mesh check logged; and it zeroes
    [smoothMovement] exactly on the frames whose move is rejected. *)
Theorem update_frame_conditions :
  forall (env : Physics) (dt : float) (n : Nav P),
    let f := update ops env dt n in
    let c := CollisionSystem.checkCollision env (collisionSystem n)
               (cam_position (camera n)) (candidate dt n) in
    keys (f_nav f) = keys n
    /\ movement (f_nav f) = movement n
    /\ flyMode (f_nav f) = flyMode n
    /\ wallCollisionEnabled (f_nav f) = wallCollisionEnabled n
    /\ moveSpeed (f_nav f) = moveSpeed n
    /\ maxMoveSpeed (f_nav f) = maxMoveSpeed n
    /\ maxY (f_nav f) = maxY n
    /\ WALL_SEGMENTS (f_nav f) = WALL_SEGMENTS n
    /\ cam_forward (camera (f_nav f)) = cam_forward (camera n)
    /\ cam_right (camera (f_nav f)) = cam_right (camera n)
    /\ collisionSystem (f_nav f)
       = (if flyMode n then collisionSystem n else CollisionSystem.after c)
    /\ f_log f = (if flyMode n then [] else CollisionSystem.logged c)
    /\ smoothMovement (f_nav f)
       = (if NavSpec.rejected ops env dt n then mkSmooth 0 0 else smoothMovement n).
Proof.
  intros env dt n f c. subst f c.
  walk_cases ops env dt n;
    rewrite ?commit_camera; cbn;
    repeat match goal with
           | |- context [commit ops ?d ?p ?m ?cs ?l] =>
               let H := fresh in
               pose proof (commit_nav d p m cs l) as H; cbn zeta in H;
               destruct H as (-> & -> & -> & -> & -> & -> & -> & -> & -> & -> & ->)
           end; cbn; repeat split; first [reflexivity | assumption | congruence].
Qed.

Lemma candidate_idle dt (n : Nav P) :
  NavSpec.idle n = true -> candidate dt n = cam_position (camera n).
Proof.
  unfold NavSpec.idle. rewrite !andb_true_iff, !negb_true_iff.
  intros (((((((((HW & HS) & HA) & HD) & HQ) & HE) & Hf) & Hr) & Hu) & Hd).
  unfold candidate. cbv zeta. rewrite HW, HS, HA, HD, HQ, HE, Hf, Hr, Hu, Hd. cbn.
  now destruct (flyMode n).
Qed.

(** X12.  A frame without input.  With no movement key down, the joystick
    centred and no vertical button held, the candidate position is the
    position of the camera and the frame leaves the camera where it is;
    and in walk mode, from a position with finite coordinates, neither the
    mesh check nor the walls reject it, so that the frame commits, and the
    portal system is updated, unless the portal system itself rejects. *)
Theorem idle_frame_not_rejected :
  forall (env : Physics) (dt : float) (n : Nav P),
    NavSpec.idle n = true ->
    candidate dt n = cam_position (camera n)
    /\ camera (f_nav (update ops env dt n)) = camera n
    /\ (flyMode n = false -> finite_position (cam_position (camera n)) = true ->
        NavSpec.verdicts ops env dt n
        = [(Mesh, false)]
          ++ (if wallCollisionEnabled n then [(Wall, false)] else [])
          ++ match portalSystem n with
             | Some ps => [(Portal, (checkMovementBlocked ops ps (cam_position (camera n))
                                       (cam_position (camera n))).1)]
             | None => []
             end)
    /\ (flyMode n = false -> finite_position (cam_position (camera n)) = true ->
        portalSystem n = None ->
        committed (update ops env dt n) = Some (cam_position (camera n))).
Proof.
  intros env dt n Hidle. pose proof (candidate_idle dt n Hidle) as Hc.
  assert (Heta : forall c : Camera, mkCamera (cam_position c) (cam_forward c) (cam_right c) = c)
    by (now intros []).
  split; [assumption|]. split; [|split].
  - unfold update. rewrite Hc.
    destruct (flyMode n); [now rewrite commit_camera|].
    repeat (cbv zeta; match goal with
            | |- context [if ?b then _ else _] => destruct b
            | |- context [match ?b with Some _ => _ | None => _ end] => destruct b
            | |- context [let '(_, _) := ?b in _] => destruct b
            end); cbn; rewrite ?commit_camera; cbn; auto.
  - intros Hfly Hfin. unfold NavSpec.verdicts. rewrite Hc.
    rewrite checkCollision_still by assumption.
    rewrite checkWallCollision_still by reflexivity. reflexivity.
  - intros Hfly Hfin Hps. unfold update. rewrite Hfly, Hc. cbv zeta.
    rewrite checkCollision_still by assumption. cbn.
    rewrite checkWallCollision_still by reflexivity.
    destruct (wallCollisionEnabled n); cbn; rewrite Hps; apply committed_commit.
Qed.


End Frames.

(** The theorem on the sample frame with nothing pressed: the frame
    commits the position the camera is at. *)
Lemma idle_frame_not_rejected_witness :
  Main.committed
    (Main.update Sample.counting_portal Sample.hit_near Sample.dt60 Sample.standing)
  = Some Sample.here.
Proof.
  destruct (idle_frame_not_rejected Sample.counting_portal Sample.hit_near Sample.dt60
              Sample.standing) as (_ & _ & _ & Hc).
  - vm_compute. reflexivity.
  - apply Hc; vm_compute; reflexivity.
Defined.

(** ** The time toggle: complete runs *)

Section ToggleProgress.
Import TimeToggle ToggleSpec.
Context (cfg : ToggleConfig).

(** *** Every waiter has a promise of its own *)


Lemma loadTimeState_fresh timeId s :
  (loadTimeState cfg timeId s).1.1 = next s
  /\ next s < next (loadTimeState cfg timeId s).1.2
  /\ waiters (loadTimeState cfg timeId s).1.2 = waiters s.
Proof.
  unfold loadTimeState, new_promise. repeat case_match; simplify_eq; simpl; repeat split; lia.
Qed.

Lemma awaited_once_await p k s0 s :
  awaited_once s0 -> waiters s = waiters s0 -> next s0 <= p -> p < next s ->
  awaited_once (await p k s).
Proof.
  intros [Hnd Hlt] Hw Hp Hn. unfold awaited_once, await. simpl. rewrite Hw, fmap_app. simpl.
  split.
  - apply NoDup_app. split; [assumption|]. split; [|apply NoDup_singleton].
    intros q Hq Hq'. apply list_elem_of_singleton in Hq'. subst q.
    apply Hlt in Hq. lia.
  - intros q Hq. apply elem_of_app in Hq as [Hq|Hq].
    + apply Hlt in Hq. lia.
    + apply list_elem_of_singleton in Hq. lia.
Qed.

Lemma awaited_once_same s0 s :
  awaited_once s0 -> waiters s = waiters s0 -> next s0 <= next s -> awaited_once s.
Proof.
  intros [Hnd Hlt] Hw Hn. split; rewrite Hw; [assumption|].
  intros q Hq. apply Hlt in Hq. lia.
Qed.

Lemma take_waiter_perm p ws k rest :
  take_waiter p ws = Some (k, rest) -> ws ≡ₚ (p, k) :: rest.
Proof.
  revert k rest. induction ws as [|[q k0] ws IH]; simpl; intros k rest H; [discriminate|].
  case_bool_decide.
  - injection H as <- <-. subst. reflexivity.
  - destruct (take_waiter p ws) as [[k' rest']|]; [|discriminate].
    injection H as <- <-. etrans; [apply Permutation_skip, (IH _ _ eq_refl)|apply Permutation_swap].
Qed.

Lemma awaited_once_drop p k rest s :
  take_waiter p (waiters s) = Some (k, rest) -> awaited_once s ->
  awaited_once (set_waiters rest s).
Proof.
  intros Ht [Hnd Hlt]. apply take_waiter_perm in Ht.
  assert (Hperm : (waiters s).*1 ≡ₚ p :: rest.*1) by now rewrite Ht.
  unfold awaited_once. simpl. rewrite Hperm in Hnd.
  apply NoDup_cons in Hnd as [_ Hnd]. split; [assumption|].
  intros q Hq. apply Hlt. rewrite Hperm. now right.
Qed.

Lemma awaited_once_switch_loaded timeId s :
  awaited_once s -> awaited_once (switch_loaded timeId s).1.
Proof.
  intros H. unfold switch_loaded.
  destruct (splatEntities s !! activeTimeId s) as [eA|]; [|now apply (awaited_once_same s)].
  destruct (splatEntities s !! timeId) as [eB|]; [|now apply (awaited_once_same s)].
  unfold new_promise. simpl.
  apply (awaited_once_await _ _ s); simpl; auto.
Qed.

Lemma next_foldl_raf l : forall s, next (foldl run_raf s l) = next s /\ waiters (foldl run_raf s l) = waiters s.
Proof.
  induction l as [|cb l IH]; intros s; simpl; [auto|].
  destruct (IH (run_raf s cb)) as [-> ->]. destruct cb; simpl; auto.
Qed.

Lemma awaited_once_switchToTime timeId s :
  awaited_once s -> awaited_once (switchToTime cfg timeId s).1.
Proof.
  intros H. unfold switchToTime.
  case_bool_decide; [assumption|].
  destruct (switchLock s); [assumption|].
  destruct (negb _).
  - destruct (loadTimeState cfg timeId _) as [[p s1] o] eqn:Hl. simpl.
    pose proof (loadTimeState_fresh timeId
      (set_toggleBtn match toggleBtn (set_switchLock true s) with
                     | Some _ => Some LabelLoading | None => None end
         (set_switchLock true s))) as (Hp & Hn & Hw).
    rewrite Hl in Hp, Hn, Hw. simpl in *.
    apply (awaited_once_await _ _ s); auto; lia.
  - destruct (switch_loaded timeId (set_switchLock true s)) as [s1 o] eqn:Hs. simpl.
    change s1 with (s1, o).1. rewrite <- Hs.
    apply awaited_once_switch_loaded. exact H.
Qed.

Lemma awaited_once_step ev s s' o :
  awaited_once s -> step cfg ev s = Some (s', o) -> awaited_once s'.
Proof.
  intros H Hstep. destruct ev; simpl in Hstep.
  - (* Initialize *)
    unfold initialize in Hstep.
    destruct (loadTimeState cfg _ _) as [[p s1] o1] eqn:Hl.
    apply some_pair in Hstep as [-> ->]. simpl.
    pose proof (loadTimeState_fresh (activeTimeId (updateButtonLabel cfg (set_toggleBtn (Some LabelBlank) s)))
                  (updateButtonLabel cfg (set_toggleBtn (Some LabelBlank) s))) as (Hp & Hn & Hw).
    rewrite Hl in Hp, Hn, Hw. simpl in *.
    apply (awaited_once_await _ _ s); auto; lia.
  - apply some_pair in Hstep as [-> ->]. now apply awaited_once_switchToTime.
  - apply some_pair in Hstep as [-> ->]. unfold toggle.
    repeat case_match; auto using awaited_once_switchToTime.
  - apply some_pair in Hstep as [-> ->]. unfold handleKeyboard.
    repeat case_match; auto using awaited_once_switchToTime.

  - destruct (loadTimeState cfg timeId s) as [[p s1] o1] eqn:Hl.
    apply some_pair in Hstep as [-> ->]. simpl.
    pose proof (loadTimeState_fresh timeId s) as (Hp & Hn & Hw).
    rewrite Hl in Hp, Hn, Hw. simpl in *.
    apply (awaited_once_await _ _ s); auto; try lia.
  - apply some_pair in Hstep as [-> ->]. now apply (awaited_once_same s).
  - unfold assetReady in Hstep. repeat case_match; simplify_eq;
    apply (awaited_once_same s); simpl; auto; lia.
  - unfold assetError in Hstep. repeat case_match; simplify_eq;
    apply (awaited_once_same s); simpl; auto.
  - unfold intervalTick in Hstep. repeat case_match; simplify_eq; try assumption;
    apply (awaited_once_same s); simpl; auto.
  - unfold microtask in Hstep.
    destruct (take_waiter p (waiters s)) as [[k rest]|] eqn:Ht; [|discriminate].
    pose proof (awaited_once_drop _ _ _ _ Ht H) as Hd.
    destruct (promises s !! p) as [[r|v|cause]|]; try discriminate.
    + apply some_pair in Hstep as [-> ->].
      destruct k; simpl; auto using awaited_once_switch_loaded.
    + now simplify_eq.
  - apply some_pair in Hstep as [-> ->]. simpl. unfold animationFrame.
    destruct (next_foldl_raf (rafQueue s) (set_rafQueue [] s)) as [Hn Hw].
    apply (awaited_once_same s); simpl; auto. rewrite Hn. simpl. lia.
  - unfold timeout in Hstep. repeat case_match; simplify_eq;
    apply (awaited_once_same s); simpl; auto.
Qed.

Lemma awaited_once_reachable s : reachable cfg s -> awaited_once s.
Proof.
  apply reachable_invariant.
  - unfold constructor. intros s0 H. destruct (times cfg); simplify_eq.
    split; simpl; [constructor|]. intros p Hp. inversion Hp.
  - intros ev s1 s2 o. apply awaited_once_step.
Qed.


Lemma take_waiter_found p k ws :
  NoDup ws.*1 -> (p, k) ∈ ws -> exists rest, take_waiter p ws = Some (k, rest).
Proof.
  induction ws as [|[q k0] ws IH]; simpl; intros Hnd Hin; [inversion Hin|].
  apply NoDup_cons in Hnd as [Hq Hnd].
  case_bool_decide as Hqp.
  - subst q. apply elem_of_cons in Hin as [Hin | Hin].
    + injection Hin as ->. eauto.
    + exfalso. apply Hq. apply list_elem_of_fmap. exists (p, k). auto.
  - apply elem_of_cons in Hin as [Hin | Hin]; [congruence|].
    destruct (IH Hnd Hin) as [rest ->]. eauto.
Qed.

(** The state after the two frames of a handoff. *)
Lemma frames_pass s q target :
  wf cfg s -> vis s -> (q, KSwitchFrames target) ∈ waiters s ->
  let s2 := animationFrame (animationFrame s) in
  promises s2 !! q = Some (PResolved None)
  /\ lock_view s2 = lock_view s
  /\ load_view s2 = load_view s
  /\ onTimeChange s2 = onTimeChange s
  /\ toggleBtn s2 = toggleBtn s
  /\ next s2 = next s.
Proof.
  intros Hwf [_ _ Hstage] Hin.
  assert (Hfr : (q, KSwitchFrames target) ∈ frames_waiters s).
  { unfold frames_waiters. apply list_elem_of_In, filter_In.
    split; [now apply list_elem_of_In | reflexivity]. }
  unfold handoff_stage in Hstage.
  destruct (frames_waiters s) as [|[q' [t|target'| |tag]] [|w ws]] eqn:Hf;
    try contradiction; try (now inversion Hfr).
  apply list_elem_of_singleton in Hfr. injection Hfr as <- <-.
  destruct Hstage as [Hne (eA & HeA & [(Hq & [Hraf | Hraf] & _) | (Hq & Hraf & _)])];
    unfold animationFrame; rewrite Hraf; cbn; unfold settle; cbn;
    rewrite ?Hraf; cbn; rewrite ?Hq; cbn; rewrite ?lookup_insert_eq; repeat split; reflexivity.
Qed.


(** A switch that has enabled its target always completes: two frames, the
    microtask that resumes it, and the cooldown timeout. *)
Lemma handoff_run s q target :
  reachable cfg s -> (q, KSwitchFrames target) ∈ waiters s ->
  exists s' rest,
    take_waiter q (waiters s) = Some (KSwitchFrames target, rest)
    /\ run cfg [AnimationFrame; AnimationFrame; Microtask q; Timeout 0] s
       = Some (s', [Console (LogSwitched target)]
                   ++ (if onTimeChange s then [TimeChange target (activeTimeId s)] else []))
    /\ activeTimeId s' = target
    /\ switchLock s' = false
    /\ waiters s' = rest
    /\ timeouts s' = []
    /\ load_view s' = load_view s
    /\ toggleBtn s' = toggleBtn (updateButtonLabel cfg (set_activeTimeId target s))
    /\ onTimeChange s' = onTimeChange s
    /\ next s' = next s
    /\ (forall timeId, shown s' timeId = true <-> timeId = target).
Proof.
  intros Hreach Hin.
  destruct (good_reachable cfg s Hreach) as (Hwf & Hlock & Hvis).
  destruct (awaited_once_reachable s Hreach) as [Hnd _].
  destruct (take_waiter_found _ _ _ Hnd Hin) as [rest Htake].
  destruct (frames_pass s q target Hwf Hvis Hin) as (Hq & Hlv & Hld & Hcb & Hbtn & Hnext).
  set (s2 := animationFrame (animationFrame s)) in *.
  injection Hlv as Hl2 Hw2 Ht2 Ha2.
  assert (Htm : timeouts s = []).
  { unfold lock_inv, in_flight in Hlock.
    rewrite (take_waiter_count _ _ _ _ Htake) in Hlock. simpl in Hlock.
    destruct (timeouts s); [reflexivity|]. simpl in Hlock. destruct (switchLock s); lia. }
  assert (Hrun : run cfg [AnimationFrame; AnimationFrame; Microtask q; Timeout 0] s
       = Some (set_switchLock false (set_timeouts []
                 (switch_finish cfg target (set_waiters rest s2)).1),
               [Console (LogSwitched target)]
                   ++ (if onTimeChange s then [TimeChange target (activeTimeId s)] else []))).
  { cbn [run step]. fold s2. unfold microtask. rewrite Hw2, Htake, Hq.
    cbn [resume]. unfold timeout, switch_finish. cbn.
    rewrite Ht2, Htm, Hcb, Ha2. cbn. 
    destruct (onTimeChange s); reflexivity. }
  eexists _, rest. split; [exact Htake|]. split; [exact Hrun|].
  pose proof (reachable_run cfg _ _ _ _ Hreach Hrun) as Hreach'.
  destruct (good_reachable cfg _ Hreach') as (Hwf' & Hlock' & Hvis').
  cbn. rewrite Hbtn, Hcb, Hnext. injection Hld as Hld1 Hld2 Hld3.
  repeat split; try assumption.
  - unfold load_view. cbn. now rewrite Hld1, Hld2, Hld3.
  - edestruct (shown_by_stage cfg _ Hwf' Hvis') as (Hs & _).
    + unfold initialised. cbn. rewrite Hld2.
      destruct Hwf. destruct (wf_frames0 _ _ Hin) as [e He].
      now destruct (wf_handles0 _ _ He).
    + apply Hs. now apply no_frames_when_free.
  - edestruct (shown_by_stage cfg _ Hwf' Hvis') as (Hs & _).
    + unfold initialised. cbn. rewrite Hld2.
      destruct Hwf. destruct (wf_frames0 _ _ Hin) as [e He].
      now destruct (wf_handles0 _ _ He).
    + apply Hs. now apply no_frames_when_free.
Qed.



Lemma take_waiter_snoc p k ws :
  p ∉ ws.*1 -> take_waiter p (ws ++ [(p, k)]) = Some (k, ws).
Proof.
  induction ws as [|[q k0] ws IH]; simpl; intros Hp.
  - now rewrite bool_decide_eq_true_2.
  - apply not_elem_of_cons in Hp as [Hne Hp].
    rewrite bool_decide_eq_false_2 by congruence. now rewrite IH.
Qed.

Lemma fresh_waiter s : awaited_once s -> next s ∉ (waiters s).*1.
Proof. intros [_ Hlt] Hin. apply Hlt in Hin. lia. Qed.

(** [switchToTime] on a loaded target, from the call to the end of the
    cooldown. *)
Lemma switch_run s target :
  reachable cfg s ->
  switchLock s = false ->
  target <> activeTimeId s ->
  initialised s ->
  loadingStates s !! target = Some Loaded ->
  exists s',
    run cfg [SwitchToTime target; AnimationFrame; AnimationFrame;
             Microtask (next s); Timeout 0] s
    = Some (s', [Console (LogSwitching (activeTimeId s) target);
                 Console (LogSwitched target)]
                ++ (if onTimeChange s then [TimeChange target (activeTimeId s)] else []))
    /\ activeTimeId s' = target
    /\ switchLock s' = false
    /\ waiters s' = waiters s
    /\ timeouts s' = []
    /\ load_view s' = load_view s
    /\ toggleBtn s' = toggleBtn (updateButtonLabel cfg (set_activeTimeId target s))
    /\ onTimeChange s' = onTimeChange s
    /\ next s' = S (next s)
    /\ (forall timeId, shown s' timeId = true <-> timeId = target).
Proof.
  intros Hreach Hfree Hne Hinit Hloaded.
  destruct (good_reachable cfg s Hreach) as (Hwf & Hlock & Hvis).
  pose proof (awaited_once_reachable s Hreach) as Hawait.
  destruct Hwf.
  destruct (wf_loaded0 _ Hinit) as [eA HeA].
  destruct (wf_loaded0 _ Hloaded) as [eB HeB].
  set (s1 := await (next s) (KSwitchFrames target)
               (set_rafQueue (rafQueue s ++ [RafOuter eA (next s)])
                  (new_promise (PPending ByFrames)
                     (enable eB true (set_switchLock true s))).2)).
  assert (H1 : switchToTime cfg target s
               = (s1, [Console (LogSwitching (activeTimeId s) target)])).
  { subst s1. unfold switchToTime.
    rewrite bool_decide_eq_false_2 by assumption. rewrite Hfree. cbn.
    rewrite Hloaded. rewrite bool_decide_eq_true_2 by reflexivity. cbn.
    unfold switch_loaded. cbn. rewrite HeA, HeB. reflexivity. }
  assert (Hr1 : reachable cfg s1).
  { apply (reachable_run cfg [SwitchToTime target] s s1
             [Console (LogSwitching (activeTimeId s) target)] Hreach).
    cbn. rewrite H1. reflexivity. }
  destruct (handoff_run s1 (next s) target Hr1)
    as (s' & rest & Htake & Hrun & Ha & Hl & Hw & Ht & Hld & Hbtn & Hcb & Hnext & Hshown).
  { subst s1. cbn. apply elem_of_app. right. left. }
  assert (Hf1 : waiters s1 = waiters s ++ [(next s, KSwitchFrames target)]
                /\ onTimeChange s1 = onTimeChange s
                /\ activeTimeId s1 = activeTimeId s
                /\ load_view s1 = load_view s
                /\ next s1 = S (next s)
                /\ toggleBtn (updateButtonLabel cfg (set_activeTimeId target s1))
                   = toggleBtn (updateButtonLabel cfg (set_activeTimeId target s)))
    by (subst s1; cbn; auto 10).
  destruct Hf1 as (Hw1 & Hcb1 & Ha1 & Hld1 & Hn1 & Hb1).
  rewrite Hw1, take_waiter_snoc in Htake by now apply fresh_waiter.
  injection Htake as <-.
  rewrite Hcb1, Ha1 in Hrun. rewrite Hld1 in Hld. rewrite Hb1 in Hbtn.
  rewrite Hcb1 in Hcb. rewrite Hn1 in Hnext.
  exists s'. split.
  - change (run cfg (?a :: ?l) s) with
      (match step cfg a s with
       | Some (s', o) => match run cfg l s' with
                         | Some (s'', o') => Some (s'', o ++ o')
                         | None => None
                         end
       | None => None
       end).
    cbn [step]. rewrite H1, Hrun. reflexivity.
  - repeat split; try assumption; apply Hshown.
Qed.


(** X15.  Switching to a time state that is already loaded.  From any
    reachable state with the lock free and the active time state loaded,
    [switchToTime] on another loaded time state, followed by two frames,
    its microtask and the cooldown timeout, ends with that time state
    active and alone shown, the button relabelled, the lock free, the
    other waiters untouched, and no request made to the loader. *)
Theorem switch_to_loaded_completes :
  forall (s : Sys) (target : string),
    reachable cfg s ->
    switchLock s = false ->
    target <> activeTimeId s ->
    initialised s ->
    loadingStates s !! target = Some Loaded ->
    exists s',
      run cfg [SwitchToTime target; AnimationFrame; AnimationFrame;
               Microtask (next s); Timeout 0] s
      = Some (s', [Console (LogSwitching (activeTimeId s) target);
                   Console (LogSwitched target)]
                  ++ (if onTimeChange s then [TimeChange target (activeTimeId s)] else []))
      /\ getActiveTimeId s' = target
      /\ getActiveSplatEntity s' = splatEntities s !! target
      /\ (forall timeId, shown s' timeId = true <-> timeId = target)
      /\ switchLock s' = false
      /\ timeouts s' = []
      /\ waiters s' = waiters s
      /\ load_view s' = load_view s
      /\ toggleBtn s' = toggleBtn (updateButtonLabel cfg (set_activeTimeId target s)).
Proof.
  intros s target Hreach Hfree Hne Hinit Hloaded.
  destruct (switch_run s target Hreach Hfree Hne Hinit Hloaded)
    as (s' & Hrun & Ha & Hk & Hw & Ht & Hld & Hb & Hcb & Hn & Hs).
  exists s'. repeat split; try assumption; try apply Hs.
  unfold getActiveSplatEntity. injection Hld as _ _ ->. now rewrite Ha.
Qed.

(** X16.  Switching to a time state that is not loaded loads it, once.
    Under a configuration whose identifiers are plain, from any state
    reached by calls on plain identifiers, with the lock free and the
    active time state loaded, [switchToTime] on a configured time state
    that is neither loaded nor loading makes one request to the loader;
    when the loader answers, the microtask of the load, two frames, the
    microtask of the handoff and the cooldown timeout end with that time
    state loaded, active and alone shown, and the lock free. *)
Theorem switch_loads_on_demand :
  forall (s : Sys) (target : string),
  plain_reachable cfg s ->
  switchLock s = false ->
  target <> activeTimeId s ->
  initialised s ->
  configured cfg target ->
  loadingStates s !! target <> Some Loaded ->
  loadingStates s !! target <> Some Loading ->
  exists s',
    run cfg [SwitchToTime target; AssetReady (S (next s)); Microtask (next s);
             AnimationFrame; AnimationFrame; Microtask (3 + next s); Timeout 0] s
    = Some (s', [Console (LogSwitching (activeTimeId s) target);
                 Console (LogLoading target)]
                ++ aligned_log cfg target
                ++ [Console (LogLoaded target); Console (LogSwitched target)]
                ++ (if onTimeChange s then [TimeChange target (activeTimeId s)] else []))
    /\ activeTimeId s' = target
    /\ switchLock s' = false
    /\ waiters s' = waiters s
    /\ timeouts s' = []
    /\ loadRequests s' = loadRequests s ++ [(S (next s), target)]
    /\ loaded_as target (2 + next s) s'
    /\ toggleBtn s' = toggleBtn (updateButtonLabel cfg (set_activeTimeId target s))
    /\ (forall timeId, shown s' timeId = true <-> timeId = target).
Proof.
  intros s target Hreach%plain_reachable_reachable Hfree Hne Hinit [tc Htc] HnL HnG.
  destruct (good_reachable cfg s Hreach) as (Hwf & Hlock & Hvis).
  pose proof (awaited_once_reachable s Hreach) as Hawait.
  pose proof Hwf as [].
  destruct (wf_loaded0 _ Hinit) as [eA HeA].
  set (n := next s).
  set (s0 := set_toggleBtn match toggleBtn s with Some _ => Some LabelLoading | None => None end
               (set_switchLock true s)).
  set (asset := mkAsset target (t_path tc +:+ "lod-meta.json") n AssetRequested).
  set (s1 := await n (KSwitchLoad target)
      (set_loadRequests (loadRequests s ++ [(S n, target)])
        (set_splatAssets (<[target := S n]> (splatAssets s))
          (set_assets (<[S n := asset]> (assets s))
            (set_next (S (S n))
              (set_promises (<[n := PPending (ByAsset (S n))]> (promises s))
                (set_loadingStates (<[target := Loading]> (loadingStates s)) s0))))))).
  assert (H1 : switchToTime cfg target s
               = (s1, [Console (LogSwitching (activeTimeId s) target);
                       Console (LogLoading target)])).
  { unfold switchToTime.
    rewrite bool_decide_eq_false_2 by assumption. rewrite Hfree. cbn.
    rewrite bool_decide_eq_false_2 by assumption. cbn.
    unfold loadTimeState. rewrite Htc. cbn.
    destruct (loadingStates s !! target) as [[]|] eqn:Hls; try congruence; reflexivity. }
  set (e := S (S n)).
  set (entity := mkEntity ("splat_" +:+ target) false
                   match transforms cfg !! target with
                   | Some m => if bool_decide (length m = 16) then ZUpToYUpTimes m else ZUpToYUp
                   | None => ZUpToYUp
                   end).
  set (s2 := set_promises (<[n := PResolved (Some e)]> (promises s1))
      (set_assets (<[S n := set_status AssetLoaded asset]> (assets s1))
        (set_loadingStates (<[target := Loaded]> (loadingStates s1))
          (set_splatEntities (<[target := e]> (splatEntities s1))
            (set_entities (<[e := entity]> (entities s1))
              (set_next (S e) s1)))))).
  assert (H2 : assetReady cfg (S n) s1
               = Some (s2, aligned_log cfg target ++ [Console (LogLoaded target)])).
  { unfold assetReady. subst s1. cbn. rewrite lookup_insert_eq. cbn.
    unfold settle. cbn. rewrite lookup_insert_eq.
    rewrite bool_decide_eq_false_2 by assumption.
    unfold s2, aligned_log, entity. cbn.
    destruct (transforms cfg !! target) as [m|]; [|reflexivity].
    destruct (bool_decide (length m = 16)); reflexivity. }
  set (q := S e).
  set (s3 := await q (KSwitchFrames target)
               (set_rafQueue (rafQueue s ++ [RafOuter eA q])
                  (new_promise (PPending ByFrames)
                     (enable e true (set_waiters (waiters s) s2))).2)).
  assert (H3 : microtask cfg n s2 = Some (s3, [])).
  { unfold microtask, s3, s2, s1, s0. sys_simpl.
    rewrite take_waiter_snoc by now apply fresh_waiter.
    rewrite lookup_insert_eq. cbn [resume]. unfold switch_loaded. sys_simpl.
    rewrite lookup_insert_ne by assumption. rewrite HeA, lookup_insert_eq.
    reflexivity. }
  assert (Hrun3 : run cfg [SwitchToTime target; AssetReady (S n); Microtask n] s
          = Some (s3, [Console (LogSwitching (activeTimeId s) target);
                       Console (LogLoading target)]
                      ++ aligned_log cfg target ++ [Console (LogLoaded target)])).
  { cbn [run step]. rewrite H1, H2, H3. cbn. now rewrite !app_nil_r. }
  pose proof (reachable_run cfg _ _ _ _ Hreach Hrun3) as Hr3.
  destruct (handoff_run s3 q target Hr3)
    as (s' & rest & Htake & Hrun & Ha & Hl & Hw & Ht & Hld & Hbtn & Hcb & Hnext & Hshown).
  { unfold s3, s2, s1, s0. sys_simpl. apply elem_of_app. right. left. }
  assert (Hf3 : waiters s3 = waiters s ++ [(q, KSwitchFrames target)]
                /\ onTimeChange s3 = onTimeChange s
                /\ activeTimeId s3 = activeTimeId s
                /\ loadRequests s3 = loadRequests s ++ [(S n, target)]
                /\ loadingStates s3 !! target = Some Loaded
                /\ splatEntities s3 !! target = Some e
                /\ toggleBtn (updateButtonLabel cfg (set_activeTimeId target s3))
                   = toggleBtn (updateButtonLabel cfg (set_activeTimeId target s))).
  { unfold s3, s2, s1, s0, updateButtonLabel. sys_simpl.
    rewrite !lookup_insert_eq. repeat split.
    destruct (toggleBtn s); reflexivity. }
  destruct Hf3 as (Hw3 & Hcb3 & Ha3 & Hlr3 & Hls3 & Hse3 & Hb3).
  rewrite Hw3, take_waiter_snoc in Htake.
  2:{ destruct Hawait as [_ Hlt]. intros Hin. apply Hlt in Hin. unfold q, e, n in Hin. lia. }
  injection Htake as <-.
  rewrite Hcb3, Ha3 in Hrun. rewrite Hb3 in Hbtn. injection Hld as Hld1 Hld2 Hld3.
  exists s'. split.
  - match goal with
    | |- run _ _ _ = ?r =>
        change (run cfg ([SwitchToTime target; AssetReady (S n); Microtask n]
                         ++ [AnimationFrame; AnimationFrame; Microtask q; Timeout 0]) s = r)
    end.
    rewrite run_app, Hrun3, Hrun. f_equal. f_equal. now rewrite <- !app_assoc.
  - repeat split; try assumption; try apply Hshown.
    + now rewrite Hld2.
    + rewrite Hld3. exact Hse3.
Qed.


Lemma findIndex_first {A} (pred : A -> bool) l1 x l2 :
  (forall y, y ∈ l1 -> pred y = false) -> pred x = true ->
  findIndex pred (l1 ++ x :: l2) = Z.of_nat (length l1).
Proof.
  intros Hl1 Hx. induction l1 as [|y l1 IH]; simpl.
  - now rewrite Hx.
  - rewrite (Hl1 y) by left. rewrite IH by (intros z Hz; apply Hl1; now right).
    destruct (Z.ltb_spec (Z.of_nat (length l1)) 0); lia.
Qed.

Lemma findIndex_none {A} (pred : A -> bool) l :
  (forall y, y ∈ l -> pred y = false) -> findIndex pred l = (-1)%Z.
Proof.
  intros Hl. induction l as [|y l IH]; simpl; [reflexivity|].
  rewrite (Hl y) by left. rewrite IH by (intros z Hz; apply Hl; now right).
  reflexivity.
Qed.

(** X19.  [handleKeyboard] steps to the neighbour in the configured order
    and stops at the ends.  With the active time state at its first
    position in [times], the left bracket asks for the time state before
    it and the right bracket for the one after it, and each does nothing
    where there is none; any other key does nothing; and when the active
    identifier is not configured at all, either bracket asks for the first
    time state. *)
Theorem handleKeyboard_neighbours :
  forall s : Sys,
  (forall keyCode,
     keyCode <> "BracketLeft" -> keyCode <> "BracketRight" ->
     handleKeyboard cfg keyCode s = (s, []))
  /\ (forall l1 t l2,
        times cfg = l1 ++ t :: l2 ->
        t_id t = activeTimeId s -> activeTimeId s ∉ t_id <$> l1 ->
        handleKeyboard cfg "BracketLeft" s
        = match last l1 with
          | Some u => switchToTime cfg (t_id u) s
          | None => (s, [])
          end
        /\ handleKeyboard cfg "BracketRight" s
           = match head l2 with
             | Some u => switchToTime cfg (t_id u) s
             | None => (s, [])
             end)
  /\ (forall t0 rest,
        times cfg = t0 :: rest -> activeTimeId s ∉ t_id <$> times cfg ->
        handleKeyboard cfg "BracketLeft" s = switchToTime cfg (t_id t0) s
        /\ handleKeyboard cfg "BracketRight" s = switchToTime cfg (t_id t0) s).
Proof.
  intros s. split; [|split].
  - intros keyCode H1 H2. unfold handleKeyboard.
    now rewrite !bool_decide_eq_false_2 by assumption.
  - intros l1 t l2 Ht Hid Hl1. unfold handleKeyboard.
    rewrite Ht, (findIndex_first _ l1 t l2).
    2:{ intros y Hy. unfold has_id. apply bool_decide_eq_false_2. intros Heq.
        apply Hl1. apply list_elem_of_fmap. eauto. }
    2:{ unfold has_id. now apply bool_decide_eq_true_2. }
    rewrite (bool_decide_eq_true_2 ("BracketLeft" = "BracketLeft")) by reflexivity.
    rewrite (bool_decide_eq_false_2 ("BracketRight" = "BracketLeft")) by discriminate.
    rewrite (bool_decide_eq_true_2 ("BracketRight" = "BracketRight")) by reflexivity.
    split.
    + destruct l1 as [|x l1' _] using rev_ind.
      * simpl. reflexivity.
      * rewrite last_snoc, length_app. simpl.
        rewrite bool_decide_eq_false_2 by lia.
        replace (Z.to_nat (Z.max 0 (Z.of_nat (length l1' + 1) - 1))) with (length l1') by lia.
        rewrite <- app_assoc. simpl.
        rewrite lookup_app_r, Nat.sub_diag by lia. reflexivity.
    + rewrite length_app. simpl. destruct l2 as [|u l2]; simpl.
      * rewrite bool_decide_eq_true_2 by lia. reflexivity.
      * rewrite bool_decide_eq_false_2 by lia.
        replace (Z.to_nat _) with (length l1 + 1) by lia.
        rewrite lookup_app_r by lia.
        replace (length l1 + 1 - length l1) with 1 by lia. reflexivity.
  - intros t0 rest Ht Hnot. unfold handleKeyboard.
    rewrite findIndex_none.
    2:{ intros y Hy. unfold has_id. apply bool_decide_eq_false_2. intros Heq.
        apply Hnot. apply list_elem_of_fmap. eauto. }
    rewrite Ht. simpl length.
    rewrite (bool_decide_eq_true_2 ("BracketLeft" = "BracketLeft")) by reflexivity.
    rewrite (bool_decide_eq_false_2 ("BracketRight" = "BracketLeft")) by discriminate.
    rewrite (bool_decide_eq_true_2 ("BracketRight" = "BracketRight")) by reflexivity.
    rewrite !bool_decide_eq_false_2 by lia.
    replace (Z.to_nat (Z.max 0 (-1 - 1))) with 0 by lia.
    replace (Z.to_nat (Z.min (Z.of_nat (S (length rest)) - 1) (-1 + 1))) with 0 by lia.
    auto.
Qed.

Lemma toggle_other s t0 t1 rest :
  times cfg = t0 :: t1 :: rest ->
  t_id t0 <> t_id t1 -> t_id t0 <> "" -> t_id t1 <> "" ->
  toggle cfg s
  = switchToTime cfg (if bool_decide (activeTimeId s = t_id t0) then t_id t1 else t_id t0) s.
Proof.
  intros Ht Hne H0 H1. unfold toggle. rewrite Ht. simpl. unfold has_id.
  destruct (decide (activeTimeId s = t_id t0)) as [Ha | Ha].
  - rewrite (bool_decide_eq_true_2 (activeTimeId s = t_id t0)) by assumption.
    rewrite (bool_decide_eq_true_2 (t_id t0 = activeTimeId s)) by congruence. simpl.
    rewrite (bool_decide_eq_false_2 (t_id t1 = activeTimeId s)) by congruence. simpl.
    now rewrite bool_decide_eq_false_2.
  - rewrite (bool_decide_eq_false_2 (activeTimeId s = t_id t0)) by assumption.
    rewrite (bool_decide_eq_false_2 (t_id t0 = activeTimeId s)) by congruence. simpl.
    now rewrite bool_decide_eq_false_2.
Qed.

(** X18.  [toggle] goes to the first configured time state other than the
    active one: with two or more time states of distinct, non-empty
    identifiers it asks for the second when the first is active and for
    the first otherwise, so that a third time state is never its target;
    where no configured time state differs from the active one, or the
    first that differs has the empty identifier, it does nothing. *)
Theorem toggle_target :
  forall s : Sys,
    (forall t0 t1 rest,
       times cfg = t0 :: t1 :: rest ->
       t_id t0 <> t_id t1 -> t_id t0 <> "" -> t_id t1 <> "" ->
       toggle cfg s
       = switchToTime cfg
           (if bool_decide (activeTimeId s = t_id t0) then t_id t1 else t_id t0) s)
    /\ ((forall t, t ∈ times cfg -> t_id t = activeTimeId s) -> toggle cfg s = (s, []))
    /\ (forall t0 rest,
          times cfg = t0 :: rest -> t_id t0 = "" -> activeTimeId s <> "" ->
          toggle cfg s = (s, [])).
Proof.
  intros s. split; [|split].
  - apply toggle_other.
  - intros Hall. unfold toggle.
    destruct (find _ (times cfg)) as [t|] eqn:Hf; [|reflexivity].
    apply find_some in Hf as [Hin Hneg]. apply list_elem_of_In in Hin.
    unfold has_id in Hneg. rewrite bool_decide_eq_true_2 in Hneg by auto. discriminate.
  - intros t0 rest Ht H0 Ha. unfold toggle. rewrite Ht. cbn. unfold has_id.
    rewrite (bool_decide_eq_false_2 (t_id t0 = activeTimeId s)) by congruence. cbn.
    now rewrite bool_decide_eq_true_2.
Qed.

Lemma run_cons ev evs s :
  run cfg (ev :: evs) s =
  match step cfg ev s with
  | Some (s', o) => match run cfg evs s' with
                    | Some (s'', o') => Some (s'', o ++ o')
                    | None => None
                    end
  | None => None
  end.
Proof. reflexivity. Qed.

Lemma run_toggle_as_switch target evs s :
  toggle cfg s = switchToTime cfg target s ->
  run cfg (Toggle :: evs) s = run cfg (SwitchToTime target :: evs) s.
Proof. intros H. rewrite !run_cons. cbn [step]. now rewrite H. Qed.

(** X17.  Toggling twice comes back.  With exactly two time states, both
    loaded, and the lock free, pressing the toggle, letting the switch
    complete and its cooldown pass, and pressing it again, ends in the
    time state the run began in, alone shown, after two transitions and
    without any request to the loader. *)
Theorem toggle_twice_restores :
  forall (s : Sys) (t0 t1 : TimeConfig),
  times cfg = [t0; t1] ->
  t_id t0 <> t_id t1 -> t_id t0 <> "" -> t_id t1 <> "" ->
  reachable cfg s ->
  switchLock s = false ->
  initialised s ->
  loadingStates s !! t_id t0 = Some Loaded ->
  loadingStates s !! t_id t1 = Some Loaded ->
  exists s' out,
    run cfg ([Toggle; AnimationFrame; AnimationFrame; Microtask (next s); Timeout 0]
             ++ [Toggle; AnimationFrame; AnimationFrame; Microtask (S (next s)); Timeout 0]) s
    = Some (s', out)
    /\ transitions out = 2
    /\ activeTimeId s' = activeTimeId s
    /\ (forall timeId, shown s' timeId = true <-> timeId = activeTimeId s)
    /\ switchLock s' = false
    /\ waiters s' = waiters s
    /\ load_view s' = load_view s
    /\ toggleBtn s' = toggleBtn (updateButtonLabel cfg s).
Proof.
  intros s t0 t1 Ht Hne H0 H1 Hreach Hfree Hinit Hl0 Hl1.
  pose proof (toggle_other s _ _ _ Ht Hne H0 H1) as Htog.
  assert (Hactive : activeTimeId s = t_id t0 \/ activeTimeId s = t_id t1).
  { destruct (wf_reachable cfg s Hreach).
    destruct (wf_loaded0 _ Hinit) as [e He].
    destruct (wf_handles0 _ _ He) as (_ & _ & [t Hfind]).
    rewrite Ht in Hfind. simpl in Hfind. unfold has_id in Hfind.
    repeat case_bool_decide; simplify_eq; auto. }
  set (other := if bool_decide (activeTimeId s = t_id t0) then t_id t1 else t_id t0) in *.
  assert (Hother : other <> activeTimeId s /\ loadingStates s !! other = Some Loaded).
  { subst other. case_bool_decide; split; try assumption; destruct Hactive; congruence. }
  destruct Hother as [Hon Hol].
  destruct (switch_run s other Hreach Hfree Hon Hinit Hol)
    as (s1 & Hrun1 & Ha1 & Hk1 & Hw1 & Ht1 & Hld1 & Hb1 & Hcb1 & Hn1 & Hs1).
  rewrite <- (run_toggle_as_switch other _ s Htog) in Hrun1.
  pose proof (reachable_run cfg _ _ _ _ Hreach Hrun1) as Hreach1.
  pose proof (toggle_other s1 _ _ _ Ht Hne H0 H1) as Htog1.
  assert (Hback : (if bool_decide (activeTimeId s1 = t_id t0) then t_id t1 else t_id t0)
                  = activeTimeId s).
  { rewrite Ha1. subst other. repeat case_bool_decide; destruct Hactive; congruence. }
  rewrite Hback in Htog1.
  injection Hld1 as Hlr1 Hls1 Hse1.
  destruct (switch_run s1 (activeTimeId s) Hreach1 Hk1)
    as (s2 & Hrun2 & Ha2 & Hk2 & Hw2 & Ht2 & Hld2 & Hb2 & Hcb2 & Hn2 & Hs2).
  { rewrite Ha1. congruence. }
  { unfold initialised. now rewrite Ha1, Hls1. }
  { now rewrite Hls1. }
  rewrite <- (run_toggle_as_switch _ _ s1 Htog1), Hn1 in Hrun2.
  eexists s2, _. split; [rewrite run_app, Hrun1, Hrun2; reflexivity|].
  injection Hld2 as Hlr2 Hls2 Hse2.
  repeat split; try assumption; try apply Hs2; try congruence.
  - rewrite !transitions_app. destruct (onTimeChange s), (onTimeChange s1); reflexivity.
  - unfold load_view. congruence.
  - rewrite Hb2. unfold updateButtonLabel. cbn. rewrite Hb1. cbn.
    destruct (toggleBtn s); reflexivity.
Qed.


(** X21.  Switching to a plain identifier that is not configured does no
    harm but to the button.  In a state reached by calls on plain
    identifiers under a configuration whose identifiers are plain,
    [switchToTime] takes the lock, [loadTimeState] logs the unknown
    identifier and resolves with [null], and the resumed switch finds no
    entity, logs it and releases the lock: the active time state, the
    entities, the load states, the requests and the other waiters are as
    before, but the button, if there is one, is left reading the loading
    notice. *)
Theorem switch_to_unknown_is_harmless :
  forall (s : Sys) (target : string),
  plain_reachable cfg s ->
  plain target = true ->
  switchLock s = false ->
  target <> activeTimeId s ->
  ~ configured cfg target ->
  exists s',
    run cfg [SwitchToTime target; Microtask (next s)] s
    = Some (s', [Console (LogSwitching (activeTimeId s) target);
                 Console (ErrUnknownTimeState target);
                 Console ErrMissingEntities])
    /\ switchLock s' = false
    /\ activeTimeId s' = activeTimeId s
    /\ waiters s' = waiters s
    /\ timeouts s' = timeouts s
    /\ load_view s' = load_view s
    /\ entities s' = entities s
    /\ assets s' = assets s
    /\ toggleBtn s' = (fun _ => LabelLoading) <$> toggleBtn s.
Proof.
  intros s target Hreach%plain_reachable_reachable _ Hfree Hne Hnc.
  pose proof (wf_reachable cfg s Hreach) as Hwf.
  pose proof (awaited_once_reachable s Hreach) as Hawait.
  pose proof Hwf as [].
  assert (Hfind : find (has_id target) (times cfg) = None).
  { destruct (find _ _) eqn:Hf; [|reflexivity]. exfalso. apply Hnc.
    unfold configured. rewrite Hf. eauto. }
  assert (Hse : splatEntities s !! target = None).
  { destruct (splatEntities s !! target) as [e|] eqn:He; [|reflexivity].
    exfalso. apply Hnc. now destruct (wf_handles0 _ _ He) as (_ & _ & ?). }
  assert (Hls : loadingStates s !! target <> Some Loaded).
  { intros Hl. apply wf_loaded0 in Hl as [e He]. congruence. }
  eexists. split.
  - rewrite !run_cons. cbn [step run]. unfold switchToTime.
    rewrite bool_decide_eq_false_2 by assumption. rewrite Hfree. sys_simpl.
    rewrite bool_decide_eq_false_2 by assumption. cbn [negb].
    unfold loadTimeState. rewrite Hfind. sys_simpl.
    unfold microtask. sys_simpl.
    rewrite take_waiter_snoc by now apply fresh_waiter.
    rewrite lookup_insert_eq. cbn [resume]. unfold switch_loaded. sys_simpl.
    rewrite Hse. destruct (splatEntities s !! activeTimeId s); reflexivity.
  - sys_simpl. repeat split.
Qed.


(** X24.  What [initialize] comes to, under a configuration whose
    identifiers are plain.  On a freshly constructed system with a
    configured default time state it creates the button, makes one
    request to the loader, and, when the loader answers, returns the entity
    of the default time state, loaded and shown; when the loader fails it
    is rejected with the cause and no entity exists.  With a default time
    state that is not configured it makes no request and returns
    [undefined]. *)
Theorem initialize_outcomes :
  forall s0 : Sys,
  plain_config cfg = true ->
  constructor cfg = Some s0 ->
  (configured cfg (defaultTime cfg) ->
   (exists s,
      run cfg [Initialize; AssetReady 1; Microtask 0] s0
      = Some (s, [Console LogUICreated; Console (LogLoading (defaultTime cfg))]
                 ++ aligned_log cfg (defaultTime cfg)
                 ++ [Console (LogLoaded (defaultTime cfg)); Console LogSingleSceneMode;
                     Returned KInitialize (Some 2)])
      /\ loaded_as (defaultTime cfg) 2 s
      /\ shown s (defaultTime cfg) = true
      /\ loadRequests s = [(1, defaultTime cfg)]
      /\ switchLock s = false /\ waiters s = [])
   /\ (forall cause, exists s,
         run cfg [Initialize; AssetError 1 cause; Microtask 0] s0
         = Some (s, [Console LogUICreated; Console (LogLoading (defaultTime cfg));
                     Console (ErrLoading (defaultTime cfg) cause);
                     Rejected KInitialize cause])
         /\ loadingStates s !! defaultTime cfg = Some LoadError
         /\ splatEntities s = ∅ /\ entities s = ∅))
  /\ (~ configured cfg (defaultTime cfg) ->
      exists s,
        run cfg [Initialize; Microtask 0] s0
        = Some (s, [Console LogUICreated; Console (ErrUnknownTimeState (defaultTime cfg));
                    Console LogSingleSceneMode; Returned KInitialize None])
        /\ loadRequests s = [] /\ loadingStates s = ∅ /\ entities s = ∅).
Proof.
  intros s0 _ H0. unfold constructor in H0. destruct (times cfg) as [|t0 rest] eqn:Ht; [discriminate|].
  injection H0 as <-. split.
  - intros [tc Htc]. split.
    + eexists. split.
      * rewrite !run_cons. cbn [step run]. unfold initialize, updateButtonLabel. sys_simpl.
        unfold loadTimeState. sys_simpl. rewrite Htc, lookup_empty. sys_simpl.
        unfold assetReady. sys_simpl. rewrite lookup_insert_eq. cbn [a_status a_timeId a_promise].
        sys_simpl. unfold settle. sys_simpl. rewrite lookup_insert_eq.
        unfold microtask. sys_simpl. cbn [take_waiter app]. rewrite bool_decide_eq_true_2 by reflexivity.
        rewrite lookup_insert_eq. cbn [resume]. sys_simpl. rewrite lookup_insert_eq.
        rewrite bool_decide_eq_true_2 by reflexivity.
        unfold aligned_log.
        unfold aligned_log. finish_run.
      * unfold loaded_as, shown. sys_simpl. rewrite !lookup_insert_eq. repeat split.
    + intros cause. eexists. split.
      * rewrite !run_cons. cbn [step run]. unfold initialize, updateButtonLabel. sys_simpl.
        unfold loadTimeState. sys_simpl. rewrite Htc, lookup_empty. sys_simpl.
        unfold assetError. sys_simpl. rewrite lookup_insert_eq. cbn [a_status a_timeId a_promise].
        sys_simpl. unfold settle. sys_simpl. rewrite lookup_insert_eq.
        unfold microtask. sys_simpl. cbn [take_waiter app]. rewrite bool_decide_eq_true_2 by reflexivity.
        rewrite lookup_insert_eq. finish_run.
      * sys_simpl. rewrite lookup_insert_eq. repeat split.
  - intros Hnc.
    assert (Hfind : find (has_id (defaultTime cfg)) (times cfg) = None).
    { destruct (find _ _) eqn:Hf; [|reflexivity]. exfalso. apply Hnc.
      unfold configured. rewrite Hf. eauto. }
    eexists. split.
    + rewrite !run_cons. cbn [step run]. unfold initialize, updateButtonLabel. sys_simpl.
      unfold loadTimeState. sys_simpl. rewrite Hfind. sys_simpl.
      unfold microtask. sys_simpl. cbn [take_waiter app]. rewrite bool_decide_eq_true_2 by reflexivity.
      rewrite lookup_insert_eq. cbn [resume]. sys_simpl. rewrite lookup_empty. finish_run.
    + sys_simpl. repeat split.
Qed.


End ToggleProgress.
(** ** The time toggle: promises, polls and entities *)

Section TogglePromises.
Import TimeToggle ToggleSpec.
Context (cfg : ToggleConfig).

Lemma loadTimeState_keeps timeId s p st :
  p < next s -> promises s !! p = Some st ->
  promises (loadTimeState cfg timeId s).1.2 !! p = Some st.
Proof.
  intros Hlt Hp.
  unfold loadTimeState, new_promise; repeat case_match; simplify_eq; cbn;
    rewrite lookup_insert_ne by lia; assumption.
Qed.

Lemma switch_loaded_keeps timeId s p st :
  p < next s -> promises s !! p = Some st ->
  promises (switch_loaded timeId s).1 !! p = Some st.
Proof.
  intros Hlt Hp.
  unfold switch_loaded, new_promise; repeat case_match; simplify_eq; cbn;
    rewrite ?lookup_insert_ne by lia; assumption.
Qed.

Lemma switchToTime_keeps timeId s p st :
  p < next s -> promises s !! p = Some st ->
  promises (switchToTime cfg timeId s).1 !! p = Some st.
Proof.
  intros Hlt Hp. unfold switchToTime.
  case_bool_decide; [assumption|]. destruct (switchLock s); [assumption|].
  destruct (negb _).
  - destruct (loadTimeState cfg timeId _) as [[q s1] o] eqn:Hl. cbn.
    change s1 with (q, s1, o).1.2. rewrite <- Hl.
    now apply loadTimeState_keeps.
  - destruct (switch_loaded timeId _) as [s1 o] eqn:Hs. cbn.
    change s1 with (s1, o).1. rewrite <- Hs.
    now apply switch_loaded_keeps.
Qed.

Lemma settle_keeps q st' s p st :
  promises s !! p = Some st ->
  promises (settle q st' s) !! p = Some st
  \/ q = p /\ exists r, st = PPending r.
Proof.
  intros Hp. unfold settle. cbn.
  destruct (decide (q = p)) as [-> | Hne].
  - rewrite Hp. destruct st; eauto.
  - left. destruct (promises s !! q) as [[]|]; rewrite ?lookup_insert_ne by assumption; assumption.
Qed.

Lemma foldl_raf_keeps l : forall s p st,
  promises s !! p = Some st ->
  promises (foldl run_raf s l) !! p = Some st
  \/ exists e r, RafInner e p ∈ l /\ st = PPending r.
Proof.
  induction l as [|cb l IH]; intros s p st Hp; cbn; [now left|].
  destruct cb as [e q | e q]; cbn.
  - destruct (IH (set_rafQueue (rafQueue s ++ [RafInner e q]) s) p st Hp) as [H | (e' & r & Hin & ->)];
      [now left|]. right. exists e', r. split; [now right | reflexivity].
  - destruct (settle_keeps q (PResolved None) (enable e false s) p st Hp) as [H | [-> [r ->]]].
    + destruct (IH _ p st H) as [H' | (e' & r & Hin & ->)]; [now left|].
      right. exists e', r. split; [now right | reflexivity].
    + right. exists e, r. split; [now left | reflexivity].
Qed.

(** A settled promise never changes, and a pending promise is settled only
    by its own resolver. *)
Lemma promise_step ev s s' o p st :
  wf cfg s -> promises s !! p = Some st -> step cfg ev s = Some (s', o) ->
  promises s' !! p = Some st \/ settles p st ev.
Proof.
  intros Hwf Hp Hstep. pose proof Hwf as [].
  pose proof (wf_promises0 _ _ Hp) as Hlt. destruct ev; cbn in Hstep.
  - left. unfold initialize in Hstep.
    destruct (loadTimeState cfg _ _) as [[q s1] o1] eqn:Hl.
    apply some_pair in Hstep as [-> ->]. cbn.
    change s1 with (q, s1, o1).1.2. rewrite <- Hl.
    now apply loadTimeState_keeps.
  - left. apply some_pair in Hstep as [-> ->]. now apply switchToTime_keeps.
  - left. apply some_pair in Hstep as [-> ->]. unfold toggle.
    repeat case_match; auto using switchToTime_keeps.
  - left. apply some_pair in Hstep as [-> ->]. unfold handleKeyboard.
    repeat case_match; auto using switchToTime_keeps.
  - left. destruct (loadTimeState cfg timeId s) as [[q s1] o1] eqn:Hl.
    apply some_pair in Hstep as [-> ->]. cbn.
    change s1 with (q, s1, o1).1.2. rewrite <- Hl.
    now apply loadTimeState_keeps.
  - left. apply some_pair in Hstep as [-> ->]. assumption.
  - unfold assetReady in Hstep.
    destruct (assets s !! a) as [x|] eqn:Ha; [|discriminate].
    destruct (a_status x) eqn:Hst; try discriminate.
    destruct (wf_requested0 _ _ Ha Hst) as (_ & _ & Hpx & _).
    apply some_pair in Hstep as [-> _]. cbn [fst].
    match goal with |- promises (settle ?q ?v ?s0) !! _ = _ \/ _ =>
      destruct (settle_keeps q v s0 p st Hp) as [H | [Heq [r ->]]] end;
      [now left|]. right. rewrite Heq in Hpx. rewrite Hpx in Hp. injection Hp as <-.
    cbn. auto.
  - unfold assetError in Hstep.
    destruct (assets s !! a) as [x|] eqn:Ha; [|discriminate].
    destruct (a_status x) eqn:Hst; try discriminate.
    destruct (wf_requested0 _ _ Ha Hst) as (_ & _ & Hpx & _).
    apply some_pair in Hstep as [-> _]. cbn [fst].
    match goal with |- promises (settle ?q ?v ?s0) !! _ = _ \/ _ =>
      destruct (settle_keeps q v s0 p st Hp) as [H | [Heq [r ->]]] end;
      [now left|]. right. rewrite Heq in Hpx. rewrite Hpx in Hp. injection Hp as <-.
    cbn. eauto.
  - unfold intervalTick in Hstep.
    destruct (find _ (intervals s)) as [[q timeId]|] eqn:Hf; [|discriminate].
    apply find_some in Hf as [Hin Hq]. apply bool_decide_eq_true in Hq. cbn in Hq. subst q.
    apply list_elem_of_In, wf_intervals0 in Hin.
    case_bool_decide; apply some_pair in Hstep as [-> _]; [|now left]. cbn [fst].
    match goal with |- promises (settle ?q ?v ?s0) !! _ = _ \/ _ =>
      destruct (settle_keeps q v s0 p st Hp) as [H' | [Heq [r ->]]] end;
      [now left|]. right. subst p0. rewrite Hin in Hp. injection Hp as <-. reflexivity.
  - unfold microtask in Hstep.
    destruct (take_waiter p0 (waiters s)) as [[k rest]|] eqn:Ht; [|discriminate].
    destruct (promises s !! p0) as [[r|v|cause]|]; try discriminate.
    + left. apply some_pair in Hstep as [-> _].
      destruct k; cbn; try assumption.
      now apply switch_loaded_keeps.
    + left. now simplify_eq.
  - apply some_pair in Hstep as [-> _]. cbn [fst]. unfold animationFrame.
    destruct (foldl_raf_keeps (rafQueue s) (set_rafQueue [] s) p st Hp) as [H | (e & r & Hin & ->)];
      [now left|]. right.
    destruct (wf_raf0 _ Hin) as (st' & Hst' & Hfs). cbn in Hst'.
    rewrite Hp in Hst'. injection Hst' as <-. destruct r; try contradiction. reflexivity.
  - left. unfold timeout in Hstep. repeat case_match; simplify_eq. assumption.
Qed.


Lemma loadTimeState_intervals timeId s w :
  w ∈ intervals s -> w ∈ intervals (loadTimeState cfg timeId s).1.2.
Proof.
  intros Hw. unfold loadTimeState, new_promise; repeat case_match; simplify_eq; cbn;
    try assumption. apply elem_of_app. now left.
Qed.

Lemma switch_loaded_intervals timeId s :
  intervals (switch_loaded timeId s).1 = intervals s.
Proof. unfold switch_loaded, new_promise. repeat case_match; reflexivity. Qed.

Lemma switchToTime_intervals timeId s w :
  w ∈ intervals s -> w ∈ intervals (switchToTime cfg timeId s).1.
Proof.
  intros Hw. unfold switchToTime.
  case_bool_decide; [assumption|]. destruct (switchLock s); [assumption|].
  destruct (negb _).
  - destruct (loadTimeState cfg timeId _) as [[q s1] o] eqn:Hl. cbn.
    change s1 with (q, s1, o).1.2. rewrite <- Hl.
    now apply loadTimeState_intervals.
  - destruct (switch_loaded timeId _) as [s1 o] eqn:Hs. cbn.
    change s1 with (s1, o).1. rewrite <- Hs.
    now rewrite switch_loaded_intervals.
Qed.

Lemma foldl_raf_intervals l : forall s, intervals (foldl run_raf s l) = intervals s.
Proof.
  induction l as [|cb l IH]; intros s; cbn; [reflexivity|].
  rewrite IH. destruct cb; reflexivity.
Qed.

Lemma intervals_step ev s s' o p timeId :
  step cfg ev s = Some (s', o) -> (p, timeId) ∈ intervals s ->
  (p, timeId) ∈ intervals s' \/ ev = IntervalTick p.
Proof.
  intros Hstep Hin. destruct ev; cbn in Hstep.
  - left. unfold initialize in Hstep.
    destruct (loadTimeState cfg _ _) as [[q s1] o1] eqn:Hl.
    apply some_pair in Hstep as [-> ->]. cbn.
    change s1 with (q, s1, o1).1.2. rewrite <- Hl.
    now apply loadTimeState_intervals.
  - left. apply some_pair in Hstep as [-> ->]. now apply switchToTime_intervals.
  - left. apply some_pair in Hstep as [-> ->]. unfold toggle.
    repeat case_match; auto using switchToTime_intervals.
  - left. apply some_pair in Hstep as [-> ->]. unfold handleKeyboard.
    repeat case_match; auto using switchToTime_intervals.
  - left. destruct (loadTimeState cfg timeId0 s) as [[q s1] o1] eqn:Hl.
    apply some_pair in Hstep as [-> ->]. cbn.
    change s1 with (q, s1, o1).1.2. rewrite <- Hl.
    now apply loadTimeState_intervals.
  - left. apply some_pair in Hstep as [-> ->]. assumption.
  - left. unfold assetReady in Hstep. repeat case_match; simplify_eq; assumption.
  - left. unfold assetError in Hstep. repeat case_match; simplify_eq; assumption.
  - destruct (decide (p0 = p)) as [-> | Hne]; [now right | left].
    unfold intervalTick in Hstep. repeat case_match; simplify_eq; try assumption.
    cbn. apply list_elem_of_In, filter_In. split; [now apply list_elem_of_In|].
    cbn. now rewrite bool_decide_eq_false_2 by congruence.
  - left. unfold microtask in Hstep.
    destruct (take_waiter p0 (waiters s)) as [[k rest]|] eqn:Ht; [|discriminate].
    destruct (promises s !! p0) as [[r|v|cause]|]; try discriminate.
    + apply some_pair in Hstep as [-> _].
      destruct k; cbn; try assumption. now rewrite switch_loaded_intervals.
    + now simplify_eq.
  - left. apply some_pair in Hstep as [-> _]. cbn [fst]. unfold animationFrame.
    now rewrite foldl_raf_intervals.
  - left. unfold timeout in Hstep. repeat case_match; simplify_eq. assumption.
Qed.

Lemma polling_step ev s s' o p timeId :
  wf cfg s -> polling p timeId s -> step cfg ev s = Some (s', o) -> polling p timeId s'.
Proof.
  intros Hwf [[Hp Hin] | (e & Hp & Hl)] Hstep.
  - destruct (intervals_step _ _ _ _ _ _ Hstep Hin) as [Hin' | ->].
    + destruct (promise_step _ _ _ _ _ _ Hwf Hp Hstep) as [Hp' | Hs]; [left; auto|].
      cbn in Hs. subst ev. cbn in Hstep.
      destruct (decide (loadingStates s !! timeId = Some Loaded)) as [Hld | Hld].
      * destruct (intervalTick_loaded cfg p timeId s Hwf Hin Hld)
          as (e & s1 & He & Ht & Hp1 & _ & Hlv & _).
        rewrite Ht in Hstep. injection Hstep as <- <-.
        right. exists e. split; [assumption|]. apply (loaded_as_view _ _ s); [assumption|].
        split; assumption.
      * rewrite (intervalTick_waiting cfg p timeId s Hwf Hin Hld) in Hstep.
        injection Hstep as <- <-. left. auto.
    + cbn in Hstep.
      destruct (decide (loadingStates s !! timeId = Some Loaded)) as [Hld | Hld].
      * destruct (intervalTick_loaded cfg p timeId s Hwf Hin Hld)
          as (e & s1 & He & Ht & Hp1 & _ & Hlv & _).
        rewrite Ht in Hstep. injection Hstep as <- <-.
        right. exists e. split; [assumption|]. apply (loaded_as_view _ _ s); [assumption|].
        split; assumption.
      * rewrite (intervalTick_waiting cfg p timeId s Hwf Hin Hld) in Hstep.
        injection Hstep as <- <-. left. auto.
  - right. exists e. split.
    + destruct (promise_step _ _ _ _ _ _ Hwf Hp Hstep) as [Hp' | []]. assumption.
    + now apply (step_load cfg ev timeId e s s' o Hwf Hstep).
Qed.

Lemma polling_run evs : forall s s' o p timeId,
  wf cfg s -> polling p timeId s -> run cfg evs s = Some (s', o) -> polling p timeId s'.
Proof.
  induction evs as [|ev evs IH]; cbn; intros s s' o p timeId Hwf Hq Hrun.
  - now injection Hrun as <- _.
  - destruct (step cfg ev s) as [[s1 o1]|] eqn:H1; [|discriminate].
    destruct (run cfg evs s1) as [[s2 o2]|] eqn:H2; [|discriminate].
    injection Hrun as <- _.
    eapply IH; [| |exact H2]; eauto using wf_step, polling_step.
Qed.


(** X25.  A promise is settled by its owner, once.  In a reachable state,
    a step leaves every promise as it is, except that of a load at a signal
    of the loader for its asset, that of a poll at a tick of that poll,
    and that of a handoff at an animation frame; and a promise that is
    resolved or rejected stays so, with the same value, through any run. *)
Theorem promise_settled_by_owner :
  forall (s : Sys) (p : PromiseId) (st : PromiseState),
    reachable cfg s -> promises s !! p = Some st ->
    (forall ev s' o,
       step cfg ev s = Some (s', o) ->
       promises s' !! p = Some st \/ settles p st ev)
    /\ ((forall r, st <> PPending r) ->
        forall evs s' o, run cfg evs s = Some (s', o) -> promises s' !! p = Some st).
Proof.
  intros s p st Hreach Hp. pose proof (wf_reachable cfg s Hreach) as Hwf. split.
  - intros ev s' o Hstep. eapply promise_step; eauto.
  - intros Hst evs. clear Hreach. revert s Hwf Hp.
    induction evs as [|ev evs IH]; cbn; intros s Hwf Hp s' o Hrun.
    + now injection Hrun as <- _.
    + destruct (step cfg ev s) as [[s1 o1]|] eqn:H1; [|discriminate].
      destruct (run cfg evs s1) as [[s2 o2]|] eqn:H2; [|discriminate].
      injection Hrun as <- _.
      apply (IH s1 (wf_step cfg _ _ _ _ Hwf H1)) with (o := o2); [|assumption].
      destruct (promise_step _ _ _ _ _ _ Hwf Hp H1) as [Hp' | Hs]; [assumption|].
      exfalso. destruct st as [r|v|c]; try contradiction. now apply (Hst r).
Qed.

(** X20.  A caller that polls for a load in flight is never told of its
    failure.  The promise of a registered poll is never rejected: through
    any run it stays pending, with the poll registered, for as long as the
    time state is not loaded, whatever failures are reported meanwhile,
    and it is resolved only with the entity of the loaded time state. *)
Theorem poll_waits_through_failure :
  forall (s : Sys) (p : PromiseId) (timeId : string),
    reachable cfg s -> (p, timeId) ∈ intervals s ->
    forall evs s' o,
      run cfg evs s = Some (s', o) ->
      (forall cause, promises s' !! p <> Some (PRejected cause))
      /\ (loadingStates s' !! timeId <> Some Loaded ->
          promises s' !! p = Some (PPending ByInterval) /\ (p, timeId) ∈ intervals s')
      /\ (forall v, promises s' !! p = Some (PResolved v) ->
            exists e, v = Some e /\ loaded_as timeId e s').
Proof.
  intros s p timeId Hreach Hin evs s' o Hrun.
  pose proof (wf_reachable cfg s Hreach) as Hwf.
  assert (Hq : polling p timeId s).
  { left. split; [|assumption]. destruct Hwf. eauto. }
  pose proof (polling_run evs s s' o p timeId Hwf Hq Hrun) as [[Hp Hi] | (e & Hp & Hl)].
  - split; [intros c; rewrite Hp; discriminate|]. split; [auto|].
    intros v Hv. rewrite Hp in Hv. discriminate.
  - split; [intros c; rewrite Hp; discriminate|]. split.
    + intros Hn. destruct Hl as [Hl _]. contradiction.
    + intros v Hv. rewrite Hp in Hv. injection Hv as <-. eauto.
Qed.

Lemma unconfigured_active s :
  wf cfg s -> vis s -> ~ configured cfg (activeTimeId s) ->
  frames_waiters s = [] /\ forall timeId, shown s timeId = false.
Proof.
  intros Hwf [_ _ Hstage] Hnc. pose proof Hwf as [].
  assert (HeA : splatEntities s !! activeTimeId s = None).
  { destruct (splatEntities s !! activeTimeId s) as [e|] eqn:He; [|reflexivity].
    exfalso. apply Hnc. now destruct (wf_handles0 _ _ He) as (_ & _ & ?). }
  unfold handoff_stage in Hstage.
  destruct (frames_waiters s) as [|[q [t|target| |tag]] [|w ws]] eqn:Hf;
    try contradiction.
  - split; [reflexivity|]. destruct Hstage as [_ Hs]. intros timeId. rewrite Hs.
    case_bool_decide as Hid; [|reflexivity]. subst timeId.
    unfold has_entity. rewrite HeA. reflexivity.
  - destruct Hstage as [_ (eA & HeA' & _)]. congruence.
Qed.

Lemma unconfigured_step ev s s' o :
  wf cfg s -> vis s -> ~ configured cfg (activeTimeId s) ->
  step cfg ev s = Some (s', o) ->
  activeTimeId s' = activeTimeId s /\ transitions o = 0.
Proof.
  intros Hwf Hvis Hnc Hstep.
  destruct (unconfigured_active s Hwf Hvis Hnc) as [Hfw _].
  destruct (step_lock cfg ev s s' o Hstep); auto.
  exfalso. apply take_waiter_elem in H0 as [Hin _].
  assert (Hfr : (p, KSwitchFrames timeId) ∈ frames_waiters s).
  { unfold frames_waiters. apply list_elem_of_In, filter_In.
    split; [now apply list_elem_of_In | reflexivity]. }
  rewrite Hfw in Hfr. inversion Hfr.
Qed.

Lemma unconfigured_run evs : forall s s' o,
  wf cfg s -> lock_inv s -> vis s -> ~ configured cfg (activeTimeId s) ->
  run cfg evs s = Some (s', o) ->
  activeTimeId s' = activeTimeId s /\ transitions o = 0.
Proof.
  induction evs as [|ev evs IH]; cbn; intros s s' o Hwf Hlock Hvis Hnc Hrun.
  - injection Hrun as <- <-. auto.
  - destruct (step cfg ev s) as [[s1 o1]|] eqn:H1; [|discriminate].
    destruct (run cfg evs s1) as [[s2 o2]|] eqn:H2; [|discriminate].
    injection Hrun as <- <-.
    destruct (unconfigured_step _ _ _ _ Hwf Hvis Hnc H1) as [Ha1 Ht1].
    destruct (IH s1 s2 o2) as [Ha2 Ht2]; eauto using wf_step, lock_inv_step, vis_step.
    { now rewrite Ha1. }
    rewrite transitions_app. split; [congruence | lia].
Qed.

(** X22.  A default time state that is not configured leaves the viewer
    empty for good.  If the identifiers of the configuration are plain and
    [defaultTime] names none of the configured time states then, whatever
    is done to the system by calls on plain identifiers, the active
    identifier stays the default one, it has no entity, no switch ever
    completes, and no time state is ever shown: entities loaded meanwhile
    stay hidden. *)
Theorem unconfigured_default_shows_nothing :
  plain_config cfg = true ->
  ~ configured cfg (defaultTime cfg) ->
  forall s0 evs s out,
    constructor cfg = Some s0 ->
    forallb plain_event evs = true -> run cfg evs s0 = Some (s, out) ->
    activeTimeId s = defaultTime cfg
    /\ transitions out = 0
    /\ splatEntities s !! activeTimeId s = None
    /\ forall timeId, shown s timeId = false.
Proof.
  intros _ Hnc s0 evs s out H0 _ Hrun.
  assert (Ha0 : activeTimeId s0 = defaultTime cfg).
  { unfold constructor in H0. destruct (times cfg); simplify_eq. reflexivity. }
  assert (Hr0 : reachable cfg s0) by (exists s0, [], []; auto).
  destruct (good_reachable cfg s0 Hr0) as (Hwf0 & Hlock0 & Hvis0).
  destruct (unconfigured_run evs s0 s out Hwf0 Hlock0 Hvis0) as [Ha Ht]; auto.
  { now rewrite Ha0. }
  assert (Hr : reachable cfg s) by (exists s0, evs, out; auto).
  destruct (good_reachable cfg s Hr) as (Hwf & Hlock & Hvis).
  rewrite Ha0 in Ha.
  destruct (unconfigured_active s Hwf Hvis) as [_ Hs]; [now rewrite Ha|].
  repeat split; auto.
  destruct (splatEntities s !! activeTimeId s) as [e|] eqn:He; [|reflexivity].
  exfalso. apply Hnc. rewrite <- Ha. destruct Hwf. now destruct (wf_handles0 _ _ He) as (_ & _ & ?).
Qed.















End TogglePromises.
(** ** The time toggle: the theorems on the sample runs *)

Section ToggleWitnesses.
Import TimeToggle ToggleSpec.


(** The theorem on the sample state in which both time states are loaded:
    the switch to the second completes without a load. *)
Lemma switch_to_loaded_completes_witness :
  exists s',
    run ToggleSample.cfg
      [SwitchToTime "secondary"; AnimationFrame; AnimationFrame; Microtask 6; Timeout 0]
      (ToggleSample.state_after ToggleSample.preloaded)
    = Some (s', [Console (LogSwitching "primary" "secondary");
                 Console (LogSwitched "secondary")])
    /\ getActiveTimeId s' = "secondary"
    /\ loadRequests s' = [(1, "primary"); (4, "secondary")].
Proof.
  destruct (switch_to_loaded_completes ToggleSample.cfg
              (ToggleSample.state_after ToggleSample.preloaded) "secondary")
    as (s' & Hrun & Ha & _ & _ & _ & _ & _ & Hld & _).
  - apply sample_reachable. vm_compute. eexists. reflexivity.
  - vm_compute. reflexivity.
  - vm_compute. discriminate.
  - vm_compute. reflexivity.
  - vm_compute. reflexivity.
  - exists s'. split; [exact Hrun|]. split; [assumption|].
    change (loadRequests s') with (fst (fst (load_view s'))).
    rewrite Hld. vm_compute. reflexivity.
Defined.

(** The theorem after initialisation: the switch to the second time state
    loads it and completes. *)
Lemma switch_loads_on_demand_witness :
  exists s',
    run ToggleSample.cfg
      [SwitchToTime "secondary"; AssetReady 4; Microtask 3;
       AnimationFrame; AnimationFrame; Microtask 6; Timeout 0]
      (ToggleSample.state_after ToggleSample.boot)
    = Some (s', [Console (LogSwitching "primary" "secondary");
                 Console (LogLoading "secondary");
                 Console (LogAppliedTransform "secondary");
                 Console (LogLoaded "secondary");
                 Console (LogSwitched "secondary")])
    /\ activeTimeId s' = "secondary"
    /\ loadRequests s' = [(1, "primary"); (4, "secondary")].
Proof.
  destruct (switch_loads_on_demand ToggleSample.cfg
              (ToggleSample.state_after ToggleSample.boot) "secondary")
    as (s' & Hrun & Ha & _ & _ & _ & Hlr & _).
  - apply sample_plain_reachable; [reflexivity|]. vm_compute. eexists. reflexivity.
  - vm_compute. reflexivity.
  - vm_compute. discriminate.
  - vm_compute. reflexivity.
  - vm_compute. eexists. reflexivity.
  - vm_compute. discriminate.
  - vm_compute. discriminate.
  - exists s'. split; [exact Hrun|]. split; [assumption|]. exact Hlr.
Defined.

(** The theorem on the sample state in which both time states are loaded:
    two presses of the button come back to the first time state. *)
Lemma toggle_twice_restores_witness :
  exists s' out,
    run ToggleSample.cfg
      ([Toggle; AnimationFrame; AnimationFrame; Microtask 6; Timeout 0]
       ++ [Toggle; AnimationFrame; AnimationFrame; Microtask 7; Timeout 0])
      (ToggleSample.state_after ToggleSample.preloaded)
    = Some (s', out)
    /\ transitions out = 2
    /\ activeTimeId s' = "primary".
Proof.
  destruct (toggle_twice_restores ToggleSample.cfg
              (ToggleSample.state_after ToggleSample.preloaded)
              (mkTime "primary" "Before" "./splats/primary/")
              (mkTime "secondary" "After" "./splats/secondary/"))
    as (s' & out & Hrun & Ht & Ha & _).
  - reflexivity.
  - cbn. discriminate.
  - cbn. discriminate.
  - cbn. discriminate.
  - apply sample_reachable. vm_compute. eexists. reflexivity.
  - vm_compute. reflexivity.
  - vm_compute. eauto.
  - vm_compute. reflexivity.
  - vm_compute. reflexivity.
  - exists s', out. split; [exact Hrun|]. split; [assumption|].
    rewrite Ha. vm_compute. reflexivity.
Defined.

(** The theorem on the sample run in which two callers ask for the second
    time state and its load fails: the first caller is rejected, the poll
    of the second ticks, and its promise is still pending. *)
Lemma poll_waits_through_failure_witness :
  promises (ToggleSample.state_after ToggleSample.failed_poll) !! 5
  = Some (PPending ByInterval)
  /\ Rejected (KCaller 1) "404" ∈ ToggleSample.output_of ToggleSample.failed_poll.
Proof.
  split.
  - refine (proj1 (proj1 (proj2 (poll_waits_through_failure ToggleSample.cfg
                     (ToggleSample.state_after ToggleSample.double_load) 5 "secondary" _ _
                     [AssetError 4 "404"; Microtask 3; IntervalTick 5]
                     (ToggleSample.state_after ToggleSample.failed_poll)
                     [Console (ErrLoading "secondary" "404"); Rejected (KCaller 1) "404"]
                     _)) _)).
    + apply sample_reachable. vm_compute. eexists. reflexivity.
    + vm_compute. left.
    + vm_compute. reflexivity.
    + vm_compute. discriminate.
  - vm_compute. do 8 right. left.
Defined.

(** The theorem after initialisation, on an identifier that is not
    configured. *)
Lemma switch_to_unknown_is_harmless_witness :
  exists s',
    run ToggleSample.cfg [SwitchToTime "tertiary"; Microtask 3]
      (ToggleSample.state_after ToggleSample.boot)
    = Some (s', [Console (LogSwitching "primary" "tertiary");
                 Console (ErrUnknownTimeState "tertiary");
                 Console ErrMissingEntities])
    /\ switchLock s' = false
    /\ toggleBtn s' = Some LabelLoading.
Proof.
  destruct (switch_to_unknown_is_harmless ToggleSample.cfg
              (ToggleSample.state_after ToggleSample.boot) "tertiary")
    as (s' & Hrun & Hl & _ & _ & _ & _ & _ & _ & Hb).
  - apply sample_plain_reachable; [reflexivity|]. vm_compute. eexists. reflexivity.
  - vm_compute. reflexivity.
  - vm_compute. reflexivity.
  - vm_compute. discriminate.
  - vm_compute. intros [t Ht]. discriminate.
  - exists s'. split; [exact Hrun|]. split; [assumption|]. exact Hb.
Defined.

(** The theorem on the sample configuration with its default time state
    renamed: the first time state is loaded from outside and the button is
    pressed, and still nothing is shown. *)
Lemma unconfigured_default_shows_nothing_witness :
  shown
    (default ToggleSample.blank
       (fst <$> ToggleSample.final ToggleSample.misconfigured
                  [Initialize; Microtask 0; LoadTimeState "primary" 7;
                   AssetReady 2; Microtask 1; Toggle]))
    "primary"
  = false.
Proof.
  refine (proj2 (proj2 (proj2
            (unconfigured_default_shows_nothing ToggleSample.misconfigured _ _
               (default ToggleSample.blank (constructor ToggleSample.misconfigured))
               [Initialize; Microtask 0; LoadTimeState "primary" 7;
                AssetReady 2; Microtask 1; Toggle]
               _
               (default [] (snd <$> ToggleSample.final ToggleSample.misconfigured
                  [Initialize; Microtask 0; LoadTimeState "primary" 7;
                   AssetReady 2; Microtask 1; Toggle]))
               _ _ _))) "primary").
  - vm_compute. reflexivity.
  - vm_compute. intros [t Ht]. discriminate.
  - vm_compute. reflexivity.
  - vm_compute. reflexivity.
  - vm_compute. reflexivity.
Defined.


(** The theorem on the sample configuration: [initialize] returns entity
    2, shown. *)
Lemma initialize_outcomes_witness :
  exists s,
    run ToggleSample.cfg [Initialize; AssetReady 1; Microtask 0]
      (default ToggleSample.blank (constructor ToggleSample.cfg))
    = Some (s, [Console LogUICreated; Console (LogLoading "primary")]
               ++ aligned_log ToggleSample.cfg "primary"
               ++ [Console (LogLoaded "primary"); Console LogSingleSceneMode;
                   Returned KInitialize (Some 2)])
    /\ shown s "primary" = true.
Proof.
  destruct (initialize_outcomes ToggleSample.cfg
              (default ToggleSample.blank (constructor ToggleSample.cfg)))
    as [Hok _]; [reflexivity | reflexivity |].
  destruct Hok as [(s & Hrun & _ & Hs & _) _].
  - vm_compute. eexists. reflexivity.
  - exists s. split; [exact Hrun | exact Hs].
Defined.

(** The theorem on the promise of the initial load, resolved with entity
    2: it is still so after the sample run with the failed switch. *)
Lemma promise_settled_by_owner_witness :
  promises (ToggleSample.state_after ToggleSample.dead_button) !! 0
  = Some (PResolved (Some 2)).
Proof.
  refine (proj2 (promise_settled_by_owner ToggleSample.cfg
                   (ToggleSample.state_after ToggleSample.boot) 0 (PResolved (Some 2)) _ _)
            _ (skipn 3 ToggleSample.dead_button)
            (ToggleSample.state_after ToggleSample.dead_button)
            (skipn 5 (ToggleSample.output_of ToggleSample.dead_button)) _).
  - apply sample_reachable. vm_compute. eexists. reflexivity.
  - vm_compute. reflexivity.
  - vm_compute. discriminate.
  - vm_compute. reflexivity.
Defined.

End ToggleWitnesses.

(** ** A load that fails *)

Section LoadFailure.
Import TimeToggle ToggleSpec.
Context (cfg : ToggleConfig).

(** [loadTimeState] on a configured time state that is neither loaded nor
    loading: the request it makes. *)
Lemma loadTimeState_request timeId tc s :
  find (has_id timeId) (times cfg) = Some tc ->
  loadingStates s !! timeId <> Some Loaded ->
  loadingStates s !! timeId <> Some Loading ->
  loadTimeState cfg timeId s
  = (next s,
     set_loadRequests (loadRequests s ++ [(S (next s), timeId)])
       (set_splatAssets (<[timeId := S (next s)]> (splatAssets s))
          (set_assets
             (<[S (next s) := mkAsset timeId (t_path tc +:+ "lod-meta.json") (next s)
                                AssetRequested]> (assets s))
             (set_next (S (S (next s)))
                (set_promises (<[next s := PPending (ByAsset (S (next s)))]> (promises s))
                   (set_loadingStates (<[timeId := Loading]> (loadingStates s)) s))))),
     [Console (LogLoading timeId)]).
Proof.
  intros Htc HnL HnG. unfold loadTimeState. rewrite Htc.
  destruct (loadingStates s !! timeId) as [[]|]; try congruence; reflexivity.
Qed.

(** The request, its failure and the resumption of the function that
    awaited it, whatever that function is. *)
Lemma failed_request_run timeId tc cause k s0 s :
  find (has_id timeId) (times cfg) = Some tc ->
  loadingStates s !! timeId <> Some Loaded ->
  loadingStates s !! timeId <> Some Loading ->
  awaited_once s0 -> waiters s = waiters s0 -> next s = next s0 ->
  exists s',
    (let '(p, s1, o) := loadTimeState cfg timeId s in
     match run cfg [AssetError (S (next s)) cause; Microtask (next s)] (await p k s1) with
     | Some (s2, o') => Some (s2, o ++ o')
     | None => None
     end)
    = Some (s', [Console (LogLoading timeId); Console (ErrLoading timeId cause);
                 Rejected k cause])
    /\ loadingStates s' = <[timeId := LoadError]> (loadingStates s)
    /\ loadRequests s' = loadRequests s ++ [(S (next s), timeId)]
    /\ scene_view s' = scene_view s
    /\ pending_view s' = pending_view s
    /\ switchLock s' = switchLock s
    /\ toggleBtn s' = toggleBtn s.
Proof.
  intros Htc HnL HnG Hawait Hw Hn.
  rewrite (loadTimeState_request timeId tc s Htc HnL HnG).
  eexists. split.
  - rewrite !run_cons. cbn [step run]. unfold assetError. sys_simpl.
    rewrite lookup_insert_eq. cbn [a_status a_timeId a_promise].
    unfold settle. sys_simpl. rewrite lookup_insert_eq.
    unfold microtask. sys_simpl.
    rewrite Hw, Hn, take_waiter_snoc by now apply fresh_waiter.
    rewrite lookup_insert_eq. reflexivity.
  - unfold scene_view, pending_view. sys_simpl.
    rewrite insert_insert_eq. repeat split; now rewrite ?Hw, ?Hn.
Qed.

(** X28.  A load that fails is contained.  Under a configuration whose
    identifiers are plain, in a state reached by calls on plain
    identifiers, let a configured time state be neither loaded nor
    loading.  A caller of [loadTimeState] whose load then fails is
    rejected with the cause; the time state is marked [error], the request
    made is on record, and the active identifier, the entities and what is
    shown, the lock, the button and every function suspended or scheduled
    are as they were before the call.  The same holds when the load is the
    one [switchToTime] makes for its target, except for the lock, which is
    left held, and the button, left reading the loading notice. *)
Theorem load_failure_contained :
  forall (s : Sys) (timeId cause : string),
    plain_reachable cfg s ->
    configured cfg timeId ->
    loadingStates s !! timeId <> Some Loaded ->
    loadingStates s !! timeId <> Some Loading ->
    (forall tag, exists s',
        run cfg [LoadTimeState timeId tag; AssetError (S (next s)) cause;
                 Microtask (next s)] s
        = Some (s', [Console (LogLoading timeId); Console (ErrLoading timeId cause);
                     Rejected (KCaller tag) cause])
        /\ loadingStates s' = <[timeId := LoadError]> (loadingStates s)
        /\ loadRequests s' = loadRequests s ++ [(S (next s), timeId)]
        /\ scene_view s' = scene_view s
        /\ pending_view s' = pending_view s
        /\ switchLock s' = switchLock s
        /\ toggleBtn s' = toggleBtn s
        /\ forall other, shown s' other = shown s other)
    /\ (switchLock s = false -> timeId <> activeTimeId s ->
        exists s',
          run cfg [SwitchToTime timeId; AssetError (S (next s)) cause;
                   Microtask (next s)] s
          = Some (s', [Console (LogSwitching (activeTimeId s) timeId);
                       Console (LogLoading timeId); Console (ErrLoading timeId cause);
                       Rejected (KSwitchLoad timeId) cause])
          /\ loadingStates s' = <[timeId := LoadError]> (loadingStates s)
          /\ loadRequests s' = loadRequests s ++ [(S (next s), timeId)]
          /\ scene_view s' = scene_view s
          /\ pending_view s' = pending_view s
          /\ switchLock s' = true
          /\ toggleBtn s' = (fun _ => LabelLoading) <$> toggleBtn s
          /\ forall other, shown s' other = shown s other).
Proof.
  intros s timeId cause Hreach%plain_reachable_reachable [tc Htc] HnL HnG.
  pose proof (awaited_once_reachable cfg s Hreach) as Hawait.
  assert (Hshown : forall s', scene_view s' = scene_view s ->
                              forall other, shown s' other = shown s other).
  { intros s' Hv other. unfold scene_view in Hv. injection Hv as _ Hse He.
    unfold shown. now rewrite Hse, He. }
  split.
  - intros tag.
    destruct (failed_request_run timeId tc cause (KCaller tag) s s Htc HnL HnG Hawait
                eq_refl eq_refl)
      as (s' & Hrun & Hls & Hlr & Hsc & Hpe & Hl & Hb).
    exists s'. split.
    + rewrite run_cons. cbn [step].
      destruct (loadTimeState cfg timeId s) as [[p s1] o]. exact Hrun.
    + repeat split; auto.
  - intros Hfree Hne.
    set (s0 := set_toggleBtn match toggleBtn s with
                             | Some _ => Some LabelLoading
                             | None => None
                             end (set_switchLock true s)).
    destruct (failed_request_run timeId tc cause (KSwitchLoad timeId) s s0 Htc HnL HnG Hawait
                eq_refl eq_refl)
      as (s' & Hrun & Hls & Hlr & Hsc & Hpe & Hl & Hb).
    exists s'. split.
    + rewrite run_cons. cbn [step]. unfold switchToTime.
      rewrite bool_decide_eq_false_2 by assumption. rewrite Hfree. sys_simpl.
      rewrite bool_decide_eq_false_2 by assumption. cbn [negb].
      fold s0. change (next s) with (next s0).
      destruct (loadTimeState cfg timeId s0) as [[p s1] o].
      destruct (run cfg _ (await p (KSwitchLoad timeId) s1)) as [[s2 o2]|]; [|discriminate].
      injection Hrun as <- <-. reflexivity.
    + rewrite Hl, Hb. repeat split; auto.
Qed.

End LoadFailure.

Section LoadFailureWitness.
Import TimeToggle ToggleSpec.

(** The theorem on the sample state after initialisation: the load of the
    second time state fails under a caller from outside, and the lock and
    the button are as they were. *)
Lemma load_failure_contained_witness :
  exists s',
    run ToggleSample.cfg
      [LoadTimeState "secondary" 1; AssetError 4 "404"; Microtask 3]
      (ToggleSample.state_after ToggleSample.boot)
    = Some (s', [Console (LogLoading "secondary"); Console (ErrLoading "secondary" "404");
                 Rejected (KCaller 1) "404"])
    /\ switchLock s' = false
    /\ shown s' "primary" = true.
Proof.
  destruct (load_failure_contained ToggleSample.cfg
              (ToggleSample.state_after ToggleSample.boot) "secondary" "404")
    as [Hcall _].
  - apply sample_plain_reachable; [reflexivity|]. vm_compute. eexists. reflexivity.
  - vm_compute. eexists. reflexivity.
  - vm_compute. discriminate.
  - vm_compute. discriminate.
  - destruct (Hcall 1) as (s' & Hrun & _ & _ & _ & _ & Hl & _ & Hs).
    exists s'. split; [exact Hrun|]. split.
    + rewrite Hl. vm_compute. reflexivity.
    + rewrite Hs. vm_compute. reflexivity.
Defined.

End LoadFailureWitness.
